(** * photo-sync-server: ingestion, deduplication and indexing core

    A shallow embedding of the Go sources (package [models], [storage],
    [utils] and [handlers]) and the properties of the specification proved about it.

    Conventions of the embedding:
    - a Go [string] is a sequence of bytes: Rocq's [string] (a list of
      8-bit [ascii]); a [[]byte] is a [list ascii];
    - a Go [int] / [int64] is a [Z] with the 64-bit wrap-around written out
      ([wrap64]);
    - a [float64] is a [spec_float] with the binary64 parameters;
    - a Go map is a [gmap]; the objects behind the pointers stored in a map
      are owned by that map, so the map holds the values themselves;
    - every read of the clock, and every outcome of a file-system call, is an
      explicit input;
    - a run-time panic is an explicit outcome. *)

From Stdlib Require Import ZArith Lia Ascii String SpecFloat Sorted.
From stdpp Require Import gmap strings list.

Local Open Scope Z_scope.

(** ** Machine integers and floating point *)

Module Go.

(** Two's complement wrap-around of 64-bit signed arithmetic. *)
Definition wrap64 (z : Z) : Z := (z + 2 ^ 63) mod 2 ^ 64 - 2 ^ 63.

Definition minInt64 : Z := - 2 ^ 63.
Definition maxInt64 : Z := 2 ^ 63 - 1.

Definition add64 (a b : Z) : Z := wrap64 (a + b).
Definition sub64 (a b : Z) : Z := wrap64 (a - b).
Definition neg64 (a : Z) : Z := wrap64 (- a).

(** binary64 ([float64]): 53 bits of precision, exponent bound 1024. *)
Definition float64 : Type := spec_float.
Definition f64_prec : Z := 53.
Definition f64_emax : Z := 1024.

(** [float64(n)] for an integer [n]: the nearest binary64, ties to even. *)
Definition float64_of_int (n : Z) : float64 :=
  binary_normalize f64_prec f64_emax n 0 false.

Definition f64_div (x y : float64) : float64 := SFdiv f64_prec f64_emax x y.
Definition f64_mul (x y : float64) : float64 := SFmul f64_prec f64_emax x y.
Definition f64_add (x y : float64) : float64 := SFadd f64_prec f64_emax x y.

Definition f64_zero : float64 := S754_zero false.

(** [int64(v)] / [int(v)] for a [float64]: truncation toward zero.  A NaN,
    an infinity or a value outside the range of [int64] has no portable
    result in Go; the embedding returns what the amd64 conversion
    instruction produces, the "integer indefinite" value [minInt64]. *)
Definition int_of_float64 (v : float64) : Z :=
  match v with
  | S754_zero _ => 0
  | S754_infinity _ | S754_nan => minInt64
  | S754_finite s m e =>
      let mag := if 0 <=? e then Z.pos m * 2 ^ e else Z.pos m / 2 ^ (- e) in
      let r := if s then - mag else mag in
      if (minInt64 <=? r) && (r <=? maxInt64) then r else minInt64
  end.

End Go.

(** ** Bytes *)

Definition byte : Type := ascii.
Definition byte_val (b : byte) : Z := Z.of_N (N_of_ascii b).
(** [byte(z)]: conversion to [uint8] keeps the low eight bits. *)
Definition byte_of (z : Z) : byte := ascii_of_N (Z.to_N (z mod 256)).

Definition bytes_of_string (s : string) : list byte := list_ascii_of_string s.
Definition string_of_bytes (l : list byte) : string := string_of_list_ascii l.

(** ** Package [time] (the part the program uses)

    A [time.Time] is an instant (seconds and nanoseconds since the Unix
    epoch) together with the offset of its zone east of UTC, in seconds.
    The monotonic clock reading and the name of the zone are not
    represented. *)

Module time.

Record Time : Type := mkTime {
  unixSec : Z;
  nsec : Z;
  zoneOffset : Z
}.

(** A [time.Duration] is an [int64] count of nanoseconds. *)
Definition Duration : Type := Z.
Definition Nanosecond : Duration := 1.
Definition Second : Duration := 1000000000.
Definition Minute : Duration := 60 * Second.
Definition Hour : Duration := 60 * Minute.

Definition unixNano (t : Time) : Z := unixSec t * 1000000000 + nsec t.

(** [t.Before(u)]: the instant [t] is before the instant [u]. *)
Definition Before (t u : Time) : bool := unixNano t <? unixNano u.

(** [t.Sub(u)]: the difference, saturated to the range of [Duration]. *)
Definition Sub (t u : Time) : Duration :=
  let d := unixNano t - unixNano u in
  if d <? Go.minInt64 then Go.minInt64
  else if Go.maxInt64 <? d then Go.maxInt64
  else d.

(** [d.Seconds()]: [float64(d / Second) + float64(d % Second) / 1e9], with
    Go's truncated integer division. *)
Definition Seconds (d : Duration) : Go.float64 :=
  Go.f64_add (Go.float64_of_int (Z.quot d Second))
             (Go.f64_div (Go.float64_of_int (Z.rem d Second))
                         (Go.float64_of_int 1000000000)).

(** *** The layout [time.RFC3339], ["2006-01-02T15:04:05Z07:00"] *)

Definition isLeap (y : Z) : bool :=
  (y mod 4 =? 0) && (negb (y mod 100 =? 0) || (y mod 400 =? 0)).

Definition daysIn (m y : Z) : Z :=
  if m =? 2 then (if isLeap y then 29 else 28)
  else if (m =? 4) || (m =? 6) || (m =? 9) || (m =? 11) then 30
  else 31.

(** The date (year, month, day) of the proleptic Gregorian calendar that
    lies [z] days after 1970-01-01, and the converse, computed on eras of
    400 years (146097 days) that start on a 1st of March. *)
Definition yearOfEra (doe : Z) : Z :=
  (doe - doe / 1460 + doe / 36524 - doe / 146096) / 365.

Definition dayOfYear (doe : Z) : Z :=
  let yoe := yearOfEra doe in doe - (365 * yoe + yoe / 4 - yoe / 100).

Definition civilFromDays (z : Z) : Z * Z * Z :=
  let z' := z + 719468 in
  let era := z' / 146097 in
  let doe := z' mod 146097 in
  let yoe := yearOfEra doe in
  let doy := dayOfYear doe in
  let mp := (5 * doy + 2) / 153 in
  let d := doy - (153 * mp + 2) / 5 + 1 in
  let m := if mp <? 10 then mp + 3 else mp - 9 in
  (yoe + era * 400 + (if m <=? 2 then 1 else 0), m, d).

Definition daysFromCivil (y m d : Z) : Z :=
  let y' := y - (if m <=? 2 then 1 else 0) in
  let era := y' / 400 in
  let yoe := y' - era * 400 in
  let doy := (153 * (if 2 <? m then m - 3 else m + 9) + 2) / 5 + d - 1 in
  let doe := yoe * 365 + yoe / 4 - yoe / 100 + doy in
  era * 146097 + doe - 719468.

Definition digit_char (d : Z) : byte := byte_of (0x30 + d).

Definition digit_val (c : byte) : option Z :=
  let v := byte_val c in
  if (0x30 <=? v) && (v <=? 0x39) then Some (v - 0x30) else None.

(** The decimal digits of [u], least significant first. *)
Fixpoint decimal_rev (fuel : nat) (u : Z) : list byte :=
  match fuel with
  | O => []
  | S f =>
    if u <? 10 then [digit_char u]
    else digit_char (u mod 10) :: decimal_rev f (u / 10)
  end.

(** [appendInt(b, x, width)]: [x] in decimal, zero-padded to [width]
    digits, after a minus sign when negative. *)
Definition appendInt (x : Z) (width : nat) : list byte :=
  let ds := rev (decimal_rev 20 (Z.abs x)) in
  (if x <? 0 then ["-"%char] else []) ++
  replicate (width - length ds) "0"%char ++ ds.

Definition formatZone (offset : Z) : list byte :=
  if offset =? 0 then ["Z"%char]
  else
    let zone := Z.quot offset 60 in
    (if zone <? 0 then ["-"%char] else ["+"%char]) ++
    appendInt (Z.abs zone / 60) 2 ++ [":"%char] ++ appendInt (Z.abs zone mod 60) 2.

(** [t.Format(time.RFC3339)]: the civil date and clock of the instant in the
    zone of [t], to the second, and the zone. *)
Definition Format_RFC3339 (t : Time) : string :=
  let abs := unixSec t + zoneOffset t in
  let '(year, month, day) := civilFromDays (abs / 86400) in
  let secs := abs mod 86400 in
  string_of_bytes
    (appendInt year 4 ++ ["-"%char] ++ appendInt month 2 ++ ["-"%char] ++
     appendInt day 2 ++ ["T"%char] ++
     appendInt (secs / 3600) 2 ++ [":"%char] ++
     appendInt (secs mod 3600 / 60) 2 ++ [":"%char] ++
     appendInt (secs mod 60) 2 ++ formatZone (zoneOffset t)).

(** Exactly [n] decimal digits at the head of [s]: their value and the rest. *)
Fixpoint getnum (n : nat) (acc : Z) (s : list byte) : option (Z * list byte) :=
  match n with
  | O => Some (acc, s)
  | S k =>
    match s with
    | [] => None
    | c :: rest =>
      match digit_val c with
      | Some d => getnum k (10 * acc + d) rest
      | None => None
      end
    end
  end.

Definition expect (c : byte) (s : list byte) : option (list byte) :=
  match s with
  | c' :: rest => if Ascii.eqb c c' then Some rest else None
  | [] => None
  end.

Definition parseZone (s : list byte) : option Z :=
  match s with
  | [c] => if Ascii.eqb c "Z"%char then Some 0 else None
  | sign :: rest =>
    if Ascii.eqb sign "+"%char || Ascii.eqb sign "-"%char then
      '(hr, r1) ← getnum 2 0 rest;
      r2 ← expect ":"%char r1;
      '(mm, r3) ← getnum 2 0 r2;
      match r3 with
      | [] =>
        if (24 <? hr) || (60 <? mm) then None
        else
          let off := (hr * 60 + mm) * 60 in
          Some (if Ascii.eqb sign "-"%char then - off else off)
      | _ => None
      end
    else None
  | [] => None
  end.

(** [time.Parse(time.RFC3339, s)] on the strings of the shape that
    [Format] writes: date, ["T"], clock to the second, zone.  A string with
    a fraction of a second, which [Parse] also accepts and the program
    never writes, is outside this model (read as not parsable). *)
Definition Parse_RFC3339 (s : string) : option Time :=
  '(year, r) ← getnum 4 0 (bytes_of_string s);
  r ← expect "-"%char r;
  '(month, r) ← getnum 2 0 r;
  r ← expect "-"%char r;
  '(day, r) ← getnum 2 0 r;
  r ← expect "T"%char r;
  '(hour, r) ← getnum 2 0 r;
  r ← expect ":"%char r;
  '(min, r) ← getnum 2 0 r;
  r ← expect ":"%char r;
  '(sec, r) ← getnum 2 0 r;
  off ← parseZone r;
  if (month <? 1) || (12 <? month) || (day <? 1) || (daysIn month year <? day)
     || (24 <=? hour) || (60 <=? min) || (60 <=? sec)
  then None
  else
    Some {| unixSec :=
              daysFromCivil year month day * 86400
              + hour * 3600 + min * 60 + sec - off;
            nsec := 0;
            zoneOffset := off |}.

End time.

(** ** Package [models] *)

Module models.

Inductive SyncStatus : Type :=
  | StatusWaiting
  | StatusReady
  | StatusSyncing
  | StatusCompleted
  | StatusError.

Record Session : Type := mkSession {
  Token : string;
  Status : SyncStatus;
  Total : Z;
  Uploaded : Z;
  Skipped : Z;
  StartTime : time.Time;
  LastUpdate : time.Time;
  CurrentFile : string;
  Errors : list string
}.

(** [NewSession(token)], the clock read being [now]. *)
Definition NewSession (now : time.Time) (token : string) : Session :=
  {| Token := token; Status := StatusWaiting;
     Total := 0; Uploaded := 0; Skipped := 0;
     StartTime := now; LastUpdate := now;
     CurrentFile := EmptyString; Errors := [] |}.

(** [s.Update()] *)
Definition Update (now : time.Time) (s : Session) : Session :=
  {| Token := Token s; Status := Status s;
     Total := Total s; Uploaded := Uploaded s; Skipped := Skipped s;
     StartTime := StartTime s; LastUpdate := now;
     CurrentFile := CurrentFile s; Errors := Errors s |}.

(** [s.GetProgress()] *)
Definition GetProgress (s : Session) : Go.float64 :=
  if Total s =? 0 then Go.f64_zero
  else Go.f64_mul
         (Go.f64_div (Go.float64_of_int (Go.add64 (Uploaded s) (Skipped s)))
                     (Go.float64_of_int (Total s)))
         (Go.float64_of_int 100).

(** [s.GetEstimatedTimeRemaining()], the clock read being [now]. *)
Definition GetEstimatedTimeRemaining (now : time.Time) (s : Session) : Z :=
  if Uploaded s =? 0 then 0
  else
    let elapsed := time.Seconds (time.Sub now (StartTime s)) in
    let avgTimePerFile :=
      Go.f64_div elapsed (Go.float64_of_int (Go.add64 (Uploaded s) (Skipped s))) in
    let remaining :=
      Go.f64_mul
        (Go.float64_of_int (Go.sub64 (Go.sub64 (Total s) (Uploaded s)) (Skipped s)))
        avgTimePerFile in
    Go.int_of_float64 remaining.

End models.

(** ** Package [unicode/utf8] *)

Module utf8.

Definition RuneError : Z := 0xFFFD.
Definition RuneSelf : Z := 0x80.
Definition MaxRune : Z := 0x10FFFF.
Definition surrogateMin : Z := 0xD800.
Definition surrogateMax : Z := 0xDFFF.

(** The table [first] with [acceptRanges]: for a leading byte of a
    multi-byte sequence, the length of the sequence and the range accepted
    for the second byte; [None] for a byte that cannot lead one. *)
Definition first (s0 : Z) : option (nat * Z * Z) :=
  if (0xC2 <=? s0) && (s0 <=? 0xDF) then Some (2%nat, 0x80, 0xBF)
  else if s0 =? 0xE0 then Some (3%nat, 0xA0, 0xBF)
  else if (0xE1 <=? s0) && (s0 <=? 0xEC) then Some (3%nat, 0x80, 0xBF)
  else if s0 =? 0xED then Some (3%nat, 0x80, 0x9F)
  else if (0xEE <=? s0) && (s0 <=? 0xEF) then Some (3%nat, 0x80, 0xBF)
  else if s0 =? 0xF0 then Some (4%nat, 0x90, 0xBF)
  else if (0xF1 <=? s0) && (s0 <=? 0xF3) then Some (4%nat, 0x80, 0xBF)
  else if s0 =? 0xF4 then Some (4%nat, 0x80, 0x8F)
  else None.

Definition is_cont (b : Z) : bool := (0x80 <=? b) && (b <=? 0xBF).

(** [utf8.DecodeRuneInString(s)]: the first rune of [s] and its width in
    bytes; [(RuneError, 0)] for the empty string and [(RuneError, 1)] for an
    encoding that is not valid. *)
Definition DecodeRuneInString (s : string) : Z * nat :=
  match s with
  | EmptyString => (RuneError, 0%nat)
  | String c0 t0 =>
    let s0 := byte_val c0 in
    if s0 <? RuneSelf then (s0, 1%nat)
    else
      match first s0 with
      | None => (RuneError, 1%nat)
      | Some (sz, lo, hi) =>
        match t0 with
        | EmptyString => (RuneError, 1%nat)
        | String c1 t1 =>
          let s1 := byte_val c1 in
          if (s1 <? lo) || (hi <? s1) then (RuneError, 1%nat)
          else if (sz <=? 2)%nat then
            (Z.lor (Z.shiftl (Z.land s0 0x1F) 6) (Z.land s1 0x3F), 2%nat)
          else
            match t1 with
            | EmptyString => (RuneError, 1%nat)
            | String c2 t2 =>
              let s2 := byte_val c2 in
              if negb (is_cont s2) then (RuneError, 1%nat)
              else if (sz <=? 3)%nat then
                (Z.lor (Z.lor (Z.shiftl (Z.land s0 0x0F) 12)
                              (Z.shiftl (Z.land s1 0x3F) 6))
                       (Z.land s2 0x3F), 3%nat)
              else
                match t2 with
                | EmptyString => (RuneError, 1%nat)
                | String c3 _ =>
                  let s3 := byte_val c3 in
                  if negb (is_cont s3) then (RuneError, 1%nat)
                  else
                    (Z.lor (Z.lor (Z.lor (Z.shiftl (Z.land s0 0x07) 18)
                                         (Z.shiftl (Z.land s1 0x3F) 12))
                                  (Z.shiftl (Z.land s2 0x3F) 6))
                           (Z.land s3 0x3F), 4%nat)
                end
            end
        end
      end
  end.

(** The bytes [utf8.AppendRune] / [Builder.WriteRune] write for [r]; a rune
    out of range or a surrogate half is written as [RuneError]. *)
Definition encode3 (r : Z) : string :=
  String (byte_of (Z.lor 0xE0 (Z.shiftr r 12)))
    (String (byte_of (Z.lor 0x80 (Z.land (Z.shiftr r 6) 0x3F)))
      (String (byte_of (Z.lor 0x80 (Z.land r 0x3F))) EmptyString)).

Definition EncodeRune (r : Z) : string :=
  if (0 <=? r) && (r <=? 0x7F) then String (byte_of r) EmptyString
  else if (0 <=? r) && (r <=? 0x7FF) then
    String (byte_of (Z.lor 0xC0 (Z.shiftr r 6)))
      (String (byte_of (Z.lor 0x80 (Z.land r 0x3F))) EmptyString)
  else if (r <? 0) || (MaxRune <? r) || ((surrogateMin <=? r) && (r <=? surrogateMax))
  then encode3 RuneError
  else if r <=? 0xFFFF then encode3 r
  else
    String (byte_of (Z.lor 0xF0 (Z.shiftr r 18)))
      (String (byte_of (Z.lor 0x80 (Z.land (Z.shiftr r 12) 0x3F)))
        (String (byte_of (Z.lor 0x80 (Z.land (Z.shiftr r 6) 0x3F)))
          (String (byte_of (Z.lor 0x80 (Z.land r 0x3F))) EmptyString))).

(** The runes a [for _, c := range s] loop visits.  [skip] counts the bytes
    of the rune being visited that are still to be passed over. *)
Fixpoint range_from (skip : nat) (s : string) : list Z :=
  match s with
  | EmptyString => []
  | String _ t =>
    match skip with
    | S k => range_from k t
    | O => let '(r, n) := DecodeRuneInString s in r :: range_from (n - 1) t
    end
  end.

Definition range (s : string) : list Z := range_from 0 s.

End utf8.

(** ** Packages [unicode] and [strings] *)

(** [unicode.ToLower] looks a rune beyond ASCII up in the case tables of the
    Unicode database, which are data of the Go distribution: the lookup
    [unicode.To(unicode.LowerCase, r)] is a parameter of the development. *)
Class Unicode : Type := { To_LowerCase : Z -> Z }.

Module unicode.

Definition MaxASCII : Z := 0x7F.

Definition ToLower `{Unicode} (r : Z) : Z :=
  if r <=? MaxASCII then
    if (0x41 <=? r) && (r <=? 0x5A) then r + (0x61 - 0x41) else r
  else To_LowerCase r.

End unicode.

Module strings.

(** [strings.Map(mapping, s)]: every rune of [s] replaced by its image,
    dropped when the image is negative.  (The library returns [s] itself
    when no rune changes, which is the same string.) *)
Definition Map (mapping : Z -> Z) (s : string) : string :=
  foldr (fun c acc =>
           let r := mapping c in
           if 0 <=? r then String.append (utf8.EncodeRune r) acc else acc)
        EmptyString (utf8.range s).

Definition isASCII (s : string) : bool :=
  forallb (fun c => byte_val c <? utf8.RuneSelf) (bytes_of_string s).

Definition lowerASCII (c : byte) : byte :=
  let v := byte_val c in
  if (0x41 <=? v) && (v <=? 0x5A) then byte_of (v + (0x61 - 0x41)) else c.

(** [strings.ToLower(s)]: byte-wise on a string of ASCII bytes only,
    [Map(unicode.ToLower, s)] otherwise. *)
Definition ToLower `{Unicode} (s : string) : string :=
  if isASCII s then string_of_bytes (map lowerASCII (bytes_of_string s))
  else Map unicode.ToLower s.

End strings.

(** ** Package [encoding/json]

    The index file is a JSON text.  The embedding keeps the document that
    the text denotes: an object is the list of its members, an array a
    list.  What [Marshal] and [Unmarshal] do to the values is kept: a string
    is coerced to valid UTF-8, every invalid byte replaced by U+FFFD; a
    number decoded into an [interface{}] is a [float64]. *)

Module json.

(** The dynamic values ([interface{}]) the program stores in, and reads
    from, a [map[string]interface{}]. *)
Inductive Any : Type :=
  | Nil
  | Bool (b : bool)
  | Int (n : Z)
  | Int64 (n : Z)
  | Float64 (f : Go.float64)
  | Str (s : string)
  | Composite.

(** The value of a member of a photo object in the document: a number is
    the integer it is written as, or the [float64] nearest to a numeral
    that is not an integer; arrays and objects at this depth are not looked
    into. *)
Inductive Value : Type :=
  | Null
  | Boolean (b : bool)
  | Integer (n : Z)
  | Fraction (f : Go.float64)
  | Text (s : string)
  | Nested.

Definition Object (A : Type) : Type := list (string * A).

(** Coercion to valid UTF-8: the runes a range loop reads, encoded again. *)
Definition ToValidUTF8 (s : string) : string :=
  foldr (fun r acc => String.append (utf8.EncodeRune r) acc) EmptyString (utf8.range s).

Definition marshal_value (v : Any) : Value :=
  match v with
  | Nil => Null
  | Bool b => Boolean b
  | Int n | Int64 n => Integer n
  | Float64 f => Fraction f
  | Str s => Text (ToValidUTF8 s)
  | Composite => Nested
  end.

Definition unmarshal_value (v : Value) : Any :=
  match v with
  | Null => Nil
  | Boolean b => Bool b
  | Integer n => Float64 (Go.float64_of_int n)
  | Fraction f => Float64 f
  | Text s => Str (ToValidUTF8 s)
  | Nested => Composite
  end.

(** A Go map written as an object (the order of the members, which
    [Marshal] sorts by key, is immaterial to what follows), and an object
    read into a Go map: a later member replaces an earlier one of the same
    name. *)
Definition marshal_object {A B : Type} (f : A -> B) (m : gmap string A) : Object B :=
  (fun kv => (ToValidUTF8 kv.1, f kv.2)) <$> map_to_list m.

Definition unmarshal_object {A B : Type} (g : A -> B) (o : Object A) : gmap string B :=
  foldl (fun m kv => <[ToValidUTF8 kv.1 := g kv.2]> m) ∅ o.

End json.

(** ** Package [path/filepath]

    What separates the elements of a path, and the last element of a path,
    depend on the operating system: they are parameters. *)

Class PathOS : Type := {
  IsPathSeparator : byte -> bool;
  filepath_Base : string -> string
}.

Module filepath.

Section Filepath.
Context `{OS : PathOS}.

(** The loop of [Ext], [for i := len(path) - 1; i >= 0 &&
    !os.IsPathSeparator(path[i]); i--], on the bytes [path[i]], [path[i-1]],
    ... still to visit; [tail] is [path[i+1:]]. *)
Fixpoint extLoop (visit tail : list byte) : list byte :=
  match visit with
  | [] => []
  | c :: before =>
    if IsPathSeparator c then []
    else if Ascii.eqb c "."%char then c :: tail
    else extLoop before (c :: tail)
  end.

(** [filepath.Ext(path)]: the suffix of [path] from the last dot of its
    last element on, empty when that element has no dot. *)
Definition Ext (path : string) : string :=
  string_of_bytes (extLoop (rev (bytes_of_string path)) []).

End Filepath.

End filepath.

(** ** Package [storage] *)

Module PhotoInfo.
Record t : Type := mk {
  Path : string;
  FullPath : string;
  Date : time.Time;
  Size : Z;
  Hash : string;
  UserComment : string
}.
End PhotoInfo.

Module FileHashInfo.
Record t : Type := mk {
  Hash : string;
  Size : Z;
  Date : time.Time;
  Path : string
}.
End FileHashInfo.

Module storage.

(** The document type of the index file,
    [map[string][]map[string]interface{}]. *)
Definition IndexDoc : Type := json.Object (list (json.Object json.Value)).

(** The file [photo_index.json]: its text is a document of the expected
    type, or is not. *)
Inductive IndexFile : Type :=
  | NotParsable
  | Document (doc : IndexDoc).

(** The outcome of [os.WriteFile], an input: the write succeeds, or it fails
    and leaves the file in the given state ([None]: no file). *)
Inductive WriteOutcome : Type :=
  | WriteOk
  | WriteFails (remains : option IndexFile).

Definition error : Type := string.

Section Storage.
Context `{U : Unicode}.

(** [NormalizeCounterNumber] *)
Definition keepRune (r : Z) : Z :=
  if ((0x61 <=? r) && (r <=? 0x7A)) || ((0x30 <=? r) && (r <=? 0x39))
     || ((0x430 <=? r) && (r <=? 0x44F)) || (r =? 0x451)
  then r else -1.

Definition NormalizeCounterNumber (counterNumber : string) : string :=
  let result := strings.ToLower counterNumber in
  strings.Map keepRune result.

(** *** The index *)

Record Indexer : Type := mkIndexer {
  indexDir : string;
  index : gmap string (list PhotoInfo.t)
}.

Definition getString (m : gmap string json.Any) (key : string) : string :=
  match m !! key with
  | Some (json.Str val) => val
  | _ => EmptyString
  end.

Definition getInt64 (m : gmap string json.Any) (key : string) : Z :=
  match m !! key with
  | Some (json.Int64 v) => v
  | Some (json.Int v) => v
  | Some (json.Float64 v) => Go.int_of_float64 v
  | _ => 0
  end.

(** The [photoMap] that [saveIndex] builds for a record. *)
Definition photoMap (photo : PhotoInfo.t) : gmap string json.Any :=
  let m : gmap string json.Any :=
    <["path" := json.Str (PhotoInfo.Path photo)]>
    (<["fullPath" := json.Str (PhotoInfo.FullPath photo)]>
    (<["date" := json.Str (time.Format_RFC3339 (PhotoInfo.Date photo))]>
    (<["size" := json.Int64 (PhotoInfo.Size photo)]>
    (<["hash" := json.Str (PhotoInfo.Hash photo)]> ∅)))) in
  if String.eqb (PhotoInfo.UserComment photo) EmptyString then m
  else <["userComment" := json.Str (PhotoInfo.UserComment photo)]> m.

Definition indexData_of (idx : gmap string (list PhotoInfo.t))
  : gmap string (list (gmap string json.Any)) :=
  fmap (M := gmap string) (fun photos : list PhotoInfo.t => photoMap <$> photos) idx.

(** [json.MarshalIndent(indexData, ...)] *)
Definition Marshal (indexData : gmap string (list (gmap string json.Any))) : IndexDoc :=
  json.marshal_object
    (fun l : list (gmap string json.Any) => json.marshal_object json.marshal_value <$> l)
    indexData.

(** [json.Unmarshal(data, &indexData)] *)
Definition Unmarshal (doc : IndexDoc) : gmap string (list (gmap string json.Any)) :=
  json.unmarshal_object
    (fun l : list (json.Object json.Value) => json.unmarshal_object json.unmarshal_value <$> l)
    doc.

(** [idx.saveIndex()]: the error returned and the file afterwards. *)
Definition saveIndex (w : WriteOutcome) (idx : Indexer) (disk : option IndexFile)
  : option error * option IndexFile :=
  let data := Marshal (indexData_of (index idx)) in
  match w with
  | WriteOk => (None, Some (Document data))
  | WriteFails remains => (Some "failed to save index"%string, remains)
  end.

(** The record [loadIndex] makes of a photo object; [now] is the clock. *)
Definition photoOfData (now : time.Time) (photoData : gmap string json.Any) : PhotoInfo.t :=
  {| PhotoInfo.Path := getString photoData "path";
     PhotoInfo.FullPath := getString photoData "fullPath";
     PhotoInfo.Size := getInt64 photoData "size";
     PhotoInfo.Hash := getString photoData "hash";
     PhotoInfo.UserComment := getString photoData "userComment";
     PhotoInfo.Date :=
       match photoData !! "date"%string with
       | Some (json.Str dateStr) =>
         match time.Parse_RFC3339 dateStr with
         | Some parsed => parsed
         | None => now
         end
       | _ => now
       end |}.

(** [idx.loadIndex()]: a file that is missing or cannot be read or parsed
    leaves the index as it is. *)
Definition loadIndex (now : time.Time) (disk : option IndexFile) (idx : Indexer) : Indexer :=
  match disk with
  | Some (Document doc) =>
    let indexData := Unmarshal doc in
    {| indexDir := indexDir idx;
       index :=
         fmap (M := gmap string)
              (fun photosData : list (gmap string json.Any) => photoOfData now <$> photosData)
              indexData
         ∪ index idx |}
  | _ => idx
  end.

(** [NewIndexer(indexDir)] *)
Definition NewIndexer (now : time.Time) (disk : option IndexFile) (dir : string) : Indexer :=
  loadIndex now disk {| indexDir := dir; index := ∅ |}.

(** The two loops of [AddPhoto] that order a bucket, newest first:
    [photos[i], photos[j] = photos[j], photos[i]] when
    [photos[i].Date.Before(photos[j].Date)], for [i < j]. *)
Definition swap (photos : list PhotoInfo.t) (i j : nat) : list PhotoInfo.t :=
  match photos !! i, photos !! j with
  | Some a, Some b => <[i := b]> (<[j := a]> photos)
  | _, _ => photos
  end.

Definition sortStep (photos : list PhotoInfo.t) (i j : nat) : list PhotoInfo.t :=
  match photos !! i, photos !! j with
  | Some a, Some b =>
    if time.Before (PhotoInfo.Date a) (PhotoInfo.Date b) then swap photos i j else photos
  | _, _ => photos
  end.

(** [for j := ...; j < len(photos); j++], with [n] iterations left. *)
Fixpoint sortInner (n : nat) (i j : nat) (photos : list PhotoInfo.t) : list PhotoInfo.t :=
  match n with
  | O => photos
  | S n' => sortInner n' i (S j) (sortStep photos i j)
  end.

(** [for i := ...; i < len(photos)-1; i++], with [n] iterations left. *)
Fixpoint sortOuter (n : nat) (i : nat) (photos : list PhotoInfo.t) : list PhotoInfo.t :=
  match n with
  | O => photos
  | S n' => sortOuter n' (S i) (sortInner (length photos - (i + 1)) i (i + 1) photos)
  end.

Definition sortByDate (photos : list PhotoInfo.t) : list PhotoInfo.t :=
  sortOuter (length photos - 1) 0 photos.

(** [idx.AddPhoto(...)]: the error returned, the index and the file
    afterwards. *)
Definition AddPhoto (w : WriteOutcome) (counterNumber relPath fullPath : string)
    (date : time.Time) (size : Z) (hash userComment : string)
    (idx : Indexer) (disk : option IndexFile)
  : option error * Indexer * option IndexFile :=
  let normalizedCounter := NormalizeCounterNumber counterNumber in
  let bucket := default [] (index idx !! normalizedCounter) in
  let idx0 := {| indexDir := indexDir idx;
                 index := <[normalizedCounter := bucket]> (index idx) |} in
  if existsb (fun photo => String.eqb (PhotoInfo.Path photo) relPath) bucket
  then (None, idx0, disk)
  else
    let photo := {| PhotoInfo.Path := relPath; PhotoInfo.FullPath := fullPath;
                    PhotoInfo.Date := date; PhotoInfo.Size := size;
                    PhotoInfo.Hash := hash; PhotoInfo.UserComment := userComment |} in
    let photos := sortByDate (bucket ++ [photo]) in
    let idx1 := {| indexDir := indexDir idx;
                   index := <[normalizedCounter := photos]> (index idx) |} in
    let '(err, disk1) := saveIndex w idx1 disk in
    (err, idx1, disk1).

(** [idx.GetPhotosByCounter(counterNumber)] *)
Definition GetPhotosByCounter (idx : Indexer) (counterNumber : string) : list PhotoInfo.t :=
  let normalizedCounter := NormalizeCounterNumber counterNumber in
  default [] (index idx !! normalizedCounter).

(** [idx.GetAllCounters()], in no particular order. *)
Definition GetAllCounters (idx : Indexer) : list string :=
  (map_to_list (index idx)).*1.

(** *** The duplicate detector *)

Record DuplicateCheck : Type := mkDuplicateCheck {
  hashDB : gmap string FileHashInfo.t
}.

Definition NewDuplicateCheck : DuplicateCheck := {| hashDB := ∅ |}.

(** [absTimeDiff(t1, t2)] *)
Definition absTimeDiff (t1 t2 : time.Time) : time.Duration :=
  let diff := time.Sub t1 t2 in
  if diff <? 0 then Go.neg64 diff else diff.

(** The loop of tier 2 over the records of the bucket. *)
Fixpoint findByDate (fileHash : string) (dateTaken : time.Time) (photos : list PhotoInfo.t)
  : option FileHashInfo.t :=
  match photos with
  | [] => None
  | photo :: rest =>
    if (absTimeDiff (PhotoInfo.Date photo) dateTaken <? time.Second)
       && String.eqb (PhotoInfo.Hash photo) fileHash
    then Some {| FileHashInfo.Hash := PhotoInfo.Hash photo;
                 FileHashInfo.Size := PhotoInfo.Size photo;
                 FileHashInfo.Date := PhotoInfo.Date photo;
                 FileHashInfo.Path := PhotoInfo.Path photo |}
    else findByDate fileHash dateTaken rest
  end.

(** [dc.CheckDuplicate(fileHash, size, counterNumber, dateTaken, indexer)] *)
Definition CheckDuplicate (dc : DuplicateCheck) (fileHash : string) (size : Z)
    (counterNumber : string) (dateTaken : time.Time) (indexer : Indexer)
  : option FileHashInfo.t * string :=
  match hashDB dc !! fileHash with
  | Some info => (Some info, "hash"%string)
  | None =>
    if negb (String.eqb counterNumber EmptyString)
       && negb (String.eqb counterNumber "unknown")
    then
      let normalizedCounter := NormalizeCounterNumber counterNumber in
      let photos := GetPhotosByCounter indexer normalizedCounter in
      match findByDate fileHash dateTaken photos with
      | Some info => (Some info, "counter_and_date"%string)
      | None => (None, EmptyString)
      end
    else (None, EmptyString)
  end.

(** [dc.AddHash(fileHash, size, date, path)] *)
Definition AddHash (fileHash : string) (size : Z) (date : time.Time) (path : string)
    (dc : DuplicateCheck) : DuplicateCheck :=
  {| hashDB := <[fileHash := {| FileHashInfo.Hash := fileHash;
                                FileHashInfo.Size := size;
                                FileHashInfo.Date := date;
                                FileHashInfo.Path := path |}]> (hashDB dc) |}.

End Storage.

(** *** The session store *)

Record SessionStore : Type := mkSessionStore {
  sessions : gmap string models.Session
}.

Definition NewSessionStore : SessionStore := {| sessions := ∅ |}.

(** [s.Create(token)] *)
Definition Create (now : time.Time) (token : string) (s : SessionStore)
  : models.Session * SessionStore :=
  let session := models.NewSession now token in
  (session, {| sessions := <[token := session]> (sessions s) |}).

(** [s.Get(token)] *)
Definition Get (token : string) (s : SessionStore) : option models.Session :=
  sessions s !! token.

(** [s.Update(token, updater)] *)
Definition Update (now : time.Time) (token : string)
    (updater : models.Session -> models.Session) (s : SessionStore)
  : bool * SessionStore :=
  match sessions s !! token with
  | None => (false, s)
  | Some session =>
    (true, {| sessions := <[token := models.Update now (updater session)]> (sessions s) |})
  end.

(** [s.Delete(token)] *)
Definition Delete (token : string) (s : SessionStore) : SessionStore :=
  {| sessions := delete token (sessions s) |}.

(** One tick of [s.cleanup()], the clock read being [now]. *)
Definition cleanupTick (now : time.Time) (s : SessionStore) : SessionStore :=
  {| sessions :=
       filter (fun kv => negb (time.Hour <? time.Sub now (models.LastUpdate kv.2)) = true)
              (sessions s) |}.

(** *** The file manager: file names *)

Section FileManager.
Context `{OS : PathOS}.

(** The loop of [splitByUnderscore], [for i := 0; i < len(s); i++], with
    [rest] the bytes [s[i:]] still to read, and what follows it. *)
Fixpoint splitLoop (s rest : list byte) (i start : nat) (parts : list string)
  : list string :=
  match rest with
  | [] =>
    if (start <? length s)%nat then parts ++ [string_of_bytes (drop start s)] else parts
  | c :: rest' =>
    if Ascii.eqb c "_"%char then
      splitLoop s rest' (S i) (S i)
        (if (start <? i)%nat
         then parts ++ [string_of_bytes (take (i - start) (drop start s))]
         else parts)
    else splitLoop s rest' (S i) start parts
  end.

(** [splitByUnderscore(s)] *)
Definition splitByUnderscore (s : string) : list string :=
  splitLoop (bytes_of_string s) (bytes_of_string s) 0 0 [].

(** [extractCounterNumber(filename)].  [None]: the slice expression
    [name[:len(name)-len(ext)]] is out of range. *)
Definition extractCounterNumber (filename : string) : option string :=
  let name := filepath_Base filename in
  let ext := filepath.Ext name in
  if (String.length name <? String.length ext)%nat then None
  else
    let name := String.substring 0 (String.length name - String.length ext) name in
    match splitByUnderscore name with
    | part :: _ => Some part
    | [] => Some "unknown"%string
    end.

(** The name [SaveFile] gives the file it writes, lines 145-153:
    [fmt.Sprintf("%s_%d%s", baseName, timestamp, ext)], [timestamp] being
    the clock in nanoseconds.  [None]: the slice expression
    [filename[:len(filename)-len(ext)]] is out of range. *)
Definition newFilename (filename : string) (timestamp : Z) : option string :=
  let ext := filepath.Ext filename in
  let ext := if String.eqb ext EmptyString then ".jpg"%string else ext in
  if (String.length filename <? String.length ext)%nat then None
  else
    let baseName :=
      String.substring 0 (String.length filename - String.length ext) filename in
    Some (String.append baseName
            (String.append "_"
               (String.append (string_of_bytes (time.appendInt timestamp 0)) ext))).

End FileManager.

End storage.

(** ** Package [utils] *)

Module utils.

Definition exifHeader : list byte :=
  byte_of <$> [0x45; 0x78; 0x69; 0x66; 0x00; 0x00].

(** [extractFromAPP1(data, offset)] *)
Definition extractFromAPP1 (data : list byte) (offset : nat) : string :=
  if (length data <? offset + 6)%nat then EmptyString
  else if negb (String.eqb (string_of_bytes (take 6 (drop offset data)))
                           (string_of_bytes exifHeader))
  then EmptyString
  else EmptyString.

(** The loop of [ExtractCounterNumberFromEXIF], [for offset < len(data)-1],
    with [fuel] iterations at most; [None]: the fuel is used up. *)
Fixpoint walkSegments (fuel : nat) (data : list byte) (offset : nat) : option string :=
  match fuel with
  | O => None
  | S fuel' =>
    if Z.of_nat offset <? Z.of_nat (length data) - 1 then
      match data !! offset, data !! (offset + 1)%nat with
      | Some b0, Some marker =>
        if negb (byte_val b0 =? 0xFF) then Some EmptyString
        else
          let offset := (offset + 2)%nat in
          if byte_val marker =? 0xFF then walkSegments fuel' data offset
          else
            let counterNumber :=
              if byte_val marker =? 0xE1 then extractFromAPP1 data offset
              else EmptyString in
            if (byte_val marker =? 0xE1) && negb (String.eqb counterNumber EmptyString)
            then Some counterNumber
            else
              match data !! offset, data !! (offset + 1)%nat with
              | Some hi, Some lo =>
                let length_ := Z.lor (Z.shiftl (byte_val hi) 8) (byte_val lo) in
                if length_ <? 2 then Some EmptyString
                else walkSegments fuel' data (offset + Z.to_nat length_)%nat
              | _, _ => Some EmptyString
              end
      | _, _ => Some EmptyString
      end
    else Some EmptyString
  end.

(** [ExtractCounterNumberFromEXIF(data)] *)
Definition ExtractCounterNumberFromEXIF (data : list byte) : option string :=
  match data with
  | b0 :: b1 :: _ =>
    if negb (byte_val b0 =? 0xFF) || negb (byte_val b1 =? 0xD8) then Some EmptyString
    else walkSegments (length data) data 2
  | _ => Some EmptyString
  end.

End utils.

(** ** Package [handlers] *)

(** The file manager saves the raw bytes and hashes them with SHA-256; both
    are outside the core.  The hash function and [filepath.Join] are
    parameters, the outcome of [SaveFile] is an input of the handler. *)
Class Platform : Type := {
  CalculateHash : list byte -> string;
  filepath_Join : string -> string -> string
}.

Module handlers.

(** *** The comment scanner *)

Definition isAlphanumeric (b : byte) : bool :=
  let v := byte_val b in
  ((0x61 <=? v) && (v <=? 0x7A)) || ((0x41 <=? v) && (v <=? 0x5A))
  || ((0x30 <=? v) && (v <=? 0x39)).

Definition isCyrillic (b : byte) : bool :=
  let v := byte_val b in
  ((0xD0 <=? v) && (v <=? 0xDF)) || ((0xE0 <=? v) && (v <=? 0xEF)).

(** [containsDigit(s)] and [isOnlyAlphanumeric(s)] range over the runes
    of [s]. *)
Definition containsDigit (s : string) : bool :=
  existsb (fun r => (0x30 <=? r) && (r <=? 0x39)) (utf8.range s).

Definition isOnlyAlphanumeric (s : string) : bool :=
  forallb (fun r => ((0x61 <=? r) && (r <=? 0x7A)) || ((0x41 <=? r) && (r <=? 0x5A))
                    || ((0x30 <=? r) && (r <=? 0x39)))
          (utf8.range s).

(** [for j < len(dataStr) && (isAlphanumeric(dataStr[j]) || isCyrillic(dataStr[j])) { j++ }],
    with [n] iterations at most: the value of [j] after the loop. *)
Fixpoint runEnd (n : nat) (dataStr : list byte) (j : nat) : nat :=
  match n with
  | O => j
  | S n' =>
    match dataStr !! j with
    | Some b => if isAlphanumeric b || isCyrillic b then runEnd n' dataStr (S j) else j
    | None => j
    end
  end.

(** The two [for i := 0; i < len(dataStr)-bound; i++] loops of
    [findUserComment] have the same shape: they differ in [bound] and in the
    test [accept] on the candidate [dataStr[i:j]].  [fuel] bounds the number
    of iterations; [None]: the loop ends without a [return]. *)
Fixpoint scanLoop (bound : Z) (accept : list byte -> bool) (fuel : nat)
    (dataStr : list byte) (i : nat) : option string :=
  match fuel with
  | O => None
  | S fuel' =>
    if Z.of_nat i <? Z.of_nat (length dataStr) - bound then
      match dataStr !! i with
      | Some b =>
        if isAlphanumeric b then
          let j := runEnd (length dataStr) dataStr i in
          let candidate := take (j - i) (drop i dataStr) in
          if accept candidate then Some (string_of_bytes candidate)
          else scanLoop bound accept fuel' dataStr (S j)
        else scanLoop bound accept fuel' dataStr (S i)
      | None => None
      end
    else None
  end.

(** [j-i >= 10] and [containsDigit(candidate)] *)
Definition acceptLong (candidate : list byte) : bool :=
  (10 <=? length candidate)%nat && containsDigit (string_of_bytes candidate).

(** [j-i >= 8 && j-i < 10], [containsDigit(candidate) && isOnlyAlphanumeric(candidate)] *)
Definition acceptShort (candidate : list byte) : bool :=
  (8 <=? length candidate)%nat && (length candidate <? 10)%nat
  && containsDigit (string_of_bytes candidate)
  && isOnlyAlphanumeric (string_of_bytes candidate).

(** [findUserComment(exifData)] *)
Definition findUserComment (exifData : list byte) : string :=
  let dataStr := exifData in
  match scanLoop 10 acceptLong (S (length dataStr)) dataStr 0 with
  | Some candidate => candidate
  | None =>
    match scanLoop 8 acceptShort (S (length dataStr)) dataStr 0 with
    | Some candidate => candidate
    | None => EmptyString
    end
  end.

(** [binary.BigEndian.Uint16(data[offset : offset+2])] *)
Definition uint16At (data : list byte) (offset : nat) : option Z :=
  match data !! offset, data !! (offset + 1)%nat with
  | Some hi, Some lo => Some (Z.lor (Z.shiftl (byte_val hi) 8) (byte_val lo))
  | _, _ => None
  end.

Definition exifHeader : list byte :=
  ["E"; "x"; "i"; "f"; byte_of 0; byte_of 0]%char.

Definition bytes_eqb (a b : list byte) : bool :=
  String.eqb (string_of_bytes a) (string_of_bytes b).

(** The walk over the marker segments, [for offset < len(data)-1], with
    [fuel] iterations at most.  [None] is the run-time panic of the slice
    expression [data[offset+2:offset+8]] when [offset+8] exceeds the
    capacity of [data], which is its length for the buffer the handler
    allocates. *)
Fixpoint walkSegments (fuel : nat) (data : list byte) (offset : nat) : option string :=
  match fuel with
  | O => Some EmptyString
  | S fuel' =>
    if Z.of_nat offset <? Z.of_nat (length data) - 1 then
      match data !! offset, data !! (offset + 1)%nat with
      | Some b0, Some marker =>
        if negb (byte_val b0 =? 0xFF) then Some EmptyString
        else
          let offset := (offset + 2)%nat in
          if byte_val marker =? 0xFF then walkSegments fuel' data offset
          else if byte_val marker =? 0xE1 then
            match uint16At data offset with
            | None => Some EmptyString
            | Some len =>
              let length_ := Z.to_nat len in
              if (len <? 2) || (length data <? offset + length_)%nat then Some EmptyString
              else if (offset + 6 <=? length data)%nat then
                if (length data <? offset + 8)%nat then None
                else if bytes_eqb (take 6 (drop (offset + 2) data)) exifHeader then
                  let comment :=
                    findUserComment (take (length_ - 2) (drop (offset + 2) data)) in
                  if negb (String.eqb comment EmptyString) then Some comment
                  else walkSegments fuel' data (offset + length_)%nat
                else walkSegments fuel' data (offset + length_)%nat
              else walkSegments fuel' data (offset + length_)%nat
            end
          else
            match uint16At data offset with
            | None => Some EmptyString
            | Some len =>
              if len <? 2 then Some EmptyString
              else walkSegments fuel' data (offset + Z.to_nat len)%nat
            end
      | _, _ => Some EmptyString
      end
    else Some EmptyString
  end.

(** [extractUserCommentFromEXIF(data)] *)
Definition extractUserCommentFromEXIF (data : list byte) : option string :=
  match data with
  | b0 :: b1 :: _ =>
    if negb (byte_val b0 =? 0xFF) || negb (byte_val b1 =? 0xD8) then Some EmptyString
    else walkSegments (length data) data 2
  | _ => Some EmptyString
  end.

(** [extractCounterNumberFromEXIF(data)] *)
Definition extractCounterNumberFromEXIF (data : list byte) : option string :=
  extractUserCommentFromEXIF data.

(** *** The request handlers

    The state the handlers share: the three stores and the index file. *)
Record State : Type := mkState {
  sessionStore : storage.SessionStore;
  indexer : storage.Indexer;
  duplicateCheck : storage.DuplicateCheck;
  disk : option storage.IndexFile
}.

(** What a handler answers.  [Panicked]: the handler did not return. *)
Inductive Response : Type :=
  | BadRequest (err : string)
  | NotFound (err : string)
  | InternalServerError (err : string)
  | InitOK (sessionId : string)
  | SyncDuplicate (uploaded total : Z) (filepath reason : string)
  | SyncSaved (uploaded total : Z) (filepath : string)
  | Panicked.

(** The request of [InitHandler]: the [token] parameter of the query (empty
    when absent) and the JSON body ([None] when it does not bind). *)
Record InitRequest : Type := mkInitRequest {
  init_token : string;
  init_body : option (Z * string)
}.

(** The request of [SyncHandler]: the [token] parameter, the form file
    [photo] ([None] when absent) and the form values. *)
Record SyncRequest : Type := mkSyncRequest {
  sync_token : string;
  sync_photo : option (list byte);
  sync_counterNumber : string;
  sync_originalName : string;
  sync_dateTaken : string
}.

(** What the handler finds outside the core while serving one request:
    the clock when the request is read and when the session is updated,
    and the outcomes of the file operations. *)
Record Env : Type := mkEnv {
  now : time.Time;
  updateNow : time.Time;
  open_fails : bool;
  read_fails : bool;
  SaveFile : string + string;
  BaseDir : string;
  write : storage.WriteOutcome
}.

(** The functions the handlers pass to [sessionStore.Update]. *)
Definition initUpdater (total : Z) (now : time.Time) (session : models.Session)
  : models.Session :=
  {| models.Token := models.Token session;
     models.Status := models.StatusReady;
     models.Total := total;
     models.Uploaded := models.Uploaded session;
     models.Skipped := models.Skipped session;
     models.StartTime := now;
     models.LastUpdate := models.LastUpdate session;
     models.CurrentFile := models.CurrentFile session;
     models.Errors := models.Errors session |}.

(** lines 148-152, the photo is a duplicate *)
Definition duplicateUpdater (originalName : string) (session : models.Session)
  : models.Session :=
  {| models.Token := models.Token session;
     models.Status := models.StatusSyncing;
     models.Total := models.Total session;
     models.Uploaded := models.Uploaded session;
     models.Skipped := Go.add64 (models.Skipped session) 1;
     models.StartTime := models.StartTime session;
     models.LastUpdate := models.LastUpdate session;
     models.CurrentFile := originalName;
     models.Errors := models.Errors session |}.

(** lines 199-208, the photo is new *)
Definition uploadUpdater (originalName : string) (session : models.Session)
  : models.Session :=
  let uploaded := Go.add64 (models.Uploaded session) 1 in
  {| models.Token := models.Token session;
     models.Status :=
       if models.Total session <=? Go.add64 uploaded (models.Skipped session)
       then models.StatusCompleted else models.StatusSyncing;
     models.Total := models.Total session;
     models.Uploaded := uploaded;
     models.Skipped := models.Skipped session;
     models.StartTime := models.StartTime session;
     models.LastUpdate := models.LastUpdate session;
     models.CurrentFile := originalName;
     models.Errors := models.Errors session |}.

(** lines 180-182, the file could not be saved *)
Definition errorUpdater (err : string) (session : models.Session) : models.Session :=
  {| models.Token := models.Token session;
     models.Status := models.Status session;
     models.Total := models.Total session;
     models.Uploaded := models.Uploaded session;
     models.Skipped := models.Skipped session;
     models.StartTime := models.StartTime session;
     models.LastUpdate := models.LastUpdate session;
     models.CurrentFile := models.CurrentFile session;
     models.Errors := models.Errors session ++ [err] |}.

(** What [StatusHandler], [IndexHandler] and [DeleteSessionHandler] answer. *)
Inductive StatusResponse : Type :=
  | StatusBadRequest (err : string)
  | StatusNotFound (err : string)
  | StatusOK (status : models.SyncStatus) (total uploaded skipped : Z)
             (progress : Go.float64) (currentFile startTime : string)
             (estimatedTimeRemaining : Z).

Inductive IndexResponse : Type :=
  | IndexAll (result : gmap string (list PhotoInfo.t))
  | IndexOne (counterNumber : string) (photos : list PhotoInfo.t) (total : Z).

Inductive DeleteResponse : Type :=
  | DeleteBadRequest (err : string)
  | DeleteOK.

Section Handlers.
Context `{U : Unicode} `{P : Platform}.

Definition withSessions (st : State) (s : storage.SessionStore) : State :=
  {| sessionStore := s; indexer := indexer st;
     duplicateCheck := duplicateCheck st; disk := disk st |}.

(** [h.StartHandler(c)] with the token [uuid.New()] drew. *)
Definition StartHandler (now : time.Time) (token : string) (st : State) : State :=
  withSessions st (storage.Create now token (sessionStore st)).2.

(** [h.InitHandler(c)] *)
Definition InitHandler (now : time.Time) (req : InitRequest) (st : State)
  : Response * State :=
  let token := init_token req in
  if String.eqb token EmptyString then (BadRequest "token is required", st)
  else
    match init_body req with
    | None => (BadRequest "invalid request body", st)
    | Some (total, _) =>
      let '(success, store) :=
        storage.Update now token (initUpdater total now) (sessionStore st) in
      if negb success then (NotFound "session not found", st)
      else (InitOK token, withSessions st store)
    end.

(** The fields [session.Uploaded] and [session.Total] of the answer are
    read through the pointer [Get] returned, after the update. *)
Definition sessionCounts (token : string) (s : storage.SessionStore) : Z * Z :=
  match storage.Get token s with
  | Some session => (models.Uploaded session, models.Total session)
  | None => (0, 0)
  end.

(** [h.SyncHandler(c)] *)
Definition SyncHandler (env : Env) (req : SyncRequest) (st : State)
  : Response * State :=
  let token := sync_token req in
  if String.eqb token EmptyString then (BadRequest "token is required", st)
  else
    match storage.Get token (sessionStore st) with
    | None => (NotFound "session not found", st)
    | Some _ =>
      match sync_photo req with
      | None => (BadRequest "photo file is required", st)
      | Some data =>
        if open_fails env then (InternalServerError "failed to open file", st)
        else if read_fails env then (InternalServerError "failed to read file", st)
        else
          let counterNumber := sync_counterNumber req in
          let originalName := sync_originalName req in
          let dateTakenStr := sync_dateTaken req in
          let dateTaken :=
            if negb (String.eqb dateTakenStr EmptyString) then
              match time.Parse_RFC3339 dateTakenStr with
              | Some parsed => parsed
              | None => now env
              end
            else now env in
          let fileHash := CalculateHash data in
          let size := Z.of_nat (length data) in
          match storage.CheckDuplicate (duplicateCheck st) fileHash size counterNumber
                                       dateTaken (indexer st) with
          | (Some existingFile, reason) =>
            let store :=
              (storage.Update (updateNow env) token (duplicateUpdater originalName)
                              (sessionStore st)).2 in
            let '(uploaded, total) := sessionCounts token store in
            (SyncDuplicate uploaded total (FileHashInfo.Path existingFile) reason,
             withSessions st store)
          | (None, _) =>
            match (if String.eqb counterNumber EmptyString
                   then extractCounterNumberFromEXIF data
                   else Some counterNumber) with
            | None => (Panicked, st)
            | Some extracted =>
              let counterNumber :=
                if String.eqb extracted EmptyString then "unknown"%string else extracted in
              match extractUserCommentFromEXIF data with
              | None => (Panicked, st)
              | Some userComment =>
                match SaveFile env with
                | inr err =>
                  let store :=
                    (storage.Update (updateNow env) token (errorUpdater err)
                                    (sessionStore st)).2 in
                  (InternalServerError "failed to save file", withSessions st store)
                | inl relPath =>
                  let fullPath := filepath_Join (BaseDir env) relPath in
                  let '(_, idx, dsk) :=
                    storage.AddPhoto (write env) counterNumber relPath fullPath dateTaken
                                     size fileHash userComment (indexer st) (disk st) in
                  let dc := storage.AddHash fileHash size dateTaken relPath
                                            (duplicateCheck st) in
                  let store :=
                    (storage.Update (updateNow env) token (uploadUpdater originalName)
                                    (sessionStore st)).2 in
                  let '(uploaded, total) := sessionCounts token store in
                  (SyncSaved uploaded total relPath,
                   {| sessionStore := store; indexer := idx;
                      duplicateCheck := dc; disk := dsk |})
                end
              end
            end
          end
      end
    end.

(** [h.StatusHandler(c)], the clock read being [now]. *)
Definition StatusHandler (now : time.Time) (token : string) (st : State) : StatusResponse :=
  if String.eqb token EmptyString then StatusBadRequest "token is required"
  else
    match storage.Get token (sessionStore st) with
    | None => StatusNotFound "session not found"
    | Some session =>
      StatusOK (models.Status session) (models.Total session) (models.Uploaded session)
               (models.Skipped session) (models.GetProgress session)
               (models.CurrentFile session)
               (time.Format_RFC3339 (models.StartTime session))
               (models.GetEstimatedTimeRemaining now session)
    end.

(** [h.IndexHandler(c)]: the value handed to [c.JSON]. *)
Definition IndexHandler (counterNumber : string) (st : State) : IndexResponse :=
  if String.eqb counterNumber EmptyString then
    let counters := storage.GetAllCounters (indexer st) in
    IndexAll
      (foldl (fun result counter =>
                <[counter := storage.GetPhotosByCounter (indexer st) counter]> result)
             ∅ counters)
  else
    let photos := storage.GetPhotosByCounter (indexer st) counterNumber in
    IndexOne counterNumber photos (Z.of_nat (length photos)).

(** [h.DeleteSessionHandler(c)] *)
Definition DeleteSessionHandler (token : string) (st : State) : DeleteResponse * State :=
  if String.eqb token EmptyString then (DeleteBadRequest "token is required", st)
  else (DeleteOK, withSessions st (storage.Delete token (sessionStore st))).

End Handlers.

End handlers.

(** ** Notions the properties are stated with *)

Module Spec.

(** The instant of a record's capture date, in nanoseconds. *)
Definition dateKey (p : PhotoInfo.t) : Z := time.unixNano (PhotoInfo.Date p).

(** [a] may stand before [b] in a bucket: [a] is not older than [b]. *)
Definition notOlder (a b : PhotoInfo.t) : Prop := dateKey b <= dateKey a.

(** A bucket is ordered by capture date, newest first, and no two of its
    records have the same relative path. *)
Definition bucketInvariant (l : list PhotoInfo.t) : Prop :=
  StronglySorted notOlder l /\ NoDup (PhotoInfo.Path <$> l).

Definition indexInvariant (idx : storage.Indexer) : Prop :=
  forall k l, storage.index idx !! k = Some l -> bucketInvariant l.

(** One pass of the inner loop of the sort, on the bucket from position [i]
    on: the newest record of [x :: ys], and the records left behind. *)
Fixpoint selectNewest (x : PhotoInfo.t) (ys : list PhotoInfo.t)
  : PhotoInfo.t * list PhotoInfo.t :=
  match ys with
  | [] => (x, [])
  | y :: t =>
    if time.Before (PhotoInfo.Date x) (PhotoInfo.Date y)
    then let '(m, t') := selectNewest y t in (m, x :: t')
    else let '(m, t') := selectNewest x t in (m, y :: t')
  end.

(** The arguments of one call of [AddPhoto], with the outcome of its write. *)
Record AddPhotoCall : Type := mkAddPhotoCall {
  call_write : storage.WriteOutcome;
  call_counterNumber : string;
  call_relPath : string;
  call_fullPath : string;
  call_date : time.Time;
  call_size : Z;
  call_hash : string;
  call_userComment : string
}.

Definition photoOfCall (c : AddPhotoCall) : PhotoInfo.t :=
  {| PhotoInfo.Path := call_relPath c; PhotoInfo.FullPath := call_fullPath c;
     PhotoInfo.Date := call_date c; PhotoInfo.Size := call_size c;
     PhotoInfo.Hash := call_hash c; PhotoInfo.UserComment := call_userComment c |}.

Definition applyAddPhoto `{U : Unicode} (st : storage.Indexer * option storage.IndexFile)
    (c : AddPhotoCall) : storage.Indexer * option storage.IndexFile :=
  let '(_, idx, disk) :=
    storage.AddPhoto (call_write c) (call_counterNumber c) (call_relPath c)
      (call_fullPath c) (call_date c) (call_size c) (call_hash c)
      (call_userComment c) st.1 st.2 in
  (idx, disk).

(** The index after a sequence of calls of [AddPhoto] on an empty index. *)
Definition afterAdds `{U : Unicode} (dir : string) (disk : option storage.IndexFile)
    (calls : list AddPhotoCall) : storage.Indexer :=
  (foldl applyAddPhoto ({| storage.indexDir := dir; storage.index := ∅ |}, disk) calls).1.

(** The arguments of one call of [AddHash]. *)
Record AddHashCall : Type := mkAddHashCall {
  hash_fileHash : string;
  hash_size : Z;
  hash_date : time.Time;
  hash_path : string
}.

Definition applyAddHash (dc : storage.DuplicateCheck) (c : AddHashCall)
  : storage.DuplicateCheck :=
  storage.AddHash (hash_fileHash c) (hash_size c) (hash_date c) (hash_path c) dc.

(** The answers of a handler to a request it refuses. *)
Definition isClientError (r : handlers.Response) : Prop :=
  match r with
  | handlers.BadRequest _ | handlers.NotFound _ => True
  | _ => False
  end.

(** *** Runes and normal forms *)

(** A Unicode scalar value: a code point that is not a surrogate half. *)
Definition scalarValue (r : Z) : bool :=
  (0 <=? r) && (r <=? utf8.MaxRune)
  && negb ((utf8.surrogateMin <=? r) && (r <=? utf8.surrogateMax)).

(** The rune read back after [r] was written: [r] itself when it is a
    scalar value, [RuneError] otherwise. *)
Definition canonRune (r : Z) : Z := if scalarValue r then r else utf8.RuneError.

(** The string that holds the runes of a list, each in its encoding. *)
Definition encodeAll (runes : list Z) : string :=
  foldr (fun r acc => String.append (utf8.EncodeRune r) acc) EmptyString runes.

(** Valid UTF-8: the encoding of a sequence of scalar values. *)
Definition validUTF8 (s : string) : Prop :=
  exists runes, Forall (fun r => scalarValue r = true) runes /\ s = encodeAll runes.

(** Writing [r] and reading it back gives [canonRune r] and consumes what
    was written: the check run over a block of runes. *)
Definition roundTrips (r : Z) : bool :=
  let s := utf8.EncodeRune r in
  let '(r', n) := utf8.DecodeRuneInString s in
  (r' =? canonRune r) && (n =? String.length s)%nat && (1 <=? n)%nat
  && negb ((r' =? utf8.RuneError) && (n =? 1)%nat).

(** [P] on every number of the block of [2 ^ d] numbers from [lo] on. *)
Fixpoint checkBlock (P : Z -> bool) (d : nat) (lo : Z) : bool :=
  match d with
  | O => P lo
  | S d' => checkBlock P d' lo && checkBlock P d' (lo + 2 ^ Z.of_nat d')
  end.

(** A rune that [NormalizeCounterNumber] keeps. *)
Definition keptRune (r : Z) : Prop := 0 <= storage.keepRune r.

#[global] Instance keptRune_dec r : Decision (keptRune r).
Proof. unfold keptRune. apply _. Defined.

(** The runes of [s], lowered, that are kept: the runes of its normal form. *)
Definition keptRunes `{U : Unicode} (s : string) : list Z :=
  filter keptRune (unicode.ToLower <$> utf8.range s).

(** What the development assumes of the case tables: the small Cyrillic
    letters а-я and ё are their own lower case, the capitals А-Я and Ё are
    lowered to them, and the punctuation of Latin-1 (U+00A0-U+00BF) and
    the General Punctuation block (U+2000-U+206F) have no other case. *)
Class UnicodeLaws `{U : Unicode} : Prop := {
  lower_fixes_cyrillic :
    forall r, 0x430 <= r <= 0x44F \/ r = 0x451 -> To_LowerCase r = r;
  lower_cyrillic_capital :
    forall r, 0x410 <= r <= 0x42F -> To_LowerCase r = r + 32;
  lower_cyrillic_io : To_LowerCase 0x401 = 0x451;
  lower_fixes_punctuation :
    forall r, 0xA0 <= r <= 0xBF \/ 0x2000 <= r <= 0x206F -> To_LowerCase r = r
}.

(** [upper] is the capital of the small letter [lower], Latin or Cyrillic. *)
Definition capitalOf (upper lower : Z) : Prop :=
  (0x61 <= lower <= 0x7A /\ upper = lower - 32)
  \/ (0x430 <= lower <= 0x44F /\ upper = lower - 32)
  \/ (lower = 0x451 /\ upper = 0x401).

(** A punctuation or separator character: an ASCII character that is no
    letter and no digit, or one of the two blocks of punctuation above. *)
Definition punctuation (p : Z) : Prop :=
  (0 <= p <= 0x7F
   /\ ~ (0x30 <= p <= 0x39 \/ 0x41 <= p <= 0x5A \/ 0x61 <= p <= 0x7A))
  \/ 0xA0 <= p <= 0xBF
  \/ 0x2000 <= p <= 0x206F.

(** Two sequences of runes differ only by the case of letters and by
    punctuation or separator characters. *)
Inductive sameButCaseAndPunctuation : list Z -> list Z -> Prop :=
  | same_nil : sameButCaseAndPunctuation [] []
  | same_rune r l1 l2 :
      sameButCaseAndPunctuation l1 l2 ->
      sameButCaseAndPunctuation (r :: l1) (r :: l2)
  | same_upper_lower up lo l1 l2 :
      capitalOf up lo ->
      sameButCaseAndPunctuation l1 l2 ->
      sameButCaseAndPunctuation (up :: l1) (lo :: l2)
  | same_lower_upper up lo l1 l2 :
      capitalOf up lo ->
      sameButCaseAndPunctuation l1 l2 ->
      sameButCaseAndPunctuation (lo :: l1) (up :: l2)
  | same_punctuation_left p l1 l2 :
      punctuation p ->
      sameButCaseAndPunctuation l1 l2 ->
      sameButCaseAndPunctuation (p :: l1) l2
  | same_punctuation_right p l1 l2 :
      punctuation p ->
      sameButCaseAndPunctuation l1 l2 ->
      sameButCaseAndPunctuation l1 (p :: l2).

(** *** The comment scanner *)

(** A byte that continues a run: an ASCII letter or digit, or a byte of the
    range 0xD0-0xEF that the scanner takes for Cyrillic. *)
Definition runByte (b : byte) : bool := handlers.isAlphanumeric b || handlers.isCyrillic b.

Definition isDigit (b : byte) : bool := (0x30 <=? byte_val b) && (byte_val b <=? 0x39).

(** A run of length 10 or more with a digit; a run of length 8 or 9 of
    ASCII letters and digits only, with a digit. *)
Definition qualifiesLong (run : list byte) : bool :=
  (10 <=? length run)%nat && existsb isDigit run.

Definition qualifiesShort (run : list byte) : bool :=
  (8 <=? length run)%nat && (length run <? 10)%nat
  && existsb isDigit run && forallb handlers.isAlphanumeric run.

(** The candidates of the scanner in [s], whose first byte is at position
    [pos], each with the position of its first byte: a candidate begins at
    an ASCII letter or digit that continues no candidate and extends as far
    as the bytes are run bytes.  [cur] is the candidate being read. *)
Fixpoint candidatesFrom (cur : option (nat * list byte)) (pos : nat) (s : list byte)
  : list (nat * list byte) :=
  match s with
  | [] => match cur with Some c => [c] | None => [] end
  | b :: t =>
    match cur with
    | Some (start, run) =>
      if runByte b then candidatesFrom (Some (start, run ++ [b])) (S pos) t
      else (start, run) :: candidatesFrom None (S pos) t
    | None =>
      if handlers.isAlphanumeric b then candidatesFrom (Some (pos, [b])) (S pos) t
      else candidatesFrom None (S pos) t
    end
  end.

Definition candidates (s : list byte) : list (nat * list byte) := candidatesFrom None 0 s.

(** The first candidate of [data] that passes the test [q]. *)
Definition firstCandidate (q : list byte -> bool) (data : list byte)
  : option (nat * list byte) :=
  List.find (fun c => q c.2) (candidates data).

(** The first candidate that starts more than [bound] bytes before the end
    of the data, of length [len], and passes [accept]: what one loop of
    [findUserComment] returns. *)
Definition firstAccepted (bound : Z) (accept : list byte -> bool) (len : nat)
    (cands : list (nat * list byte)) : option (nat * list byte) :=
  List.find (fun c => (Z.of_nat c.1 <? Z.of_nat len - bound) && accept c.2) cands.

(** The rune a range loop reads for a byte of a candidate. *)
Definition runeOfRunByte (b : byte) : Z :=
  if byte_val b <? 0x80 then byte_val b else utf8.RuneError.

(** Following the words of the specification: the maximal runs of ASCII
    alphanumerics or Cyrillic letters of [s], in order, and the comment the
    specification says the scanner returns. *)
Fixpoint maximalRunsFrom (cur : list byte) (s : list byte) : list (list byte) :=
  match s with
  | [] => match cur with [] => [] | _ => [cur] end
  | b :: t =>
    if runByte b then maximalRunsFrom (cur ++ [b]) t
    else match cur with [] => maximalRunsFrom [] t | _ => cur :: maximalRunsFrom [] t end
  end.

Definition maximalRuns (s : list byte) : list (list byte) := maximalRunsFrom [] s.

Definition claimedComment (s : list byte) : string :=
  match List.find qualifiesLong (maximalRuns s) with
  | Some run => string_of_bytes run
  | None =>
    match List.find qualifiesShort (maximalRuns s) with
    | Some run => string_of_bytes run
    | None => EmptyString
    end
  end.

(** The same with a Cyrillic letter read as a character: the maximal runs
    of the characters of [s] that are ASCII letters or digits or letters of
    the Cyrillic block U+0400-U+04FF, lengths counted in characters. *)
Definition alnumRune (r : Z) : bool :=
  ((0x61 <=? r) && (r <=? 0x7A)) || ((0x41 <=? r) && (r <=? 0x5A))
  || ((0x30 <=? r) && (r <=? 0x39)).

Definition cyrillicRune (r : Z) : bool := (0x400 <=? r) && (r <=? 0x4FF).

Definition digitRune (r : Z) : bool := (0x30 <=? r) && (r <=? 0x39).

Fixpoint runeRunsFrom (cur : list Z) (rs : list Z) : list (list Z) :=
  match rs with
  | [] => match cur with [] => [] | _ => [cur] end
  | r :: t =>
    if alnumRune r || cyrillicRune r then runeRunsFrom (cur ++ [r]) t
    else match cur with [] => runeRunsFrom [] t | _ => cur :: runeRunsFrom [] t end
  end.

Definition runeRuns (s : list byte) : list (list Z) :=
  runeRunsFrom [] (utf8.range (string_of_bytes s)).

Definition claimedCommentOfCharacters (s : list byte) : string :=
  match List.find (fun run => (10 <=? length run)%nat && existsb digitRune run)
                  (runeRuns s) with
  | Some run => encodeAll run
  | None =>
    match List.find (fun run => (8 <=? length run)%nat && (length run <? 10)%nat
                                && existsb digitRune run && forallb alnumRune run)
                    (runeRuns s) with
    | Some run => encodeAll run
    | None => EmptyString
    end
  end.

(** A marker segment: [0xFF], the marker, the length of the body plus two
    on two bytes, the body. *)
Definition be16 (n : Z) : list byte := [byte_of (n / 256); byte_of n].

Definition segment (marker : Z) (body : list byte) : list byte :=
  [byte_of 0xFF; byte_of marker] ++ be16 (2 + Z.of_nat (length body)) ++ body.

(** A segment the walk passes over: a marker other than [0xFF] and APP1. *)
Definition skippable (seg : Z * list byte) : Prop :=
  0 <= seg.1 <= 0xFF /\ seg.1 <> 0xFF /\ seg.1 <> 0xE1
  /\ 2 + Z.of_nat (length seg.2) <= 0xFFFF.

(** A buffer that begins with the JPEG marker and holds, after the
    segments [skipped], an APP1 segment with the data [exifData]. *)
Definition jpegWithExif (skipped : list (Z * list byte)) (exifData rest : list byte)
  : list byte :=
  [byte_of 0xFF; byte_of 0xD8]
  ++ concat ((fun seg => segment seg.1 seg.2) <$> skipped)
  ++ segment 0xE1 exifData ++ rest.

(** *** Persistence *)

(** A byte of ASCII. *)
Definition plain (c : byte) : Prop := (byte_val c <? utf8.RuneSelf) = true.

(** A date that the layout RFC3339 represents: whole seconds, a zone
    offset of whole minutes and less than a day, a civil year from 0000 to
    9999 in its zone. *)
Definition representable (t : time.Time) : Prop :=
  time.nsec t = 0
  /\ time.zoneOffset t mod 60 = 0
  /\ -86400 < time.zoneOffset t < 86400
  /\ -62167219200 <= time.unixSec t + time.zoneOffset t < 253402300800.

(** A record that the index file holds as it is: strings of valid UTF-8, a
    size that a [float64] holds exactly, a representable date. *)
Definition photoPersistable (p : PhotoInfo.t) : Prop :=
  validUTF8 (PhotoInfo.Path p) /\ validUTF8 (PhotoInfo.FullPath p)
  /\ validUTF8 (PhotoInfo.Hash p) /\ validUTF8 (PhotoInfo.UserComment p)
  /\ - 2 ^ 53 <= PhotoInfo.Size p <= 2 ^ 53
  /\ representable (PhotoInfo.Date p).

Definition indexPersistable (idx : storage.Indexer) : Prop :=
  forall k bucket,
    storage.index idx !! k = Some bucket ->
    validUTF8 k /\ Forall photoPersistable bucket.

(** What the claim of the specification asks of an index: dates that are
    well formed and representable. *)
Definition datesRepresentable (idx : storage.Indexer) : Prop :=
  forall k bucket,
    storage.index idx !! k = Some bucket ->
    Forall (fun p => representable (PhotoInfo.Date p)) bucket.

(** *** Notions of the further properties *)

(** A byte that is a small Latin letter or a digit. *)
Definition keyByte (c : byte) : bool :=
  ((0x61 <=? byte_val c) && (byte_val c <=? 0x7A))
  || ((0x30 <=? byte_val c) && (byte_val c <=? 0x39)).

(** A run that begins with an ASCII letter or digit. *)
Definition startsAlphanumeric (run : list byte) : Prop :=
  match run with
  | b :: _ => handlers.isAlphanumeric b = true
  | [] => False
  end.

Definition isUnderscore (c : byte) : bool := Ascii.eqb c "_"%char.

(** The fields of [s] between underscores, the empty ones left out; [cur]
    is the field being read. *)
Fixpoint fieldsFrom (cur s : list byte) : list (list byte) :=
  match s with
  | [] => match cur with [] => [] | _ => [cur] end
  | c :: t =>
    if isUnderscore c
    then match cur with [] => fieldsFrom [] t | _ => cur :: fieldsFrom [] t end
    else fieldsFrom (cur ++ [c]) t
  end.

(** The date [SyncHandler] takes for a photo: the form value [dateTaken]
    when it parses, the clock otherwise. *)
Definition dateTakenOf (env : handlers.Env) (req : handlers.SyncRequest) : time.Time :=
  if negb (String.eqb (handlers.sync_dateTaken req) EmptyString) then
    match time.Parse_RFC3339 (handlers.sync_dateTaken req) with
    | Some parsed => parsed
    | None => handlers.now env
    end
  else handlers.now env.

(** The identifier [SyncHandler] files a photo under: the form value
    [counterNumber], else the comment the scanner found, else [unknown]. *)
Definition counterOf (req : handlers.SyncRequest) (comment : string) : string :=
  if String.eqb (handlers.sync_counterNumber req) EmptyString
  then (if String.eqb comment EmptyString then "unknown"%string else comment)
  else handlers.sync_counterNumber req.

(** A request of one of the routes that change the state, with what its
    handler finds outside the core, and a tick of the cleanup. *)
Inductive Request : Type :=
  | GetStart (now : time.Time) (token : string)
  | PostInit (now : time.Time) (req : handlers.InitRequest)
  | PostSync (env : handlers.Env) (req : handlers.SyncRequest)
  | DeleteSession (token : string)
  | CleanupTick (now : time.Time).

Definition serve `{U : Unicode} `{P : Platform} (st : handlers.State) (r : Request)
  : handlers.State :=
  match r with
  | GetStart now token => handlers.StartHandler now token st
  | PostInit now req => (handlers.InitHandler now req st).2
  | PostSync env req => (handlers.SyncHandler env req st).2
  | DeleteSession token => (handlers.DeleteSessionHandler token st).2
  | CleanupTick now =>
    handlers.withSessions st (storage.cleanupTick now (handlers.sessionStore st))
  end.

(** The surroundings [env] with another outcome of the index write. *)
Definition withWrite (env : handlers.Env) (w : storage.WriteOutcome) : handlers.Env :=
  {| handlers.now := handlers.now env; handlers.updateNow := handlers.updateNow env;
     handlers.open_fails := handlers.open_fails env;
     handlers.read_fails := handlers.read_fails env;
     handlers.SaveFile := handlers.SaveFile env; handlers.BaseDir := handlers.BaseDir env;
     handlers.write := w |}.

End Spec.

(** ** Concrete data for the examples

    A case table that lowers the Cyrillic capitals and fixes every other
    rune beyond ASCII, a stand-in for the hash, and small sessions and
    stores. *)

Module Fixtures.

Definition cyrillicLower : Unicode :=
  {| To_LowerCase := fun r =>
       if (0x410 <=? r) && (r <=? 0x42F) then r + 32
       else if (0x400 <=? r) && (r <=? 0x40F) then r + 80
       else r |}.

Definition plainPlatform : Platform :=
  {| CalculateHash := fun data => string_of_bytes data;
     filepath_Join := fun dir rel => String.append dir (String.append "/" rel) |}.

Definition t0 : time.Time := time.mkTime 1704067200 0 0.
Definition t1 : time.Time := time.mkTime 1704067260 0 0.

(** A session initialised with [total = 1]. *)
Definition readyOne : models.Session :=
  handlers.initUpdater 1 t0 (models.NewSession t0 "t1").

(** A session of five photos of which three arrived, all duplicates. *)
Definition allDuplicates : models.Session :=
  foldl (fun acc name => handlers.duplicateUpdater name acc)
        (handlers.initUpdater 5 t0 (models.NewSession t0 "t1"))
        ["a.jpg"; "b.jpg"; "c.jpg"]%string.

Definition photoBytes : list byte := bytes_of_string "raw-bytes-of-p1".

Definition knownPhoto : FileHashInfo.t :=
  {| FileHashInfo.Hash := "raw-bytes-of-p1"; FileHashInfo.Size := 15;
     FileHashInfo.Date := t0; FileHashInfo.Path := "p1_1.jpg" |}.

(** One ready session [t1] expecting one photo, whose content is already
    in the hash table. *)
Definition stateOneKnown : handlers.State :=
  {| handlers.sessionStore := {| storage.sessions := {[ "t1"%string := readyOne ]} |};
     handlers.indexer := {| storage.indexDir := ".index"; storage.index := ∅ |};
     handlers.duplicateCheck :=
       {| storage.hashDB := {[ "raw-bytes-of-p1"%string := knownPhoto ]} |};
     handlers.disk := None |}.

Definition calmEnv : handlers.Env :=
  {| handlers.now := t1; handlers.updateNow := t1;
     handlers.open_fails := false; handlers.read_fails := false;
     handlers.SaveFile := inl "p1_2.jpg"%string; handlers.BaseDir := "meter";
     handlers.write := storage.WriteOk |}.

Definition resendPhoto : handlers.SyncRequest :=
  {| handlers.sync_token := "t1"; handlers.sync_photo := Some photoBytes;
     handlers.sync_counterNumber := ""; handlers.sync_originalName := "p1.jpg";
     handlers.sync_dateTaken := "" |}.

(** Three calls of [AddPhoto], two of them for one meter under two
    spellings of its number; the write of the second fails. *)
Definition threeAdds : list Spec.AddPhotoCall :=
  [ Spec.mkAddPhotoCall storage.WriteOk "SN-12345/АБ" "a_1.jpg" "meter/a_1.jpg"
      t0 100 "h1" "";
    Spec.mkAddPhotoCall (storage.WriteFails None) "sn12345аб" "b_2.jpg" "meter/b_2.jpg"
      t1 200 "h2" "SN12345AB77";
    Spec.mkAddPhotoCall storage.WriteOk "unknown" "c_3.jpg" "meter/c_3.jpg"
      t0 300 "h3" "" ]%string.

(** The bucket of the persistence scenario. *)
Definition scenarioPhoto : PhotoInfo.t :=
  {| PhotoInfo.Path := "p1.jpg"; PhotoInfo.FullPath := "meter/p1.jpg";
     PhotoInfo.Date := t0; PhotoInfo.Size := 100; PhotoInfo.Hash := "h1";
     PhotoInfo.UserComment := "" |}.

Definition scenarioIndex : storage.Indexer :=
  {| storage.indexDir := ".index";
     storage.index := {[ "abc123"%string := [scenarioPhoto] ]} |}.

(** The same index, the path of the photo holding a byte that is not UTF-8. *)
Definition strayByteIndex : storage.Indexer :=
  {| storage.indexDir := ".index";
     storage.index :=
       {[ "abc123"%string :=
            [ {| PhotoInfo.Path := String (byte_of 0xFF) "p1.jpg";
                 PhotoInfo.FullPath := "meter/p1.jpg";
                 PhotoInfo.Date := t0; PhotoInfo.Size := 100;
                 PhotoInfo.Hash := "h1"; PhotoInfo.UserComment := "" |} ] ]} |}.

(** The same index, the size one beyond what a [float64] counts exactly. *)
Definition hugeSizeIndex : storage.Indexer :=
  {| storage.indexDir := ".index";
     storage.index :=
       {[ "abc123"%string :=
            [ {| PhotoInfo.Path := "p1.jpg"; PhotoInfo.FullPath := "meter/p1.jpg";
                 PhotoInfo.Date := t0; PhotoInfo.Size := 2 ^ 53 + 1;
                 PhotoInfo.Hash := "h1"; PhotoInfo.UserComment := "" |} ] ]} |}.

(** A JFIF segment, then an Exif segment whose data embed the run of the
    scenario. *)
Definition jfifSegment : Z * list byte :=
  (0xE0, bytes_of_string "JFIF" ++ [byte_of 0; byte_of 1; byte_of 1; byte_of 0]).

Definition commentPayload : list byte := bytes_of_string "  ABC1234567  ".

Definition jfifThenExif : list byte :=
  Spec.jpegWithExif [jfifSegment] (handlers.exifHeader ++ commentPayload) [].

(** Exif data that hold the ten characters [АБВ1234567]: three Cyrillic
    letters, two bytes each, and seven digits. *)
Definition cyrillicRunData : list byte :=
  handlers.exifHeader
  ++ (byte_of <$> [0xD0; 0x90; 0xD0; 0x91; 0xD0; 0x92])
  ++ bytes_of_string "1234567  ".

Definition cyrillicRunBuffer : list byte := Spec.jpegWithExif [] cyrillicRunData [].

(** Exif data that end with the run of the scenario. *)
Definition runAtEndData : list byte := handlers.exifHeader ++ bytes_of_string "ABC1234567".

Definition runAtEndBuffer : list byte := Spec.jpegWithExif [] runAtEndData [].

(** The photo of [resendPhoto] under a token that no session has. *)
Definition strangerPhoto : handlers.SyncRequest :=
  {| handlers.sync_token := "t2"; handlers.sync_photo := Some photoBytes;
     handlers.sync_counterNumber := ""; handlers.sync_originalName := "p1.jpg";
     handlers.sync_dateTaken := "" |}.

(** Exif data with the ten characters [АБВ1234567] (three Cyrillic
    letters, two bytes each, and seven digits), a blank, and the run
    [ABC1234567] behind a byte [0xD0]. *)
Definition cyrillicData : list byte :=
  handlers.exifHeader
  ++ (byte_of <$> [0xD0; 0x90; 0xD0; 0x91; 0xD0; 0x92]) ++ bytes_of_string "1234567 "
  ++ [byte_of 0xD0] ++ bytes_of_string "ABC1234567 ".

Definition cyrillicBuffer : list byte := Spec.jpegWithExif [] cyrillicData [].

(** Paths as on Unix: the slash separates, and [filepath.Base] strips the
    trailing slashes and returns what follows the last slash left, [.] for
    the empty path and a slash for a path of slashes only. *)
Definition isSlash (c : byte) : bool := Ascii.eqb c "/"%char.

Fixpoint dropSlashes (l : list byte) : list byte :=
  match l with
  | c :: t => if isSlash c then dropSlashes t else l
  | [] => []
  end.

Fixpoint lastElement (l acc : list byte) : list byte :=
  match l with
  | c :: t => if isSlash c then acc else lastElement t (c :: acc)
  | [] => acc
  end.

Definition unixBase (path : string) : string :=
  match bytes_of_string path with
  | [] => "."%string
  | l =>
    match lastElement (dropSlashes (rev l)) [] with
    | [] => "/"%string
    | name => string_of_bytes name
    end
  end.

Definition unixPaths : PathOS :=
  {| IsPathSeparator := isSlash; filepath_Base := unixBase |}.

(** A photo the hash table does not know, sent under the token [t1]. *)
Definition freshPhoto : handlers.SyncRequest :=
  {| handlers.sync_token := "t1";
     handlers.sync_photo := Some (bytes_of_string "raw-bytes-of-p2");
     handlers.sync_counterNumber := "SN-12345"; handlers.sync_originalName := "p2.jpg";
     handlers.sync_dateTaken := "" |}.

(** The surroundings of [calmEnv] with a disk that is full. *)
Definition fullDiskEnv : handlers.Env :=
  {| handlers.now := t1; handlers.updateNow := t1;
     handlers.open_fails := false; handlers.read_fails := false;
     handlers.SaveFile := inr "failed to write file"%string; handlers.BaseDir := "meter";
     handlers.write := storage.WriteOk |}.


End Fixtures.

(** * Properties *)

(** Case analysis on every comparison of integers in the goal. *)
Ltac split_on cmp spec :=
  match goal with |- context [cmp ?x ?y] => destruct (spec x y) end.

Ltac split_comparisons :=
  repeat first [ split_on Z.leb Z.leb_spec
               | split_on Z.ltb Z.ltb_spec
               | split_on Z.eqb Z.eqb_spec ];
  cbn [andb orb negb].

(** ** Runes: writing and reading back *)

Section RuneProperties.

Lemma checkBlock_sound P d : forall lo i,
  Spec.checkBlock P d lo = true -> lo <= i < lo + 2 ^ Z.of_nat d -> P i = true.
Proof.
  induction d as [|d IH]; intros lo i Hc Hi.
  - simpl in *. replace i with lo by lia. done.
  - simpl in Hc. apply andb_true_iff in Hc as [H1 H2].
    rewrite Nat2Z.inj_succ, Z.pow_succ_r in Hi by lia.
    destruct (Z.lt_ge_cases i (lo + 2 ^ Z.of_nat d)).
    + apply (IH lo); [done|lia].
    + apply (IH (lo + 2 ^ Z.of_nat d)); [done|lia].
Qed.


Lemma byte_val_of (z : Z) : 0 <= z < 256 -> byte_val (byte_of z) = z.
Proof.
  intros Hz. unfold byte_val, byte_of.
  rewrite Z.mod_small by lia.
  rewrite N_ascii_embedding by lia. lia.
Qed.

Lemma lor_add (hi lo k : Z) :
  0 <= k -> 0 <= lo < 2 ^ k -> hi mod 2 ^ k = 0 -> Z.lor hi lo = hi + lo.
Proof.
  intros Hk Hlo Hhi.
  pose proof (Z.add_lor_land hi lo) as Hadd.
  assert (Z.land hi lo = 0) as Hland; [|lia].
  rewrite <- (Z.mod_small lo (2 ^ k)) by lia.
  rewrite <- (Z.land_ones lo k) by lia.
  rewrite (Z.land_comm lo), Z.land_assoc, (Z.land_ones hi k) by lia.
  rewrite Hhi. apply Z.land_0_l.
Qed.

Lemma land_low (x k : Z) : 0 <= k -> Z.land x (2 ^ k - 1) = x mod 2 ^ k.
Proof.
  intros Hk. replace (2 ^ k - 1) with (Z.ones k) by (rewrite Z.ones_equiv; lia).
  by apply Z.land_ones.
Qed.

Lemma roundTrips_four r : 0x10000 <= r <= 0x10FFFF -> Spec.roundTrips r = true.
Proof.
  intros Hr. unfold Spec.roundTrips, utf8.EncodeRune, Spec.canonRune, Spec.scalarValue.
  unfold utf8.MaxRune, utf8.surrogateMin, utf8.surrogateMax.
  destruct (Z.leb_spec 0 r); [|lia].
  destruct (Z.leb_spec r 127); [lia|].
  destruct (Z.leb_spec r 2047); [lia|].
  destruct (Z.ltb_spec r 0); [lia|].
  destruct (Z.ltb_spec 1114111 r); [lia|].
  destruct (Z.leb_spec r 1114111); [|lia].
  destruct (Z.leb_spec 55296 r); [|lia].
  destruct (Z.leb_spec r 57343); [lia|].
  destruct (Z.leb_spec r 65535); [lia|].
  cbn [andb orb negb].
  set (a := r / 2 ^ 18). set (b := (r / 2 ^ 12) mod 2 ^ 6).
  set (c := (r / 2 ^ 6) mod 2 ^ 6). set (d := r mod 2 ^ 6).
  assert (0 <= a <= 4 /\ 0 <= b < 64 /\ 0 <= c < 64 /\ 0 <= d < 64
          /\ r = a * 262144 + b * 4096 + c * 64 + d
          /\ (a = 0 -> 16 <= b) /\ (a = 4 -> b < 16)) as (Ha & Hb & Hc & Hd & Hsum & Hlo & Hhi).
  { subst a b c d. change (2 ^ 18) with 262144. change (2 ^ 12) with 4096.
    change (2 ^ 6) with 64. repeat split; Z.div_mod_to_equations; lia. }
  rewrite !Z.shiftr_div_pow2 by lia.
  change 63 with (2 ^ 6 - 1). rewrite !land_low by lia.
  fold a b c d.
  rewrite (lor_add 240 a 4), (lor_add 128 b 6), (lor_add 128 c 6), (lor_add 128 d 6)
    by (try reflexivity; lia).
  unfold utf8.DecodeRuneInString.
  rewrite !byte_val_of by lia.
  unfold utf8.RuneSelf.
  destruct (Z.ltb_spec (240 + a) 128); [lia|].
  assert (utf8.first (240 + a)
          = Some (4%nat, if a =? 0 then 0x90 else 0x80, if a =? 4 then 0x8F else 0xBF)) as ->.
  { unfold utf8.first.
    assert (a = 0 \/ a = 1 \/ a = 2 \/ a = 3 \/ a = 4) as [->|[->|[->|[->| ->]]]] by lia;
      reflexivity. }
  assert (((128 + b <? (if a =? 0 then 144 else 128))
           || ((if a =? 4 then 143 else 191) <? 128 + b)) = false) as ->.
  { apply orb_false_iff. split; apply Z.ltb_ge.
    - destruct (Z.eqb_spec a 0); [specialize (Hlo e)|]; lia.
    - destruct (Z.eqb_spec a 4); [specialize (Hhi e)|]; lia. }
  cbn [Nat.leb].
  unfold utf8.is_cont.
  assert (forall x, 0 <= x < 64 -> negb ((128 <=? 128 + x) && (128 + x <=? 191)) = false) as Hcont.
  { intros x Hx. destruct (Z.leb_spec 128 (128 + x)); [|lia].
    destruct (Z.leb_spec (128 + x) 191); [done|lia]. }
  rewrite !Hcont by lia.
  change 7 with (2 ^ 3 - 1). change 63 with (2 ^ 6 - 1). rewrite !land_low by lia.
  rewrite !Z.shiftl_mul_pow2 by lia.
  assert ((240 + a) mod 2 ^ 3 = a) as -> by (change (2^3) with 8; Z.div_mod_to_equations; lia).
  assert (forall x, 0 <= x < 64 -> (128 + x) mod 2 ^ 6 = x) as Hm
    by (intros x Hx; change (2^6) with 64; Z.div_mod_to_equations; lia).
  rewrite !Hm by lia.
  rewrite (lor_add (a * 2 ^ 18) (b * 2 ^ 12) 18) by
    (change (2^18) with 262144; change (2^12) with 4096; try Z.div_mod_to_equations; lia).
  rewrite (lor_add _ (c * 2 ^ 6) 12) by
    (change (2^18) with 262144; change (2^12) with 4096; change (2^6) with 64; try Z.div_mod_to_equations; lia).
  rewrite (lor_add _ d 6) by
    (change (2^18) with 262144; change (2^12) with 4096; change (2^6) with 64; try Z.div_mod_to_equations; lia).
  change (2^18) with 262144; change (2^12) with 4096; change (2^6) with 64.
  rewrite <- Hsum. unfold utf8.RuneError.
  rewrite Z.eqb_refl. simpl. by rewrite andb_false_r.
Qed.

Lemma roundTrips_small : Spec.checkBlock Spec.roundTrips 16 0 = true.
Proof. vm_compute. reflexivity. Qed.

Lemma roundTrips_all r : 0 <= r -> Spec.roundTrips r = true.
Proof.
  intros Hr. destruct (Z.lt_ge_cases r 0x10000).
  - apply (checkBlock_sound Spec.roundTrips 16 0); [apply roundTrips_small|]. simpl. lia.
  - destruct (Z.le_gt_cases r 0x10FFFF); [by apply roundTrips_four|].
    unfold Spec.roundTrips, utf8.EncodeRune, Spec.canonRune, Spec.scalarValue, utf8.MaxRune.
    destruct (Z.leb_spec r 127); [lia|].
    destruct (Z.leb_spec r 2047); [lia|].
    destruct (Z.leb_spec 0 r); [|lia].
    destruct (Z.ltb_spec 1114111 r); [|lia].
    destruct (Z.leb_spec r 1114111); [lia|].
    simpl. rewrite orb_true_r. simpl. vm_compute. reflexivity.
Qed.

Lemma Decode_app (s rest : string) r n :
  utf8.DecodeRuneInString s = (r, n) -> n = String.length s -> (1 <= n)%nat ->
  negb ((r =? utf8.RuneError) && (n =? 1)%nat) = true ->
  utf8.DecodeRuneInString (String.append s rest) = (r, n).
Proof.
  unfold utf8.DecodeRuneInString. intros Hdec Hn Hpos Hne.
  destruct s as [|c0 [|c1 [|c2 [|c3 s']]]]; simpl in *; [lia| | | |];
    repeat case_match; simplify_eq/=; try done.
  match goal with H : 0%nat = String.length _ |- _ => by rewrite <- H end.
Qed.

Lemma range_from_skip (t rest : string) :
  utf8.range_from (String.length t) (String.append t rest) = utf8.range_from 0 rest.
Proof. induction t as [|c t IH]; simpl; [by destruct rest|done]. Qed.

Lemma range_EncodeRune r (rest : string) :
  0 <= r ->
  utf8.range (String.append (utf8.EncodeRune r) rest) = Spec.canonRune r :: utf8.range rest.
Proof.
  intros Hr. pose proof (roundTrips_all r Hr) as Hrt. unfold Spec.roundTrips in Hrt.
  destruct (utf8.DecodeRuneInString (utf8.EncodeRune r)) as [r' n] eqn:Hdec.
  apply andb_true_iff in Hrt as [Hrt Hne].
  apply andb_true_iff in Hrt as [Hrt Hpos].
  apply andb_true_iff in Hrt as [Hr' Hn].
  apply Z.eqb_eq in Hr'. apply Nat.eqb_eq in Hn. apply Nat.leb_le in Hpos.
  pose proof (Decode_app _ rest _ _ Hdec Hn Hpos Hne) as Happ.
  unfold utf8.range.
  destruct (utf8.EncodeRune r) as [|c t] eqn:Henc; simpl in *; [lia|].
  rewrite Happ. subst r' n. simpl. rewrite Nat.sub_0_r.
  by rewrite range_from_skip.
Qed.

Lemma range_encodeAll (runes : list Z) :
  Forall (fun r => 0 <= r) runes ->
  utf8.range (Spec.encodeAll runes) = Spec.canonRune <$> runes.
Proof.
  induction 1 as [|r runes Hr _ IH]; simpl; [done|].
  by rewrite range_EncodeRune, IH.
Qed.

Lemma Map_encodeAll (f : Z -> Z) (s : string) :
  strings.Map f s = Spec.encodeAll (filter (fun r => 0 <= r) (f <$> utf8.range s)).
Proof.
  unfold strings.Map. induction (utf8.range s) as [|c l IH]; simpl; [done|].
  rewrite IH. rewrite filter_cons.
  destruct (Z.leb_spec 0 (f c)); case_decide; try lia; done.
Qed.

Lemma byte_val_bounds (c : byte) : 0 <= byte_val c < 256.
Proof. unfold byte_val. pose proof (N_ascii_bounded c). lia. Qed.

Lemma byte_of_val (c : byte) : byte_of (byte_val c) = c.
Proof.
  unfold byte_of. rewrite Z.mod_small by apply byte_val_bounds.
  unfold byte_val. rewrite N2Z.id. apply ascii_N_embedding.
Qed.

Lemma range_ascii (c : byte) (t : string) :
  byte_val c < utf8.RuneSelf -> utf8.range (String c t) = byte_val c :: utf8.range t.
Proof.
  intros Hc. unfold utf8.range. simpl.
  destruct (Z.ltb_spec (byte_val c) utf8.RuneSelf); [|lia]. simpl. by destruct t.
Qed.

Lemma unicode_ToLower_ascii `{U : Unicode} v :
  0 <= v < 128 ->
  0 <= unicode.ToLower v < 128
  /\ unicode.ToLower v = if (0x41 <=? v) && (v <=? 0x5A) then v + 32 else v.
Proof.
  intros Hv. unfold unicode.ToLower, unicode.MaxASCII.
  destruct (Z.leb_spec v 127); [|lia].
  destruct (Z.leb_spec 65 v), (Z.leb_spec v 90); simpl; lia.
Qed.

Lemma ToLower_encodeAll `{U : Unicode} (s : string) :
  strings.ToLower s
  = Spec.encodeAll (filter (fun r => 0 <= r) (unicode.ToLower <$> utf8.range s)).
Proof.
  unfold strings.ToLower. destruct (strings.isASCII s) eqn:Hascii; [|apply Map_encodeAll].
  unfold strings.isASCII, bytes_of_string, string_of_bytes in *.
  induction s as [|c t IH]; [done|].
  cbn [list_ascii_of_string forallb map string_of_list_ascii] in *.
  apply andb_true_iff in Hascii as [Hc Ht]. apply Z.ltb_lt in Hc.
  rewrite range_ascii by done. rewrite fmap_cons.
  pose proof (byte_val_bounds c) as Hb. unfold utf8.RuneSelf in Hc.
  destruct (unicode_ToLower_ascii (byte_val c)) as [Hrange Heq]; [lia|].
  rewrite filter_cons. case_decide; [|lia].
  unfold Spec.encodeAll at 1. rewrite foldr_cons.
  fold (Spec.encodeAll (filter (fun r => 0 <= r) (unicode.ToLower <$> utf8.range t))).
  rewrite <- IH by done.
  unfold utf8.EncodeRune.
  destruct (Z.leb_spec 0 (unicode.ToLower (byte_val c))); [|lia].
  destruct (Z.leb_spec (unicode.ToLower (byte_val c)) 127); [|lia]. simpl.
  f_equal. unfold strings.lowerASCII. rewrite Heq.
  destruct ((65 <=? byte_val c) && (byte_val c <=? 90)); [done|]. by rewrite byte_of_val.
Qed.

Lemma keepRune_cases r :
  ((0x61 <= r <= 0x7A \/ 0x30 <= r <= 0x39 \/ 0x430 <= r <= 0x44F \/ r = 0x451)
   /\ storage.keepRune r = r)
  \/ (~ (0x61 <= r <= 0x7A \/ 0x30 <= r <= 0x39 \/ 0x430 <= r <= 0x44F \/ r = 0x451)
      /\ storage.keepRune r = -1).
Proof. unfold storage.keepRune. split_comparisons; lia. Qed.

Lemma keptRune_spec r :
  Spec.keptRune r <->
  (0x61 <= r <= 0x7A) \/ (0x30 <= r <= 0x39) \/ (0x430 <= r <= 0x44F) \/ r = 0x451.
Proof. unfold Spec.keptRune. destruct (keepRune_cases r) as [[? ->]|[? ->]]; lia. Qed.

Lemma keepRune_kept r : Spec.keptRune r -> storage.keepRune r = r.
Proof.
  intros Hk. apply keptRune_spec in Hk.
  destruct (keepRune_cases r) as [[? ->]|[? ->]]; [done|tauto].
Qed.

Lemma canonRune_cases r :
  (0 <= r <= 0x10FFFF /\ ~ (0xD800 <= r <= 0xDFFF) /\ Spec.canonRune r = r)
  \/ ((r < 0 \/ 0x10FFFF < r \/ 0xD800 <= r <= 0xDFFF) /\ Spec.canonRune r = utf8.RuneError).
Proof.
  unfold Spec.canonRune, Spec.scalarValue, utf8.MaxRune, utf8.surrogateMin, utf8.surrogateMax.
  split_comparisons; lia.
Qed.

Lemma keepRune_canonRune r : storage.keepRune (Spec.canonRune r) = storage.keepRune r.
Proof.
  destruct (canonRune_cases r) as [(_ & _ & ->)|[Hr ->]]; [done|].
  destruct (keepRune_cases r) as [[? ->]|[? ->]]; [lia|reflexivity].
Qed.

Lemma filter_keepRune (l : list Z) :
  filter (fun r => 0 <= r) (storage.keepRune <$> (Spec.canonRune <$> filter (fun r => 0 <= r) l))
  = filter Spec.keptRune l.
Proof.
  induction l as [|r l IH]; [done|].
  rewrite (filter_cons Spec.keptRune), (filter_cons (fun r => 0 <= r) r l).
  destruct (keepRune_cases r) as [[Hr Hk]|[Hr Hk]].
  - rewrite (decide_True (P := 0 <= r)) by lia.
    rewrite (decide_True (P := Spec.keptRune r)) by (unfold Spec.keptRune; lia).
    rewrite !fmap_cons, filter_cons, keepRune_canonRune, Hk.
    rewrite (decide_True (P := 0 <= r)) by lia. by rewrite IH.
  - rewrite (decide_False (P := Spec.keptRune r)) by (unfold Spec.keptRune; lia).
    case_decide; [|done].
    rewrite !fmap_cons, filter_cons, keepRune_canonRune, Hk.
    rewrite (decide_False (P := 0 <= -1)) by lia. done.
Qed.

Lemma filter_nonneg_Forall (l : list Z) : Forall (fun r => 0 <= r) (filter (fun r => 0 <= r) l).
Proof. apply Forall_forall. intros r Hr. by apply list_elem_of_filter in Hr as [? _]. Qed.

Lemma Normalize_encodeAll `{U : Unicode} (s : string) :
  storage.NormalizeCounterNumber s = Spec.encodeAll (Spec.keptRunes s).
Proof.
  unfold storage.NormalizeCounterNumber, Spec.keptRunes.
  rewrite Map_encodeAll, ToLower_encodeAll.
  rewrite range_encodeAll by apply filter_nonneg_Forall.
  by rewrite filter_keepRune.
Qed.

Lemma keptRunes_encodeAll `{UL : Spec.UnicodeLaws} (K : list Z) :
  Forall Spec.keptRune K -> Spec.keptRunes (Spec.encodeAll K) = K.
Proof.
  intros HK. unfold Spec.keptRunes.
  rewrite range_encodeAll.
  2:{ eapply Forall_impl; [exact HK|]. intros r Hr. apply keptRune_spec in Hr. lia. }
  induction HK as [|r K Hr HK IH]; [done|].
  rewrite !fmap_cons.
  assert (Spec.canonRune r = r) as ->.
  { apply keptRune_spec in Hr.
    destruct (canonRune_cases r) as [(_ & _ & ->)|[Hr' _]]; [done|lia]. }
  assert (unicode.ToLower r = r) as ->.
  { pose proof (proj1 (keptRune_spec r) Hr) as Hr'.
    unfold unicode.ToLower, unicode.MaxASCII.
    destruct (Z.leb_spec r 127).
    - destruct (Z.leb_spec 65 r), (Z.leb_spec r 90); simpl; lia.
    - apply Spec.lower_fixes_cyrillic. lia. }
  rewrite filter_cons. case_decide; [|done]. by rewrite IH.
Qed.

Lemma Normalize_idempotent `{UL : Spec.UnicodeLaws} (s : string) :
  storage.NormalizeCounterNumber (storage.NormalizeCounterNumber s)
  = storage.NormalizeCounterNumber s.
Proof.
  rewrite (Normalize_encodeAll s), Normalize_encodeAll.
  rewrite keptRunes_encodeAll; [done|].
  unfold Spec.keptRunes. apply Forall_forall. intros r Hr.
  by apply list_elem_of_filter in Hr as [? _].
Qed.

End RuneProperties.

(** ** Session tracker *)

Section SessionProperties.

Implicit Types (s : models.Session) (now : time.Time).

Lemma duplicateUpdater_Uploaded name s :
  models.Uploaded (handlers.duplicateUpdater name s) = models.Uploaded s.
Proof. reflexivity. Qed.

Lemma duplicates_keep_Uploaded (names : list string) s :
  models.Uploaded (foldl (fun acc name => handlers.duplicateUpdater name acc) s names)
  = models.Uploaded s.
Proof.
  revert s. induction names as [|name names IH]; intros s; simpl; [done|].
  by rewrite IH.
Qed.

(** C9. [GetProgress] is 0 for a session whose total is 0 and the float64
    value [(uploaded+skipped)/total*100] otherwise;
    [GetEstimatedTimeRemaining] is 0 whenever [uploaded] is 0, whatever the
    skipped count: after any number of recorded duplicates a session that
    never uploaded reports 0 seconds. *)
Theorem progress_and_estimate s :
  (models.Total s = 0 -> models.GetProgress s = Go.f64_zero)
  /\ (models.Total s <> 0 ->
      models.GetProgress s
      = Go.f64_mul
          (Go.f64_div (Go.float64_of_int (Go.add64 (models.Uploaded s) (models.Skipped s)))
                      (Go.float64_of_int (models.Total s)))
          (Go.float64_of_int 100))
  /\ (forall now, models.Uploaded s = 0 -> models.GetEstimatedTimeRemaining now s = 0)
  /\ (forall now (names : list string),
        models.Uploaded s = 0 ->
        models.GetEstimatedTimeRemaining now
          (foldl (fun acc name => handlers.duplicateUpdater name acc) s names) = 0).
Proof.
  unfold models.GetProgress, models.GetEstimatedTimeRemaining.
  repeat split.
  - intros ->. reflexivity.
  - intros Hne. destruct (Z.eqb_spec (models.Total s) 0); [contradiction|reflexivity].
  - intros now ->. reflexivity.
  - intros now names Hu. rewrite duplicates_keep_Uploaded, Hu. reflexivity.
Qed.

Lemma progress_and_estimate_example :
  models.GetProgress Fixtures.allDuplicates
  = Go.f64_mul (Go.f64_div (Go.float64_of_int 3) (Go.float64_of_int 5))
               (Go.float64_of_int 100)
  /\ models.GetEstimatedTimeRemaining Fixtures.t1 Fixtures.allDuplicates = 0.
Proof.
  pose proof (progress_and_estimate Fixtures.allDuplicates) as (_ & Hp & He & _).
  split.
  - apply Hp. vm_compute. discriminate.
  - apply He. reflexivity.
Defined.

(** The function the duplicate branch of [SyncHandler] passes to [Update]
    never sets [StatusCompleted]. *)
Lemma duplicateUpdater_Status name s :
  models.Status (handlers.duplicateUpdater name s) = models.StatusSyncing.
Proof. reflexivity. Qed.

(** The function of the branch for a new photo does. *)
Lemma uploadUpdater_Status name s :
  models.Status (handlers.uploadUpdater name s)
  = if models.Total s <=? Go.add64 (Go.add64 (models.Uploaded s) 1) (models.Skipped s)
    then models.StatusCompleted else models.StatusSyncing.
Proof. reflexivity. Qed.

(** C1, at the failing input.  A session expecting one photo receives it
    as a duplicate: [skipped] becomes 1, so [uploaded + skipped >= total],
    and the session stays in [StatusSyncing]. *)
Theorem duplicate_final_event_stays_syncing :
  let '(resp, st) :=
    handlers.SyncHandler (U := Fixtures.cyrillicLower) (P := Fixtures.plainPlatform)
      Fixtures.calmEnv Fixtures.resendPhoto Fixtures.stateOneKnown in
  resp = handlers.SyncDuplicate 0 1 "p1_1.jpg" "hash"
  /\ exists s,
       storage.Get "t1" (handlers.sessionStore st) = Some s
       /\ models.Skipped s = 1 /\ models.Uploaded s = 0 /\ models.Total s = 1
       /\ models.Total s <= models.Uploaded s + models.Skipped s
       /\ models.Status s = models.StatusSyncing.
Proof.
  vm_compute. split; [reflexivity|].
  eexists. split; [reflexivity|]. repeat split; discriminate.
Qed.

End SessionProperties.

(** ** Photo index: the order of a bucket *)

Section SortProperties.

Implicit Types (l pre seen todo : list PhotoInfo.t) (x y a b : PhotoInfo.t).

Lemma lookup_pivot pre x rest : (pre ++ x :: rest) !! length pre = Some x.
Proof. by rewrite list_lookup_middle. Qed.

Lemma lookup_probe pre x seen y t :
  (pre ++ x :: seen ++ y :: t) !! (length pre + 1 + length seen)%nat = Some y.
Proof.
  rewrite lookup_app_r by lia.
  replace (length pre + 1 + length seen - length pre)%nat with (S (length seen)) by lia.
  simpl. by rewrite list_lookup_middle.
Qed.

Lemma swap_pivot_probe pre x seen y t :
  storage.swap (pre ++ x :: seen ++ y :: t) (length pre) (length pre + 1 + length seen)
  = pre ++ y :: seen ++ x :: t.
Proof.
  unfold storage.swap. rewrite lookup_pivot, lookup_probe.
  rewrite (insert_app_r_alt pre _ (length pre + 1 + length seen)) by lia.
  replace (length pre + 1 + length seen - length pre)%nat with (S (length seen)) by lia.
  simpl.
  rewrite (insert_app_r_alt seen _ (length seen)) by lia.
  rewrite Nat.sub_diag. simpl.
  rewrite (insert_app_r_alt pre _ (length pre)) by lia.
  rewrite Nat.sub_diag. reflexivity.
Qed.

Lemma sortInner_selectNewest todo : forall pre x seen,
  storage.sortInner (length todo) (length pre) (length pre + 1 + length seen)
                    (pre ++ x :: seen ++ todo)
  = let '(m, todo') := Spec.selectNewest x todo in pre ++ m :: seen ++ todo'.
Proof.
  induction todo as [|y t IH]; intros pre x seen; simpl; [done|].
  unfold storage.sortStep. rewrite lookup_pivot, lookup_probe.
  destruct (time.Before (PhotoInfo.Date x) (PhotoInfo.Date y)) eqn:Hb.
  - rewrite swap_pivot_probe.
    specialize (IH pre y (seen ++ [x])).
    rewrite length_app in IH. simpl in IH.
    replace (S (length pre + 1 + length seen)) with (length pre + 1 + (length seen + 1))%nat by lia.
    rewrite <- !app_assoc in IH. simpl in IH. rewrite IH.
    destruct (Spec.selectNewest y t) as [m t']. by rewrite <- app_assoc.
  - specialize (IH pre x (seen ++ [y])).
    rewrite length_app in IH. simpl in IH.
    replace (S (length pre + 1 + length seen)) with (length pre + 1 + (length seen + 1))%nat by lia.
    rewrite <- !app_assoc in IH. simpl in IH. rewrite IH.
    destruct (Spec.selectNewest x t) as [m t']. by rewrite <- app_assoc.
Qed.

Lemma selectNewest_perm ys : forall x m r,
  Spec.selectNewest x ys = (m, r) -> m :: r ≡ₚ x :: ys.
Proof.
  induction ys as [|y t IH]; intros x m r; simpl.
  - by intros [= <- <-].
  - destruct (time.Before _ _).
    + destruct (Spec.selectNewest y t) as [m' t'] eqn:E. intros [= <- <-].
      etrans; [apply Permutation_swap|]. by rewrite (IH _ _ _ E).
    + destruct (Spec.selectNewest x t) as [m' t'] eqn:E. intros [= <- <-].
      etrans; [apply Permutation_swap|]. rewrite (IH _ _ _ E). apply Permutation_swap.
Qed.

Lemma selectNewest_newest ys : forall x m r,
  Spec.selectNewest x ys = (m, r) -> Spec.notOlder m x /\ Forall (Spec.notOlder m) r.
Proof.
  unfold Spec.notOlder, Spec.dateKey.
  induction ys as [|y t IH]; intros x m r; simpl.
  - intros [= <- <-]. split; [lia|constructor].
  - unfold time.Before. destruct (Z.ltb_spec (time.unixNano (PhotoInfo.Date x)) (time.unixNano (PhotoInfo.Date y))).
    + destruct (Spec.selectNewest y t) as [m' t'] eqn:E. intros [= <- <-].
      destruct (IH _ _ _ E) as [Hm Hr]. split; [lia|]. constructor; [lia|done].
    + destruct (Spec.selectNewest x t) as [m' t'] eqn:E. intros [= <- <-].
      destruct (IH _ _ _ E) as [Hm Hr]. split; [lia|]. constructor; [lia|done].
Qed.

Lemma sortOuter_sorts n : forall pre rest,
  length rest = S n ->
  exists rest', storage.sortOuter n (length pre) (pre ++ rest) = pre ++ rest'
                /\ rest' ≡ₚ rest /\ StronglySorted Spec.notOlder rest'.
Proof.
  induction n as [|n IH]; intros pre rest Hlen.
  - destruct rest as [|x [|? ?]]; simplify_eq/=.
    exists [x]. repeat split; [done|]. repeat constructor.
  - destruct rest as [|x xs]; simplify_eq/=.
    replace (length (pre ++ x :: xs) - (length pre + 1))%nat with (length xs)
      by (rewrite length_app; simpl; lia).
    pose proof (sortInner_selectNewest xs pre x []) as Hin. simpl in Hin.
    rewrite Nat.add_0_r in Hin. rewrite Hin.
    destruct (Spec.selectNewest x xs) as [m r] eqn:E.
    pose proof (selectNewest_perm _ _ _ _ E) as Hperm.
    destruct (selectNewest_newest _ _ _ _ E) as [_ Hall].
    assert (length r = S n) as Hr.
    { apply Permutation_length in Hperm. simpl in Hperm. lia. }
    destruct (IH (pre ++ [m]) r Hr) as (r' & Heq & Hp & Hs).
    rewrite length_app in Heq. simpl in Heq.
    replace (length pre + 1)%nat with (S (length pre)) in Heq by lia.
    rewrite <- app_assoc in Heq. simpl in Heq.
    exists (m :: r'). split; [by rewrite Heq, <- app_assoc|]. split.
    + by rewrite Hp.
    + constructor; [done|]. by rewrite Hp.
Qed.

Lemma sortByDate_sorts l :
  storage.sortByDate l ≡ₚ l /\ StronglySorted Spec.notOlder (storage.sortByDate l).
Proof.
  unfold storage.sortByDate. destruct l as [|x xs].
  - simpl. split; [done|constructor].
  - destruct (sortOuter_sorts (length xs) [] (x :: xs)) as (r & Heq & Hp & Hs).
    { simpl. done. }
    simpl in *. rewrite Nat.sub_0_r. rewrite Heq. done.
Qed.

End SortProperties.

(** ** Photo index: the invariant of the buckets *)

Section IndexProperties.
Context `{U : Unicode}.

Implicit Types (idx : storage.Indexer) (disk : option storage.IndexFile).

Lemma existsb_path_false (l : list PhotoInfo.t) (relPath : string) :
  existsb (fun photo => String.eqb (PhotoInfo.Path photo) relPath) l = false ->
  relPath ∉ PhotoInfo.Path <$> l.
Proof.
  induction l as [|p l IH]; simpl; intros Hex.
  - apply not_elem_of_nil.
  - apply orb_false_iff in Hex as [Hp Hl].
    apply String.eqb_neq in Hp.
    rewrite not_elem_of_cons. split; [congruence|auto].
Qed.

Lemma bucketInvariant_nil : Spec.bucketInvariant [].
Proof. split; [constructor|]. simpl. apply NoDup_nil_2. Qed.

(** Appending a record with a fresh path and sorting keeps the invariant. *)
Lemma bucketInvariant_append (l : list PhotoInfo.t) (photo : PhotoInfo.t) :
  Spec.bucketInvariant l ->
  PhotoInfo.Path photo ∉ PhotoInfo.Path <$> l ->
  Spec.bucketInvariant (storage.sortByDate (l ++ [photo])).
Proof.
  intros [_ Hnd] Hfresh.
  destruct (sortByDate_sorts (l ++ [photo])) as [Hperm Hsorted].
  split; [done|].
  rewrite Hperm, fmap_app. simpl.
  apply NoDup_app. split; [done|]. split.
  - intros x Hx Hx'. apply list_elem_of_singleton in Hx'. by subst.
  - apply NoDup_singleton.
Qed.

Lemma AddPhoto_index w counterNumber relPath fullPath date size hash userComment idx disk :
  let nc := storage.NormalizeCounterNumber counterNumber in
  let bucket := default [] (storage.index idx !! nc) in
  let photo := PhotoInfo.mk relPath fullPath date size hash userComment in
  storage.index (storage.AddPhoto w counterNumber relPath fullPath date size hash
                                  userComment idx disk).1.2
  = <[nc := if existsb (fun p => String.eqb (PhotoInfo.Path p) relPath) bucket
            then bucket else storage.sortByDate (bucket ++ [photo])]>
      (storage.index idx).
Proof.
  intros nc bucket photo. unfold storage.AddPhoto. fold nc. fold bucket.
  destruct (existsb _ bucket); [reflexivity|].
  destruct w; reflexivity.
Qed.

Lemma AddPhoto_preserves w counterNumber relPath fullPath date size hash userComment idx disk :
  Spec.indexInvariant idx ->
  Spec.indexInvariant
    (storage.AddPhoto w counterNumber relPath fullPath date size hash userComment
                      idx disk).1.2.
Proof.
  intros Hinv k l. rewrite AddPhoto_index.
  set (nc := storage.NormalizeCounterNumber counterNumber).
  assert (Spec.bucketInvariant (default [] (storage.index idx !! nc))) as Hb.
  { destruct (storage.index idx !! nc) as [b|] eqn:E; simpl;
      [by eapply Hinv|apply bucketInvariant_nil]. }
  destruct (decide (nc = k)) as [<-|Hne].
  - rewrite lookup_insert_eq. intros [= <-].
    destruct (existsb _ _) eqn:Hex; [done|].
    apply bucketInvariant_append; [done|].
    by apply existsb_path_false in Hex.
  - rewrite lookup_insert_ne by done. apply Hinv.
Qed.

Lemma afterAdds_invariant (calls : list Spec.AddPhotoCall) :
  forall st, Spec.indexInvariant st.1 ->
             Spec.indexInvariant (foldl Spec.applyAddPhoto st calls).1.
Proof.
  induction calls as [|c calls IH]; intros st Hinv; simpl; [done|].
  apply IH. unfold Spec.applyAddPhoto.
  pose proof (AddPhoto_preserves (Spec.call_write c) (Spec.call_counterNumber c)
    (Spec.call_relPath c) (Spec.call_fullPath c) (Spec.call_date c) (Spec.call_size c)
    (Spec.call_hash c) (Spec.call_userComment c) st.1 st.2 Hinv) as Hp.
  destruct (storage.AddPhoto _ _ _ _ _ _ _ _ _ _) as [[err idx'] disk']. exact Hp.
Qed.

Lemma GetPhotosByCounter_invariant idx (counterNumber : string) :
  Spec.indexInvariant idx ->
  Spec.bucketInvariant (storage.GetPhotosByCounter idx counterNumber).
Proof.
  intros Hinv. unfold storage.GetPhotosByCounter.
  destruct (storage.index idx !! _) as [b|] eqn:E; simpl;
    [by eapply Hinv|apply bucketInvariant_nil].
Qed.

(** C4. After any sequence of calls of [AddPhoto] on an empty index, the
    bucket [GetPhotosByCounter] returns for any identifier is ordered by
    capture date, newest first, and holds no two records with the same
    relative path; every call of [AddPhoto] preserves this invariant of the
    buckets, whatever the outcome of its write to disk. *)
Theorem buckets_sorted_without_duplicate_paths :
  (forall (dir : string) disk (calls : list Spec.AddPhotoCall) (counterNumber : string),
      Spec.bucketInvariant
        (storage.GetPhotosByCounter (Spec.afterAdds dir disk calls) counterNumber))
  /\ (forall idx disk (c : Spec.AddPhotoCall),
        Spec.indexInvariant idx ->
        Spec.indexInvariant (Spec.applyAddPhoto (idx, disk) c).1).
Proof.
  split.
  - intros dir disk calls counterNumber.
    apply GetPhotosByCounter_invariant. unfold Spec.afterAdds.
    apply afterAdds_invariant. intros k l. simpl. by rewrite lookup_empty.
  - intros idx disk c Hinv.
    exact (afterAdds_invariant [c] (idx, disk) Hinv).
Qed.

(** C6. When the record is appended (no record of the bucket has its
    relative path) and the write of the index file fails, [AddPhoto]
    returns an error and the record is in the bucket that
    [GetPhotosByCounter] returns afterwards: the index in memory is not
    rolled back. *)
Theorem AddPhoto_failed_write_keeps_record
    remains counterNumber relPath fullPath date size hash userComment idx disk :
  (forall p, p ∈ storage.GetPhotosByCounter idx counterNumber ->
             PhotoInfo.Path p <> relPath) ->
  let '(err, idx', disk') :=
    storage.AddPhoto (storage.WriteFails remains) counterNumber relPath fullPath date
                     size hash userComment idx disk in
  is_Some err
  /\ PhotoInfo.mk relPath fullPath date size hash userComment
       ∈ storage.GetPhotosByCounter idx' counterNumber
  /\ disk' = remains.
Proof.
  intros Hfresh.
  pose proof (AddPhoto_index (storage.WriteFails remains) counterNumber relPath fullPath
                date size hash userComment idx disk) as Hidx.
  unfold storage.AddPhoto in *. simpl in *.
  unfold storage.GetPhotosByCounter in Hfresh.
  set (nc := storage.NormalizeCounterNumber counterNumber) in *.
  set (bucket := default [] (storage.index idx !! nc)) in *.
  assert (existsb (fun p => String.eqb (PhotoInfo.Path p) relPath) bucket = false) as Hex.
  { apply not_true_is_false. intros Hex.
    apply existsb_exists in Hex as (p & Hin & Heq).
    apply String.eqb_eq in Heq. apply (Hfresh p); [|done].
    by apply list_elem_of_In. }
  rewrite Hex in *. simpl. split; [by eexists|]. split; [|done].
  unfold storage.GetPhotosByCounter. simpl. fold nc.
  rewrite lookup_insert_eq. simpl.
  destruct (sortByDate_sorts (bucket ++ [PhotoInfo.mk relPath fullPath date size hash userComment]))
    as [Hperm _].
  rewrite Hperm. set_solver.
Qed.

End IndexProperties.

(** ** Duplicate detector *)

Section DuplicateProperties.
Context `{U : Unicode}.

Implicit Types (dc : storage.DuplicateCheck) (idx : storage.Indexer).

(** The hash table after further calls of [AddHash] still has an entry for
    every hash it had one for, and the entry carries that hash when the
    earlier one did. *)
Lemma AddHash_later_entry (later : list Spec.AddHashCall) : forall dc (h : string),
  (exists info, storage.hashDB dc !! h = Some info /\ FileHashInfo.Hash info = h) ->
  exists info, storage.hashDB (foldl Spec.applyAddHash dc later) !! h = Some info
               /\ FileHashInfo.Hash info = h.
Proof.
  induction later as [|c later IH]; intros dc h Hdc; simpl; [done|].
  apply IH. unfold Spec.applyAddHash, storage.AddHash. simpl.
  destruct (decide (Spec.hash_fileHash c = h)) as [<-|Hne].
  - rewrite lookup_insert_eq. by eexists.
  - by rewrite lookup_insert_ne.
Qed.

(** A hit of the hash table answers the check, whatever the other
    arguments and the index are: tier 1 comes first. *)
Lemma CheckDuplicate_hash_hit dc (h : string) info size counterNumber dateTaken idx :
  storage.hashDB dc !! h = Some info ->
  storage.CheckDuplicate dc h size counterNumber dateTaken idx = (Some info, "hash"%string).
Proof. intros Hh. unfold storage.CheckDuplicate. by rewrite Hh. Qed.

(** C2. Once [AddHash(h, ...)] was called, every later [CheckDuplicate]
    with the hash [h] returns the entry the hash table stores for [h], with
    the reason ["hash"], for every size, identifier and timestamp supplied
    and every state of the index: the hash table is looked up before the
    index is consulted. *)
Theorem known_hash_is_duplicate dc (h : string) size date path
    (later : list Spec.AddHashCall) size' counterNumber dateTaken idx :
  let dc' := foldl Spec.applyAddHash (storage.AddHash h size date path dc) later in
  exists info,
    storage.CheckDuplicate dc' h size' counterNumber dateTaken idx
    = (Some info, "hash"%string)
    /\ storage.hashDB dc' !! h = Some info
    /\ FileHashInfo.Hash info = h.
Proof.
  intros dc'.
  destruct (AddHash_later_entry later (storage.AddHash h size date path dc) h)
    as (info & Hinfo & Hh).
  { unfold storage.AddHash. simpl. rewrite lookup_insert_eq. by eexists. }
  exists info. split; [|done]. by apply CheckDuplicate_hash_hit.
Qed.

End DuplicateProperties.

(** ** Request handlers: refused requests *)

Section HandlerProperties.
Context `{U : Unicode} `{P : Platform}.

Implicit Types (st : handlers.State).

Lemma InitHandler_refused now (req : handlers.InitRequest) st :
  handlers.init_token req = EmptyString
  \/ storage.Get (handlers.init_token req) (handlers.sessionStore st) = None ->
  Spec.isClientError (handlers.InitHandler now req st).1
  /\ (handlers.InitHandler now req st).2 = st.
Proof.
  unfold handlers.InitHandler, storage.Update, storage.Get.
  intros [Htok|Hget].
  - rewrite Htok. simpl. done.
  - destruct (String.eqb _ _); [done|].
    destruct (handlers.init_body req) as [[total filter]|]; [|done].
    rewrite Hget. simpl. done.
Qed.

Lemma SyncHandler_refused env (req : handlers.SyncRequest) st :
  handlers.sync_token req = EmptyString
  \/ storage.Get (handlers.sync_token req) (handlers.sessionStore st) = None
  \/ handlers.sync_photo req = None ->
  Spec.isClientError (handlers.SyncHandler env req st).1
  /\ (handlers.SyncHandler env req st).2 = st.
Proof.
  unfold handlers.SyncHandler.
  intros [Htok|[Hget|Hphoto]].
  - rewrite Htok. simpl. done.
  - destruct (String.eqb _ _); [done|]. rewrite Hget. done.
  - destruct (String.eqb _ _); [done|].
    destruct (storage.Get _ _); [|done]. rewrite Hphoto. done.
Qed.

(** C7. An init request with a missing or unknown token, and an ingest
    request with a missing token, an unknown token or no photo payload, is
    answered with an error ([400] or [404]) and leaves the whole state as it
    was: the session map, the hash table, the index and its file. *)
Theorem refused_requests_change_nothing st :
  (forall now (req : handlers.InitRequest),
      handlers.init_token req = EmptyString
      \/ storage.Get (handlers.init_token req) (handlers.sessionStore st) = None ->
      Spec.isClientError (handlers.InitHandler now req st).1
      /\ (handlers.InitHandler now req st).2 = st)
  /\ (forall env (req : handlers.SyncRequest),
        handlers.sync_token req = EmptyString
        \/ storage.Get (handlers.sync_token req) (handlers.sessionStore st) = None
        \/ handlers.sync_photo req = None ->
        Spec.isClientError (handlers.SyncHandler env req st).1
        /\ (handlers.SyncHandler env req st).2 = st).
Proof.
  split.
  - intros now req. apply InitHandler_refused.
  - intros env req. apply SyncHandler_refused.
Qed.

End HandlerProperties.

(** ** Normalization of identifiers *)

Section NormalizeProperties.
Context `{UL : Spec.UnicodeLaws}.

Lemma ToLower_capitalOf up lo :
  Spec.capitalOf up lo -> unicode.ToLower up = lo /\ unicode.ToLower lo = lo.
Proof.
  unfold Spec.capitalOf, unicode.ToLower, unicode.MaxASCII.
  intros [[Hlo ->]|[[Hlo ->]|[-> ->]]].
  - split; split_comparisons; lia.
  - destruct (Z.leb_spec (lo - 32) 127); [lia|].
    destruct (Z.leb_spec lo 127); [lia|].
    rewrite Spec.lower_cyrillic_capital, Spec.lower_fixes_cyrillic by lia. lia.
  - cbn. rewrite Spec.lower_cyrillic_io, Spec.lower_fixes_cyrillic by lia. done.
Qed.

Lemma ToLower_punctuation p :
  Spec.punctuation p -> unicode.ToLower p = p /\ ~ Spec.keptRune p.
Proof.
  intros Hp. rewrite keptRune_spec. split; [|unfold Spec.punctuation in Hp; lia].
  unfold unicode.ToLower, unicode.MaxASCII.
  destruct Hp as [[Hp Hn]|Hp].
  - split_comparisons; lia.
  - destruct (Z.leb_spec p 127); [lia|]. by apply Spec.lower_fixes_punctuation.
Qed.

Lemma kept_same (l1 l2 : list Z) :
  Spec.sameButCaseAndPunctuation l1 l2 ->
  filter Spec.keptRune (unicode.ToLower <$> l1)
  = filter Spec.keptRune (unicode.ToLower <$> l2).
Proof.
  induction 1 as [|r l1 l2 _ IH|up lo l1 l2 Hc _ IH|up lo l1 l2 Hc _ IH
                  |p l1 l2 Hp _ IH|p l1 l2 Hp _ IH];
    rewrite ?fmap_cons, ?filter_cons.
  - done.
  - by rewrite IH.
  - destruct (ToLower_capitalOf _ _ Hc) as [-> ->]. by rewrite IH.
  - destruct (ToLower_capitalOf _ _ Hc) as [-> ->]. by rewrite IH.
  - destruct (ToLower_punctuation _ Hp) as [-> Hk]. by rewrite decide_False.
  - destruct (ToLower_punctuation _ Hp) as [-> Hk]. by rewrite decide_False.
Qed.

(** C8. [NormalizeCounterNumber] is idempotent, and two strings whose
    runes differ only by the case of Latin or Cyrillic letters and by
    punctuation or separator characters have the same normal form, the
    key of their bucket. *)
Theorem Normalize_idempotent_and_collapsing :
  (forall x : string,
      storage.NormalizeCounterNumber (storage.NormalizeCounterNumber x)
      = storage.NormalizeCounterNumber x)
  /\ (forall x y : string,
        Spec.sameButCaseAndPunctuation (utf8.range x) (utf8.range y) ->
        storage.NormalizeCounterNumber x = storage.NormalizeCounterNumber y).
Proof.
  split.
  - apply Normalize_idempotent.
  - intros x y Hxy. rewrite !Normalize_encodeAll. unfold Spec.keptRunes.
    by rewrite (kept_same _ _ Hxy).
Qed.

(** C10. A lookup normalizes its argument: [GetPhotosByCounter] returns
    the same bucket for an identifier and for its normal form, hence for
    any two identifiers with the same normal form. *)
Theorem GetPhotosByCounter_of_normal_form (idx : storage.Indexer) :
  (forall x : string,
      storage.GetPhotosByCounter idx x
      = storage.GetPhotosByCounter idx (storage.NormalizeCounterNumber x))
  /\ (forall x y : string,
        storage.NormalizeCounterNumber x = storage.NormalizeCounterNumber y ->
        storage.GetPhotosByCounter idx x = storage.GetPhotosByCounter idx y).
Proof.
  unfold storage.GetPhotosByCounter. split.
  - intros x. by rewrite Normalize_idempotent.
  - intros x y Hxy. by rewrite Hxy.
Qed.

End NormalizeProperties.

(** The case table of the examples satisfies what is assumed of one. *)
Lemma cyrillicLower_laws : @Spec.UnicodeLaws Fixtures.cyrillicLower.
Proof.
  split; unfold To_LowerCase, Fixtures.cyrillicLower.
  - intros r Hr. split_comparisons; lia.
  - intros r Hr. split_comparisons; lia.
  - reflexivity.
  - intros r Hr. split_comparisons; lia.
Defined.

Ltac same_runes :=
  repeat first
    [ apply Spec.same_nil
    | apply Spec.same_rune
    | apply Spec.same_upper_lower; [unfold Spec.capitalOf; lia|]
    | apply Spec.same_lower_upper; [unfold Spec.capitalOf; lia|]
    | apply Spec.same_punctuation_left; [unfold Spec.punctuation; lia|]
    | apply Spec.same_punctuation_right; [unfold Spec.punctuation; lia|] ].

Lemma Normalize_example :
  storage.NormalizeCounterNumber (U := Fixtures.cyrillicLower) "SN-12345/АБ"
  = storage.NormalizeCounterNumber (U := Fixtures.cyrillicLower) "sn 12345 аб"
  /\ storage.NormalizeCounterNumber (U := Fixtures.cyrillicLower)
       (storage.NormalizeCounterNumber (U := Fixtures.cyrillicLower) "SN-12345/АБ")
     = "sn12345аб"%string.
Proof.
  pose proof (@Normalize_idempotent_and_collapsing _ cyrillicLower_laws) as [Hidem Hsame].
  split.
  - apply Hsame. vm_compute utf8.range. same_runes.
  - rewrite Hidem. vm_compute. reflexivity.
Defined.

Lemma GetPhotosByCounter_example :
  storage.GetPhotosByCounter (U := Fixtures.cyrillicLower)
    (Spec.afterAdds (U := Fixtures.cyrillicLower) ".index" None Fixtures.threeAdds) "SN-12345/АБ"
  = storage.GetPhotosByCounter (U := Fixtures.cyrillicLower)
      (Spec.afterAdds (U := Fixtures.cyrillicLower) ".index" None Fixtures.threeAdds) "sn12345аб".
Proof.
  apply (proj2 (@GetPhotosByCounter_of_normal_form _ cyrillicLower_laws _)).
  vm_compute. reflexivity.
Defined.

(** ** Comment scanner *)

Section ScannerProperties.

Lemma takeWhile_spec (s : list byte) :
  exists r rest, s = r ++ rest /\ forallb Spec.runByte r = true
                 /\ match rest with [] => True | c :: _ => Spec.runByte c = false end.
Proof.
  induction s as [|b t (r & rest & -> & Hr & Hrest)].
  - exists [], []. done.
  - destruct (Spec.runByte b) eqn:Hb.
    + exists (b :: r), rest. simpl. rewrite Hb. done.
    + exists [], (b :: r ++ rest). simpl. done.
Qed.

Lemma candidatesFrom_run (r : list byte) : forall start run pos rest,
  forallb Spec.runByte r = true ->
  Spec.candidatesFrom (Some (start, run)) pos (r ++ rest)
  = Spec.candidatesFrom (Some (start, run ++ r)) (pos + length r) rest.
Proof.
  induction r as [|b r IH]; intros start run pos rest Hr; simpl.
  - by rewrite app_nil_r, Nat.add_0_r.
  - simpl in Hr. apply andb_true_iff in Hr as [Hb Hr]. rewrite Hb.
    rewrite IH by done. rewrite <- app_assoc. simpl. f_equal. lia.
Qed.

Lemma runEnd_run (r : list byte) : forall n pre rest,
  forallb Spec.runByte r = true ->
  match rest with [] => True | c :: _ => Spec.runByte c = false end ->
  (length r <= n)%nat ->
  handlers.runEnd n (pre ++ r ++ rest) (length pre) = (length pre + length r)%nat.
Proof.
  induction r as [|b r IH]; intros n pre rest Hr Hrest Hn; simpl.
  - rewrite Nat.add_0_r. destruct n; [done|]. simpl.
    destruct rest as [|c rest].
    + rewrite app_nil_r. by rewrite lookup_ge_None_2.
    + rewrite list_lookup_middle by done. fold (Spec.runByte c). by rewrite Hrest.
  - simpl in Hr. apply andb_true_iff in Hr as [Hb Hr].
    destruct n; [simpl in Hn; lia|]. simpl.
    rewrite list_lookup_middle by done. fold (Spec.runByte b). rewrite Hb.
    specialize (IH n (pre ++ [b]) rest Hr Hrest).
    rewrite length_app in IH. simpl in IH. rewrite <- app_assoc in IH. simpl in IH.
    replace (S (length pre)) with (length pre + 1)%nat by lia.
    rewrite IH by (simpl in Hn; lia). lia.
Qed.

Lemma candidatesFrom_starts cur pos s c :
  c ∈ Spec.candidatesFrom cur pos s ->
  match cur with Some (start, _) => (start <= pos)%nat | None => True end ->
  (match cur with Some (start, _) => start | None => pos end <= c.1)%nat.
Proof.
  revert cur pos. induction s as [|b t IH]; intros cur pos Hc Hcur; simpl in Hc.
  - destruct cur as [[start run]|]; [|by apply elem_of_nil in Hc].
    apply list_elem_of_singleton in Hc. by subst.
  - destruct cur as [[start run]|].
    + destruct (Spec.runByte b).
      * apply IH in Hc; simpl in *; lia.
      * apply elem_of_cons in Hc as [->|Hc]; [done|].
        apply IH in Hc; simpl in *; lia.
    + destruct (handlers.isAlphanumeric b); apply IH in Hc; simpl in *; lia.
Qed.

Lemma find_none_late bound accept len cands :
  (forall c, c ∈ cands -> Z.of_nat len - bound <= Z.of_nat c.1) ->
  Spec.firstAccepted bound accept len cands = None.
Proof.
  intros Hlate. unfold Spec.firstAccepted.
  induction cands as [|c cands IH]; simpl; [done|].
  destruct (Z.ltb_spec (Z.of_nat c.1) (Z.of_nat len - bound)).
  - specialize (Hlate c ltac:(left)). lia.
  - simpl. apply IH. intros c' Hc'. apply Hlate. by right.
Qed.

Lemma candidate_slice (data pre run rest : list byte) :
  data = pre ++ run ++ rest ->
  take (length pre + length run - length pre) (drop (length pre) data) = run.
Proof.
  intros ->. rewrite drop_app_length.
  replace (length pre + length run - length pre)%nat with (length run) by lia.
  by rewrite take_app_length.
Qed.

Lemma scanLoop_candidates bound accept (data : list byte) :
  0 <= bound ->
  forall fuel pre s,
    data = pre ++ s ->
    (length s < fuel)%nat ->
    handlers.scanLoop bound accept fuel data (length pre)
    = (fun c => string_of_bytes c.2)
        <$> Spec.firstAccepted bound accept (length data) (Spec.candidatesFrom None (length pre) s).
Proof.
  intros Hbound fuel. induction fuel as [|fuel IH]; intros pre s Hdata Hfuel; [lia|].
  cbn [handlers.scanLoop].
  destruct (Z.ltb_spec (Z.of_nat (length pre)) (Z.of_nat (length data) - bound)) as [Hin|Hout].
  2:{ rewrite find_none_late; [done|]. intros c Hc.
      apply candidatesFrom_starts in Hc; [|done]. simpl in Hc. lia. }
  destruct s as [|b t].
  { rewrite app_nil_r in Hdata. subst. lia. }
  assert (data !! length pre = Some b) as -> by (subst data; by rewrite list_lookup_middle).
  cbn [Spec.candidatesFrom].
  destruct (handlers.isAlphanumeric b) eqn:Hb.
  - destruct (takeWhile_spec t) as (r & rest & -> & Hr & Hrest).
    assert (forallb Spec.runByte (b :: r) = true) as Hbr.
    { simpl. unfold Spec.runByte at 1. by rewrite Hb, Hr. }
    assert (handlers.runEnd (length data) data (length pre)
            = (length pre + length (b :: r))%nat) as ->.
    { rewrite Hdata at 2. apply (runEnd_run (b :: r) _ pre rest); [done|done|].
      rewrite Hdata, length_app. simpl. rewrite length_app. lia. }
    rewrite (candidate_slice data pre (b :: r) rest) by done.
    rewrite (candidatesFrom_run r) by done. cbn [app].
    assert (Spec.firstAccepted bound accept (length data)
              (Spec.candidatesFrom (Some (length pre, b :: r)) (S (length pre) + length r) rest)
            = if accept (b :: r) then Some (length pre, b :: r)
              else Spec.firstAccepted bound accept (length data)
                     (Spec.candidatesFrom None (S (length pre + length (b :: r))) (tail rest)))
      as ->.
    { unfold Spec.firstAccepted. destruct rest as [|c rest]; cbn [Spec.candidatesFrom tail].
      - simpl. destruct (Z.ltb_spec (Z.of_nat (length pre)) (Z.of_nat (length data) - bound));
          [|lia]. simpl. by destruct (accept (b :: r)).
      - rewrite Hrest. simpl.
        destruct (Z.ltb_spec (Z.of_nat (length pre)) (Z.of_nat (length data) - bound));
          [|lia]. simpl. destruct (accept (b :: r)); [done|].
        do 2 f_equal. lia. }
    destruct (accept (b :: r)); [done|].
    destruct rest as [|c rest]; cbn [tail].
    + destruct fuel; [done|]. cbn [handlers.scanLoop Spec.candidatesFrom].
      destruct (Z.ltb_spec (Z.of_nat (S (length pre + length (b :: r))))
                           (Z.of_nat (length data) - bound)); [|done].
      rewrite Hdata, length_app in *. simpl in *. rewrite length_app in *. simpl in *. lia.
    + assert (S (length pre + length (b :: r)) = length (pre ++ (b :: r) ++ [c])) as ->.
      { rewrite !length_app. simpl. lia. }
      apply IH.
      * rewrite Hdata. by rewrite <- !app_assoc.
      * simpl in Hfuel. rewrite length_app in Hfuel. simpl in Hfuel. lia.
  - assert (S (length pre) = length (pre ++ [b])) as ->.
    { rewrite length_app. simpl. lia. }
    apply IH; [by rewrite <- app_assoc|simpl in Hfuel; lia].
Qed.

Lemma first_cyrillic_lead v :
  0xD0 <= v <= 0xEF ->
  exists sz lo hi, utf8.first v = Some (sz, lo, hi) /\ 0x80 <= lo /\ hi <= 0xBF.
Proof.
  intros Hv. unfold utf8.first.
  split_comparisons; try lia; do 3 eexists; (split; [reflexivity|lia]).
Qed.

Lemma runByte_cases (b : byte) :
  Spec.runByte b = true ->
  (handlers.isAlphanumeric b = true /\ byte_val b < 0x80)
  \/ (handlers.isAlphanumeric b = false /\ 0xD0 <= byte_val b <= 0xEF).
Proof.
  unfold Spec.runByte, handlers.isAlphanumeric, handlers.isCyrillic.
  split_comparisons; intros; try discriminate; lia.
Qed.

Lemma range_of_run (run : list byte) :
  forallb Spec.runByte run = true ->
  utf8.range (string_of_bytes run) = Spec.runeOfRunByte <$> run.
Proof.
  induction run as [|b t IH]; [done|].
  cbn [forallb]. intros [Hb Ht]%andb_true_iff.
  unfold string_of_bytes in *. cbn [string_of_list_ascii]. rewrite fmap_cons.
  unfold Spec.runeOfRunByte at 1.
  destruct (runByte_cases b Hb) as [[_ Hlow]|[_ Hcyr]].
  - rewrite range_ascii by done.
    destruct (Z.ltb_spec (byte_val b) 128); [|lia]. by rewrite IH.
  - destruct (Z.ltb_spec (byte_val b) 128); [lia|].
    rewrite <- IH by done. unfold utf8.range. cbn [utf8.range_from].
    assert (utf8.DecodeRuneInString (String b (string_of_list_ascii t))
            = (utf8.RuneError, 1%nat)) as ->; [|done].
    unfold utf8.DecodeRuneInString. unfold utf8.RuneSelf.
    destruct (Z.ltb_spec (byte_val b) 128); [lia|].
    destruct (first_cyrillic_lead _ Hcyr) as (sz & lo & hi & -> & Hlo & Hhi).
    destruct t as [|c t]; [done|]. cbn [string_of_list_ascii].
    cbn [forallb] in Ht. apply andb_true_iff in Ht as [Hc _].
    assert ((byte_val c <? lo) || (hi <? byte_val c) = true) as ->; [|done].
    destruct (runByte_cases c Hc) as [[_ ?]|[_ ?]]; apply orb_true_iff;
      [left|right]; apply Z.ltb_lt; lia.
Qed.

Lemma existsb_fmap {A B} (f : A -> B) (p : B -> bool) (l : list A) :
  existsb p (f <$> l) = existsb (fun x => p (f x)) l.
Proof. induction l as [|x l IH]; [done|]. rewrite fmap_cons. cbn [existsb]. by rewrite IH. Qed.

Lemma forallb_fmap {A B} (f : A -> B) (p : B -> bool) (l : list A) :
  forallb p (f <$> l) = forallb (fun x => p (f x)) l.
Proof. induction l as [|x l IH]; [done|]. rewrite fmap_cons. cbn [forallb]. by rewrite IH. Qed.

Lemma existsb_ext_in {A} (p q : A -> bool) (l : list A) :
  (forall x, x ∈ l -> p x = q x) -> existsb p l = existsb q l.
Proof.
  induction l as [|x l IH]; intros Hpq; simpl; [done|].
  rewrite Hpq by left. rewrite IH; [done|]. intros y Hy. apply Hpq. by right.
Qed.

Lemma forallb_ext_in {A} (p q : A -> bool) (l : list A) :
  (forall x, x ∈ l -> p x = q x) -> forallb p l = forallb q l.
Proof.
  induction l as [|x l IH]; intros Hpq; simpl; [done|].
  rewrite Hpq by left. rewrite IH; [done|]. intros y Hy. apply Hpq. by right.
Qed.

Lemma accept_qualifies (run : list byte) :
  forallb Spec.runByte run = true ->
  handlers.acceptLong run = Spec.qualifiesLong run
  /\ handlers.acceptShort run = Spec.qualifiesShort run.
Proof.
  intros Hrun.
  unfold handlers.acceptLong, handlers.acceptShort, Spec.qualifiesLong, Spec.qualifiesShort.
  unfold handlers.containsDigit, handlers.isOnlyAlphanumeric.
  rewrite range_of_run by done. rewrite existsb_fmap, forallb_fmap.
  assert (existsb (fun x => (48 <=? Spec.runeOfRunByte x) && (Spec.runeOfRunByte x <=? 57)) run
          = existsb Spec.isDigit run) as ->.
  { apply existsb_ext_in. intros b _. unfold Spec.runeOfRunByte, Spec.isDigit, utf8.RuneError.
    destruct (Z.ltb_spec (byte_val b) 128); split_comparisons; first [done|lia]. }
  assert (forallb (fun x => (97 <=? Spec.runeOfRunByte x) && (Spec.runeOfRunByte x <=? 122)
                            || (65 <=? Spec.runeOfRunByte x) && (Spec.runeOfRunByte x <=? 90)
                            || (48 <=? Spec.runeOfRunByte x) && (Spec.runeOfRunByte x <=? 57)) run
          = forallb handlers.isAlphanumeric run) as ->; [|done].
  apply forallb_ext_in. intros b _.
  unfold Spec.runeOfRunByte, handlers.isAlphanumeric, utf8.RuneError.
  destruct (Z.ltb_spec (byte_val b) 128); split_comparisons; first [done|lia].
Qed.

Lemma candidatesFrom_runBytes s : forall cur pos c,
  match cur with Some (_, run) => forallb Spec.runByte run = true | None => True end ->
  c ∈ Spec.candidatesFrom cur pos s -> forallb Spec.runByte c.2 = true.
Proof.
  induction s as [|b t IH]; intros cur pos c Hcur Hc; simpl in Hc.
  - destruct cur as [[start run]|]; [|by apply elem_of_nil in Hc].
    apply list_elem_of_singleton in Hc. by subst.
  - destruct cur as [[start run]|].
    + destruct (Spec.runByte b) eqn:Hb.
      * eapply IH; [|exact Hc]. simpl. rewrite forallb_app, Hcur. simpl. by rewrite Hb.
      * apply elem_of_cons in Hc as [->|Hc]; [done|]. by eapply IH; [|exact Hc].
    + destruct (handlers.isAlphanumeric b) eqn:Hb.
      * eapply IH; [|exact Hc]. simpl. unfold Spec.runByte. by rewrite Hb.
      * by eapply IH; [|exact Hc].
Qed.

Lemma find_ext_in {A} (p q : A -> bool) (l : list A) :
  (forall x, x ∈ l -> p x = q x) -> List.find p l = List.find q l.
Proof.
  induction l as [|x l IH]; intros Hpq; simpl; [done|].
  rewrite Hpq by left. rewrite IH; [done|]. intros y Hy. apply Hpq. by right.
Qed.

Lemma find_and_later {A} (p q : A -> bool) (l : list A) x :
  List.find p l = Some x -> q x = true -> List.find (fun y => q y && p y) l = Some x.
Proof.
  induction l as [|y l IH]; simpl; [done|].
  destruct (p y) eqn:Hp.
  - intros [= ->] Hq. by rewrite Hq.
  - intros Hf Hq. rewrite andb_false_r. by apply IH.
Qed.

Lemma find_and_none {A} (p q : A -> bool) (l : list A) :
  List.find p l = None -> List.find (fun y => q y && p y) l = None.
Proof.
  induction l as [|y l IH]; simpl; [done|].
  destruct (p y) eqn:Hp; [done|]. intros Hf. rewrite andb_false_r. by apply IH.
Qed.

Lemma scanLoop_first bound accept q (data : list byte) :
  0 <= bound ->
  (forall run, forallb Spec.runByte run = true -> accept run = q run) ->
  (forall c, Spec.firstCandidate q data = Some c ->
             Z.of_nat c.1 < Z.of_nat (length data) - bound ->
             handlers.scanLoop bound accept (S (length data)) data 0
             = Some (string_of_bytes c.2))
  /\ (Spec.firstCandidate q data = None ->
      handlers.scanLoop bound accept (S (length data)) data 0 = None).
Proof.
  intros Hbound Hacc.
  pose proof (scanLoop_candidates bound accept data Hbound (S (length data)) [] data
                eq_refl ltac:(lia)) as Hloop.
  change (length (@nil byte)) with 0%nat in Hloop.
  fold (Spec.candidates data) in Hloop. rewrite Hloop. unfold Spec.firstAccepted.
  assert (forall c, c ∈ Spec.candidates data -> accept c.2 = q c.2) as Hq.
  { intros c Hc. apply Hacc. by eapply (candidatesFrom_runBytes data None 0%nat). }
  rewrite (find_ext_in _ (fun c => (Z.of_nat c.1 <? Z.of_nat (length data) - bound) && q c.2))
    by (intros c Hc; by rewrite Hq).
  unfold Spec.firstCandidate. split.
  - intros c Hc Hin.
    rewrite (find_and_later _ (fun c => Z.of_nat c.1 <? Z.of_nat (length data) - bound) _ c Hc);
      [done|]. by apply Z.ltb_lt.
  - intros Hnone. by rewrite find_and_none.
Qed.

Lemma findUserComment_first (data : list byte) :
  (forall c, Spec.firstCandidate Spec.qualifiesLong data = Some c ->
             (c.1 + 10 < length data)%nat ->
             handlers.findUserComment data = string_of_bytes c.2)
  /\ (Spec.firstCandidate Spec.qualifiesLong data = None ->
      forall c, Spec.firstCandidate Spec.qualifiesShort data = Some c ->
                (c.1 + 8 < length data)%nat ->
                handlers.findUserComment data = string_of_bytes c.2)
  /\ (Spec.firstCandidate Spec.qualifiesLong data = None ->
      Spec.firstCandidate Spec.qualifiesShort data = None ->
      handlers.findUserComment data = EmptyString).
Proof.
  destruct (scanLoop_first 10 handlers.acceptLong Spec.qualifiesLong data) as [Hl1 Hl2];
    [lia|intros run Hrun; by apply accept_qualifies|].
  destruct (scanLoop_first 8 handlers.acceptShort Spec.qualifiesShort data) as [Hs1 Hs2];
    [lia|intros run Hrun; by apply accept_qualifies|].
  unfold handlers.findUserComment. repeat split.
  - intros c Hc Hin. rewrite (Hl1 c Hc); [done|lia].
  - intros Hnone c Hc Hin. rewrite (Hl2 Hnone), (Hs1 c Hc); [done|lia].
  - intros Hnl Hns. by rewrite (Hl2 Hnl), (Hs2 Hns).
Qed.

Lemma uint16At_be16 (pre more : list byte) n :
  0 <= n <= 0xFFFF ->
  handlers.uint16At (pre ++ Spec.be16 n ++ more) (length pre) = Some n.
Proof.
  intros Hn. unfold handlers.uint16At, Spec.be16. cbn [app].
  rewrite list_lookup_middle by done.
  rewrite (lookup_app_r pre) by lia.
  replace (length pre + 1 - length pre)%nat with 1%nat by lia. cbn [lookup list_lookup].
  rewrite byte_val_of by (Z.div_mod_to_equations; lia).
  assert (byte_val (byte_of n) = n mod 256) as ->.
  { unfold byte_val, byte_of. rewrite N_ascii_embedding by (Z.div_mod_to_equations; lia).
    rewrite Z2N.id by (Z.div_mod_to_equations; lia). done. }
  rewrite Z.shiftl_mul_pow2 by lia.
  rewrite (lor_add _ _ 8) by (change (2 ^ 8) with 256; Z.div_mod_to_equations; lia).
  f_equal. change (2 ^ 8) with 256. Z.div_mod_to_equations; lia.
Qed.

Lemma segment_length marker body :
  length (Spec.segment marker body) = (4 + length body)%nat.
Proof. reflexivity. Qed.

Lemma segment_lookup (pre more : list byte) marker body :
  (pre ++ Spec.segment marker body ++ more) !! length pre = Some (byte_of 0xFF)
  /\ (pre ++ Spec.segment marker body ++ more) !! (length pre + 1)%nat = Some (byte_of marker).
Proof.
  unfold Spec.segment. cbn [app]. split.
  - by rewrite list_lookup_middle.
  - rewrite lookup_app_r by lia.
    by replace (length pre + 1 - length pre)%nat with 1%nat by lia.
Qed.

Lemma segment_uint16 (pre more : list byte) marker body :
  2 + Z.of_nat (length body) <= 0xFFFF ->
  handlers.uint16At (pre ++ Spec.segment marker body ++ more) (length pre + 2)
  = Some (2 + Z.of_nat (length body)).
Proof.
  intros Hlen. unfold Spec.segment.
  replace (length pre + 2)%nat with (length (pre ++ [byte_of 255; byte_of marker]))
    by (rewrite length_app; simpl; lia).
  rewrite <- !app_assoc, (app_assoc pre). apply uint16At_be16. lia.
Qed.

Lemma walk_skip fuel (data pre more : list byte) seg :
  Spec.skippable seg ->
  data = pre ++ Spec.segment seg.1 seg.2 ++ more ->
  handlers.walkSegments (S fuel) data (length pre)
  = handlers.walkSegments fuel data (length (pre ++ Spec.segment seg.1 seg.2)).
Proof.
  intros (Hm & Hff & He1 & Hlen) Hdata. cbn [handlers.walkSegments].
  assert (length data = (length pre + 4 + length seg.2 + length more)%nat) as Hl.
  { rewrite Hdata, !length_app, segment_length. lia. }
  destruct (Z.ltb_spec (Z.of_nat (length pre)) (Z.of_nat (length data) - 1)); [|lia].
  destruct (segment_lookup pre more seg.1 seg.2) as [H0 H1].
  rewrite <- Hdata in H0, H1. rewrite H0, H1. clear H0 H1.
  rewrite !byte_val_of by lia. cbn [Z.eqb negb].
  destruct (Z.eqb_spec seg.1 255); [done|]. destruct (Z.eqb_spec seg.1 225); [done|].
  assert (handlers.uint16At data (length pre + 2) = Some (2 + Z.of_nat (length seg.2))) as ->.
  { rewrite Hdata. by apply segment_uint16. }
  destruct (Z.ltb_spec (2 + Z.of_nat (length seg.2)) 2); [lia|].
  f_equal. rewrite length_app, segment_length. lia.
Qed.

Lemma walk_exif fuel (data pre payload rest : list byte) :
  2 + Z.of_nat (length (handlers.exifHeader ++ payload)) <= 0xFFFF ->
  data = pre ++ Spec.segment 0xE1 (handlers.exifHeader ++ payload) ++ rest ->
  handlers.walkSegments (S fuel) data (length pre)
  = let comment := handlers.findUserComment (handlers.exifHeader ++ payload) in
    if negb (String.eqb comment EmptyString) then Some comment
    else handlers.walkSegments fuel data
           (length (pre ++ Spec.segment 0xE1 (handlers.exifHeader ++ payload))).
Proof.
  intros Hlen Hdata. cbn [handlers.walkSegments].
  set (D := handlers.exifHeader ++ payload) in *.
  assert (length D = (6 + length payload)%nat) as HD by reflexivity.
  assert (length data = (length pre + 4 + length D + length rest)%nat) as Hl.
  { rewrite Hdata, !length_app, segment_length. lia. }
  destruct (Z.ltb_spec (Z.of_nat (length pre)) (Z.of_nat (length data) - 1)); [|lia].
  destruct (segment_lookup pre rest 0xE1 D) as [H0 H1].
  rewrite <- Hdata in H0, H1. rewrite H0, H1. clear H0 H1.
  rewrite !byte_val_of by lia. cbn [Z.eqb negb Pos.eqb].
  assert (handlers.uint16At data (length pre + 2) = Some (2 + Z.of_nat (length D))) as ->.
  { rewrite Hdata. by apply segment_uint16. }
  destruct (Z.ltb_spec (2 + Z.of_nat (length D)) 2); [lia|].
  replace (Z.to_nat (2 + Z.of_nat (length D))) with (2 + length D)%nat by lia.
  destruct (Nat.ltb_spec (length data) (length pre + 2 + (2 + length D))); [lia|].
  cbn [orb].
  destruct (Nat.leb_spec (length pre + 2 + 6) (length data)); [|lia].
  destruct (Nat.ltb_spec (length data) (length pre + 2 + 8)); [lia|].
  assert (drop (length pre + 2 + 2) data = D ++ rest) as Hdrop.
  { rewrite Hdata. unfold Spec.segment.
    replace (length pre + 2 + 2)%nat
      with (length (pre ++ [byte_of 255; byte_of 225] ++ Spec.be16 (2 + Z.of_nat (length D))))
      by (rewrite !length_app; simpl; lia).
    rewrite <- !app_assoc. rewrite !app_assoc. rewrite <- (app_assoc _ D rest).
    by rewrite drop_app_length. }
  rewrite Hdrop.
  assert (take 6 (D ++ rest) = handlers.exifHeader) as -> by reflexivity.
  assert (handlers.bytes_eqb handlers.exifHeader handlers.exifHeader = true) as ->
    by reflexivity.
  replace (2 + length D - 2)%nat with (length D) by lia.
  rewrite take_app_length. cbn zeta.
  destruct (negb (String.eqb (handlers.findUserComment D) EmptyString)); [done|].
  f_equal. rewrite length_app, segment_length. lia.
Qed.

Lemma walk_end fuel (data : list byte) :
  handlers.walkSegments fuel data (length data) = Some EmptyString.
Proof.
  destruct fuel; [done|]. cbn [handlers.walkSegments].
  destruct (Z.ltb_spec (Z.of_nat (length data)) (Z.of_nat (length data) - 1)); [lia|done].
Qed.

Lemma walk_skipped (skipped : list (Z * list byte)) : forall fuel (data pre more : list byte),
  Forall Spec.skippable skipped ->
  data = pre ++ concat ((fun seg => Spec.segment seg.1 seg.2) <$> skipped) ++ more ->
  handlers.walkSegments (length skipped + fuel) data (length pre)
  = handlers.walkSegments fuel data
      (length (pre ++ concat ((fun seg => Spec.segment seg.1 seg.2) <$> skipped))).
Proof.
  induction skipped as [|seg skipped IH]; intros fuel data pre more Hskip Hdata.
  - simpl. by rewrite app_nil_r.
  - apply Forall_cons in Hskip as [Hseg Hskip].
    rewrite fmap_cons in *. cbn [concat length Nat.add] in *.
    rewrite (walk_skip _ data pre (concat ((fun seg => Spec.segment seg.1 seg.2) <$> skipped) ++ more) seg);
      [|done|by rewrite Hdata, <- !app_assoc].
    rewrite (IH fuel data (pre ++ Spec.segment seg.1 seg.2) more Hskip);
      [|by rewrite Hdata, <- !app_assoc].
    by rewrite <- !app_assoc.
Qed.

Lemma jpegWithExif_length skipped exifData rest :
  (length skipped + 2 <= length (Spec.jpegWithExif skipped exifData rest))%nat.
Proof.
  unfold Spec.jpegWithExif. rewrite !length_app. cbn [length].
  assert (length skipped <= length (concat ((fun seg => Spec.segment seg.1 seg.2) <$> skipped)))%nat;
    [|lia].
  induction skipped as [|seg skipped IH]; [done|].
  rewrite fmap_cons. cbn [concat]. rewrite length_app, segment_length. simpl. lia.
Qed.

Lemma extract_jpegWithExif (skipped : list (Z * list byte)) (payload rest : list byte) :
  Forall Spec.skippable skipped ->
  2 + Z.of_nat (length (handlers.exifHeader ++ payload)) <= 0xFFFF ->
  handlers.extractUserCommentFromEXIF
    (Spec.jpegWithExif skipped (handlers.exifHeader ++ payload) rest)
  = let comment := handlers.findUserComment (handlers.exifHeader ++ payload) in
    if negb (String.eqb comment EmptyString) then Some comment
    else if decide (rest = []) then Some EmptyString
    else handlers.walkSegments
           (length (Spec.jpegWithExif skipped (handlers.exifHeader ++ payload) rest)
            - length skipped - 1)
           (Spec.jpegWithExif skipped (handlers.exifHeader ++ payload) rest)
           (length (Spec.jpegWithExif skipped (handlers.exifHeader ++ payload) []) ).
Proof.
  intros Hskip Hlen.
  set (D := handlers.exifHeader ++ payload) in *.
  set (data := Spec.jpegWithExif skipped D rest).
  pose proof (jpegWithExif_length skipped D rest) as Hl. fold data in Hl.
  unfold handlers.extractUserCommentFromEXIF.
  assert (exists t, data = byte_of 255 :: byte_of 216 :: t) as [t Ht] by (by eexists).
  rewrite Ht at 1. rewrite !byte_val_of by lia. cbn [Z.eqb Pos.eqb negb orb].
  replace (length data) with (length skipped + S (length data - length skipped - 1))%nat by lia.
  rewrite (walk_skipped skipped _ data [byte_of 255; byte_of 216] (Spec.segment 225 D ++ rest));
    [|done|done].
  rewrite (walk_exif _ data _ payload rest); [|done|by rewrite <- !app_assoc].
  fold D. cbn zeta.
  destruct (negb (String.eqb (handlers.findUserComment D) EmptyString)); [done|].
  case_decide as Hrest.
  - match goal with
    | |- handlers.walkSegments _ _ ?n = _ =>
        replace n with (length data); [apply walk_end|]
    end.
    subst rest. unfold data, Spec.jpegWithExif. rewrite !length_app. simpl. lia.
  - f_equal; [lia|]. unfold Spec.jpegWithExif. rewrite !length_app. simpl. lia.
Qed.

(** C3, as the code has it.  For a buffer that begins with [0xFF 0xD8] and
    holds, after segments the walk passes over, an APP1 segment with the
    Exif signature, the scanner returns the first candidate of the segment
    data of length 10 or more with a digit, where a candidate begins at an
    ASCII letter or digit and extends over ASCII letters, digits and bytes
    0xD0-0xEF; with no such candidate, the first candidate of length 8 or 9
    that is ASCII letters and digits only and has a digit; with neither, and
    nothing after the segment, the empty string.  The candidate returned is
    one that begins more than 10 (8) bytes before the end of the data. *)
Theorem scanner_returns_first_candidate
    (skipped : list (Z * list byte)) (payload rest : list byte) :
  Forall Spec.skippable skipped ->
  2 + Z.of_nat (length (handlers.exifHeader ++ payload)) <= 0xFFFF ->
  let data := handlers.exifHeader ++ payload in
  let buffer := Spec.jpegWithExif skipped data rest in
  (forall c, Spec.firstCandidate Spec.qualifiesLong data = Some c ->
             (c.1 + 10 < length data)%nat ->
             handlers.extractUserCommentFromEXIF buffer = Some (string_of_bytes c.2))
  /\ (Spec.firstCandidate Spec.qualifiesLong data = None ->
      forall c, Spec.firstCandidate Spec.qualifiesShort data = Some c ->
                (c.1 + 8 < length data)%nat ->
                handlers.extractUserCommentFromEXIF buffer = Some (string_of_bytes c.2))
  /\ (Spec.firstCandidate Spec.qualifiesLong data = None ->
      Spec.firstCandidate Spec.qualifiesShort data = None ->
      rest = [] ->
      handlers.extractUserCommentFromEXIF buffer = Some EmptyString).
Proof.
  intros Hskip Hlen data buffer.
  pose proof (extract_jpegWithExif skipped payload rest Hskip Hlen) as Hex.
  fold data in Hex. fold buffer in Hex. cbn zeta in Hex.
  destruct (findUserComment_first data) as (Hlong & Hshort & Hnone).
  assert (forall (q : list byte -> bool) c,
             (forall run, q run = true -> (8 <= length run)%nat) ->
             Spec.firstCandidate q data = Some c ->
             negb (String.eqb (string_of_bytes c.2) EmptyString) = true) as Hne.
  { intros q c Hq Hc. apply find_some in Hc as [_ Hc]. apply Hq in Hc.
    destruct c.2 as [|b run]; [simpl in Hc; lia|done]. }
  repeat split.
  - intros c Hc Hin. rewrite Hex, (Hlong c Hc Hin).
    rewrite (Hne Spec.qualifiesLong c); [done| |done].
    intros run [Hr _]%andb_true_iff. apply Nat.leb_le in Hr. lia.
  - intros Hnl c Hc Hin. rewrite Hex, (Hshort Hnl c Hc Hin).
    rewrite (Hne Spec.qualifiesShort c); [done| |done].
    intros run Hr. unfold Spec.qualifiesShort in Hr.
    repeat (apply andb_true_iff in Hr as [Hr _]). by apply Nat.leb_le in Hr.
  - intros Hnl Hns ->. rewrite Hex, (Hnone Hnl Hns). reflexivity.
Qed.

End ScannerProperties.


(** The scenario: after a JFIF segment, Exif data that embed the run
    [ABC1234567] between blanks yield that run. *)
Lemma scanner_returns_first_candidate_example :
  handlers.extractUserCommentFromEXIF Fixtures.jfifThenExif = Some "ABC1234567"%string.
Proof.
  assert (Forall Spec.skippable [Fixtures.jfifSegment]) as Hskip.
  { repeat constructor; cbn; lia. }
  assert (2 + Z.of_nat (length (handlers.exifHeader ++ Fixtures.commentPayload)) <= 0xFFFF) as Hlen.
  { cbn. lia. }
  destruct (scanner_returns_first_candidate [Fixtures.jfifSegment] Fixtures.commentPayload [] Hskip Hlen)
    as [Hlong _].
  apply (Hlong (8%nat, bytes_of_string "ABC1234567")).
  - reflexivity.
  - cbn. lia.
Defined.

(** A candidate begins at an ASCII letter or digit: of the run behind the
    byte [0xD0] the scanner returns the ASCII part, which is neither the
    first maximal run of length ten or more when a Cyrillic letter is a
    byte the scanner takes for one, nor when it is a character. *)
Lemma scanner_starts_at_ascii :
  handlers.extractUserCommentFromEXIF Fixtures.cyrillicBuffer = Some "ABC1234567"%string
  /\ Spec.claimedComment Fixtures.cyrillicData
     = string_of_bytes ([byte_of 0xD0] ++ bytes_of_string "ABC1234567")
  /\ Spec.claimedCommentOfCharacters Fixtures.cyrillicData
     = string_of_bytes ((byte_of <$> [0xD0; 0x90; 0xD0; 0x91; 0xD0; 0x92])
                        ++ bytes_of_string "1234567")
  /\ handlers.extractUserCommentFromEXIF Fixtures.cyrillicBuffer
     <> Some (Spec.claimedComment Fixtures.cyrillicData)
  /\ handlers.extractUserCommentFromEXIF Fixtures.cyrillicBuffer
     <> Some (Spec.claimedCommentOfCharacters Fixtures.cyrillicData).
Proof. split_and!; [by vm_compute..| |]; vm_compute; discriminate. Qed.

(** The run of the scenario at the very end of the Exif data is not
    returned. *)
Lemma scanner_misses_run_at_end :
  Fixtures.runAtEndBuffer
  = (byte_of <$> [0xFF; 0xD8; 0xFF; 0xE1; 0x00; 0x12])
    ++ bytes_of_string "Exif" ++ [byte_of 0; byte_of 0] ++ bytes_of_string "ABC1234567"
  /\ Spec.maximalRuns Fixtures.runAtEndData
     = [bytes_of_string "Exif"; bytes_of_string "ABC1234567"]
  /\ Spec.claimedComment Fixtures.runAtEndData = "ABC1234567"%string
  /\ handlers.extractUserCommentFromEXIF Fixtures.runAtEndBuffer = Some EmptyString
  /\ handlers.extractUserCommentFromEXIF Fixtures.runAtEndBuffer
     <> Some (Spec.claimedComment Fixtures.runAtEndData).
Proof. split_and!; [by vm_compute..|]. vm_compute. discriminate. Qed.

(** A run of ten characters with Cyrillic letters is not returned either:
    the second byte of a Cyrillic letter ends a candidate, and a candidate
    begins at an ASCII letter or digit only. *)
Lemma scanner_breaks_at_cyrillic_letter :
  handlers.extractUserCommentFromEXIF Fixtures.cyrillicRunBuffer = Some EmptyString
  /\ Spec.candidates Fixtures.cyrillicRunData
     = [(0%nat, bytes_of_string "Exif"); (12%nat, bytes_of_string "1234567")].
Proof. split; by vm_compute. Qed.

(** ** Integers as [float64] *)

Section FloatProperties.

Lemma digits2_pos_bounds (m : positive) :
  2 ^ (Z.pos (digits2_pos m) - 1) <= Z.pos m < 2 ^ Z.pos (digits2_pos m).
Proof.
  induction m as [m IH|m IH|]; cbn [digits2_pos].
  - rewrite Pos2Z.inj_succ. replace (Z.succ (Z.pos (digits2_pos m)) - 1) with (Z.pos (digits2_pos m)) by lia.
    rewrite Z.pow_succ_r by lia.
    replace (2 ^ Z.pos (digits2_pos m)) with (2 * 2 ^ (Z.pos (digits2_pos m) - 1)) in *
      by (rewrite <- Z.pow_succ_r by lia; f_equal; lia).
    lia.
  - rewrite Pos2Z.inj_succ. replace (Z.succ (Z.pos (digits2_pos m)) - 1) with (Z.pos (digits2_pos m)) by lia.
    rewrite Z.pow_succ_r by lia.
    replace (2 ^ Z.pos (digits2_pos m)) with (2 * 2 ^ (Z.pos (digits2_pos m) - 1)) in *
      by (rewrite <- Z.pow_succ_r by lia; f_equal; lia).
    lia.
  - simpl. lia.
Qed.

Lemma digits2_pos_le (m : positive) (k : Z) :
  0 <= k -> Z.pos m < 2 ^ k -> Z.pos (digits2_pos m) <= k.
Proof.
  intros Hk Hm. pose proof (digits2_pos_bounds m) as [Hlo _].
  destruct (Z.le_gt_cases (Z.pos (digits2_pos m)) k) as [|Hgt]; [done|].
  assert (2 ^ k <= 2 ^ (Z.pos (digits2_pos m) - 1)) by (apply Z.pow_le_mono_r; lia).
  lia.
Qed.

Lemma iter_xO_spec (k m : positive) :
  Z.pos (Pos.iter xO m k) = Z.pos m * 2 ^ Z.pos k
  /\ digits2_pos (Pos.iter xO m k) = (digits2_pos m + k)%positive.
Proof.
  revert m. induction k as [|k IH] using Pos.peano_ind; intros m.
  - simpl. split; [lia|]. lia.
  - rewrite Pos.iter_succ. destruct (IH m) as [Hv Hd].
    cbn [digits2_pos]. rewrite Hd. split; [|lia].
    rewrite Pos2Z.inj_xO, Hv, Pos2Z.inj_succ, Z.pow_succ_r by lia. lia.
Qed.

Lemma binary_round_exact (s : bool) (m : positive) :
  Z.pos m < 2 ^ 53 ->
  exists mz ez, binary_round Go.f64_prec Go.f64_emax s m 0 = S754_finite s mz ez
                /\ -52 <= ez <= 0 /\ Z.pos mz = Z.pos m * 2 ^ (- ez).
Proof.
  intros Hm.
  pose proof (digits2_pos_le m 53 ltac:(lia) Hm) as Hd.
  unfold binary_round, Go.f64_prec, Go.f64_emax.
  set (d := digits2_pos m) in *.
  assert (fexp 53 1024 (Z.pos d + 0) = Z.pos d - 53) as ->.
  { unfold fexp, emin. lia. }
  unfold shl_align.
  destruct (Z.pos d - 53 - 0) as [|k|k] eqn:Hk; [|lia|].
  - (* 53 digits *)
    exists m, 0. split; [|split; [lia|simpl; lia]].
    unfold binary_round_aux, shr_fexp. cbn [Zdigits2]. fold d.
    assert (fexp 53 1024 (Z.pos d + 0) - 0 = 0) as -> by (unfold fexp, emin; lia).
    cbn [shr shr_record_of_loc shr_m loc_of_shr_record round_nearest_even Zdigits2]. fold d.
    assert (fexp 53 1024 (Z.pos d + 0) - 0 = 0) as -> by (unfold fexp, emin; lia).
    cbn [shr shr_m]. reflexivity.
  - destruct (iter_xO_spec k m) as [Hv Hdig]. fold d in Hdig.
    exists (Pos.iter xO m k), (Z.pos d - 53).
    assert (Z.pos k = 53 - Z.pos d) as Hk' by lia.
    split; [|split; [lia|rewrite Hv; f_equal; f_equal; lia]].
    unfold binary_round_aux, shr_fexp. cbn [Zdigits2]. rewrite Hdig.
    assert (fexp 53 1024 (Z.pos (d + k) + (Z.pos d - 53)) - (Z.pos d - 53) = 0) as ->
      by (unfold fexp, emin; lia).
    cbn [shr shr_record_of_loc shr_m loc_of_shr_record round_nearest_even Zdigits2].
    rewrite Hdig.
    assert (fexp 53 1024 (Z.pos (d + k) + (Z.pos d - 53)) - (Z.pos d - 53) = 0) as ->
      by (unfold fexp, emin; lia).
    cbn [shr shr_m].
    destruct (Z.leb_spec (Z.pos d - 53) (1024 - 53)); [done|lia].
Qed.

Lemma int_of_float64_of_int (n : Z) :
  - 2 ^ 53 <= n <= 2 ^ 53 -> Go.int_of_float64 (Go.float64_of_int n) = n.
Proof.
  intros Hn.
  destruct (Z.eq_dec n (2 ^ 53)) as [->|Hhi]; [vm_compute; reflexivity|].
  destruct (Z.eq_dec n (- 2 ^ 53)) as [->|Hlo]; [vm_compute; reflexivity|].
  unfold Go.float64_of_int, binary_normalize.
  destruct n as [|m|m]; [done| |].
  - destruct (binary_round_exact false m ltac:(lia)) as (mz & ez & -> & Hez & Hmz).
    unfold Go.int_of_float64, Go.minInt64, Go.maxInt64.
    destruct (Z.leb_spec 0 ez).
    + replace ez with 0 in * by lia. simpl in Hmz.
      replace (Z.pos mz * 2 ^ 0) with (Z.pos m) by lia.
      destruct (Z.leb_spec (- 2 ^ 63) (Z.pos m)); [|lia].
      destruct (Z.leb_spec (Z.pos m) (2 ^ 63 - 1)); [done|lia].
    + rewrite Hmz, Z.div_mul by (apply Z.pow_nonzero; lia).
      destruct (Z.leb_spec (- 2 ^ 63) (Z.pos m)); [|lia].
      destruct (Z.leb_spec (Z.pos m) (2 ^ 63 - 1)); [done|lia].
  - destruct (binary_round_exact true m ltac:(lia)) as (mz & ez & -> & Hez & Hmz).
    unfold Go.int_of_float64, Go.minInt64, Go.maxInt64.
    destruct (Z.leb_spec 0 ez).
    + replace ez with 0 in * by lia. simpl in Hmz.
      replace (Z.pos mz * 2 ^ 0) with (Z.pos m) by lia.
      destruct (Z.leb_spec (- 2 ^ 63) (- Z.pos m)); [|lia].
      destruct (Z.leb_spec (- Z.pos m) (2 ^ 63 - 1)); [done|lia].
    + rewrite Hmz, Z.div_mul by (apply Z.pow_nonzero; lia).
      destruct (Z.leb_spec (- 2 ^ 63) (- Z.pos m)); [|lia].
      destruct (Z.leb_spec (- Z.pos m) (2 ^ 63 - 1)); [done|lia].
Qed.

End FloatProperties.

(** ** Dates in the layout RFC3339 *)

Section TimeProperties.

Lemma isLeap_era (y era : Z) : time.isLeap (y + era * 400) = time.isLeap y.
Proof.
  unfold time.isLeap.
  replace (y + era * 400) with (y + era * 100 * 4) at 1 by lia.
  replace (y + era * 400) with (y + era * 4 * 100) at 1 by lia.
  by rewrite !Z.mod_add by lia.
Qed.

Lemma daysIn_era (m y era : Z) : time.daysIn m (y + era * 400) = time.daysIn m y.
Proof. unfold time.daysIn. by rewrite isLeap_era. Qed.

(** The year and the day of the year within an era. *)
Lemma era_year_day (doe : Z) :
  0 <= doe < 146097 ->
  0 <= time.yearOfEra doe <= 399 /\ 0 <= time.dayOfYear doe <= 365
  /\ (time.dayOfYear doe = 365 -> time.isLeap (time.yearOfEra doe + 1) = true)
  /\ (doe < 146037 -> time.yearOfEra doe <= 398 \/ time.dayOfYear doe < 306)
  /\ (146037 <= doe -> time.yearOfEra doe = 399 /\ 306 <= time.dayOfYear doe).
Proof.
  intros Hdoe. unfold time.isLeap, time.dayOfYear, time.yearOfEra.
  split; [Z.div_mod_to_equations; lia|].
  split; [Z.div_mod_to_equations; lia|].
  split; [|split; intros ?; Z.div_mod_to_equations; lia].
  intros Hlast.
  assert (((doe - doe / 1460 + doe / 36524 - doe / 146096) / 365 + 1) mod 4 = 0
          /\ (((doe - doe / 1460 + doe / 36524 - doe / 146096) / 365 + 1) mod 100 <> 0
              \/ ((doe - doe / 1460 + doe / 36524 - doe / 146096) / 365 + 1) mod 400 = 0))
    as [H4 H100] by (Z.div_mod_to_equations; lia).
  rewrite H4. cbn [Z.eqb andb].
  destruct H100 as [H100|H400].
  - destruct (Z.eqb_spec (((doe - doe / 1460 + doe / 36524 - doe / 146096) / 365 + 1) mod 100) 0);
      [contradiction|done].
  - rewrite H400. cbn [Z.eqb]. apply orb_true_r.
Qed.

(** The month and the day of the month of a day of the year that starts on
    the 1st of March. *)
Lemma month_day (doy : Z) :
  0 <= doy <= 365 ->
  let mp := (5 * doy + 2) / 153 in
  let d := doy - (153 * mp + 2) / 5 + 1 in
  0 <= mp <= 11 /\ 1 <= d <= 31
  /\ (mp = 1 \/ mp = 3 \/ mp = 6 \/ mp = 8 -> d <= 30)
  /\ (mp = 11 -> d <= 29) /\ (mp = 11 -> d = 29 -> doy = 365)
  /\ (10 <= mp <-> 306 <= doy).
Proof. intros Hdoy. cbv zeta. Z.div_mod_to_equations. lia. Qed.

Lemma month_of_index (mp : Z) :
  0 <= mp <= 11 ->
  let m := if mp <? 10 then mp + 3 else mp - 9 in
  1 <= m <= 12
  /\ (if 2 <? m then m - 3 else m + 9) = mp
  /\ ((if m <=? 2 then 1 else 0) = 1 <-> 10 <= mp)
  /\ ((if m <=? 2 then 1 else 0) = 0 <-> mp < 10)
  /\ (m = 2 <-> mp = 11)
  /\ (m = 4 \/ m = 6 \/ m = 9 \/ m = 11 <-> mp = 1 \/ mp = 3 \/ mp = 6 \/ mp = 8).
Proof.
  intros Hmp. cbv zeta.
  destruct (Z.ltb_spec mp 10).
  - destruct (Z.ltb_spec 2 (mp + 3)); [|lia]. destruct (Z.leb_spec (mp + 3) 2); lia.
  - destruct (Z.ltb_spec 2 (mp - 9)); [lia|]. destruct (Z.leb_spec (mp - 9) 2); lia.
Qed.

Lemma civil_round_trip (z : Z) :
  let '(y, m, d) := time.civilFromDays z in
  1 <= m <= 12 /\ 1 <= d <= time.daysIn m y /\ time.daysFromCivil y m d = z
  /\ (-719528 <= z < 2932897 -> 0 <= y <= 9999).
Proof.
  unfold time.civilFromDays.
  set (z' := z + 719468). set (era := z' / 146097). set (doe := z' mod 146097).
  assert (0 <= doe < 146097) as Hdoe by (subst doe; Z.div_mod_to_equations; lia).
  assert (z = era * 146097 + doe - 719468) as Hz
    by (subst era doe z'; Z.div_mod_to_equations; lia).
  assert (-719528 <= z < 2932897 -> -1 <= era <= 24) as Hera
    by (intros ?; subst era z'; Z.div_mod_to_equations; lia).
  clearbody era doe. clear z'.
  destruct (era_year_day doe Hdoe) as (Hyoe & Hdoy & Hleap & Hearly & Hlate).
  assert (doe = 365 * time.yearOfEra doe + time.yearOfEra doe / 4
                - time.yearOfEra doe / 100 + time.dayOfYear doe) as Hdef
    by (unfold time.dayOfYear; lia).
  set (yoe := time.yearOfEra doe) in *. set (doy := time.dayOfYear doe) in *.
  clearbody yoe doy.
  destruct (month_day doy Hdoy) as (Hmp & Hd & H30 & H29 & Hfeb & Hjan).
  set (mp := (5 * doy + 2) / 153) in *.
  set (d := doy - (153 * mp + 2) / 5 + 1) in *.
  assert (doy = (153 * mp + 2) / 5 + d - 1) as Hddef by (subst d; lia).
  clearbody d mp.
  destruct (month_of_index mp Hmp) as (Hmr & Hsame & Hc1 & Hc0 & Hm2 & Hm30).
  set (m := if mp <? 10 then mp + 3 else mp - 9) in *. clearbody m.
  set (carry := if m <=? 2 then 1 else 0) in *.
  assert (carry = 0 \/ carry = 1) as Hc01 by (subst carry; destruct (m <=? 2); lia).
  assert (carry = if m <=? 2 then 1 else 0) as Hcdef by reflexivity.
  clearbody carry.
  replace (yoe + era * 400 + carry) with (yoe + carry + era * 400) by (clear; lia).
  rewrite daysIn_era.
  split; [exact Hmr|]. split; [|split].
  - split; [apply Hd|]. unfold time.daysIn.
    destruct (Z.eqb_spec m 2) as [Hfebm|Hnf].
    + assert (mp = 11) as Hmp11 by (by apply Hm2).
      assert (carry = 1) as -> by (apply Hc1; clear - Hmp11; lia).
      specialize (H29 Hmp11).
      destruct (Z.eq_dec d 29) as [Hd29|Hd29].
      * rewrite (Hleap (Hfeb Hmp11 Hd29)). clear - Hd29. lia.
      * destruct (time.isLeap (yoe + 1)); clear - H29 Hd29; lia.
    + destruct Hd as [_ Hd31].
      destruct (Z.eqb_spec m 4) as [H4|H4]; [cbn [orb]; apply H30, Hm30; clear - H4; lia|].
      destruct (Z.eqb_spec m 6) as [H6|H6]; [cbn [orb]; apply H30, Hm30; clear - H6; lia|].
      destruct (Z.eqb_spec m 9) as [H9|H9]; [cbn [orb]; apply H30, Hm30; clear - H9; lia|].
      destruct (Z.eqb_spec m 11) as [H11|H11];
        [cbn [orb]; apply H30, Hm30; clear - H11; lia|].
      exact Hd31.
  - unfold time.daysFromCivil. rewrite <- Hcdef, Hsame.
    replace (yoe + carry + era * 400 - carry) with (yoe + era * 400) by (clear; lia).
    assert ((yoe + era * 400) / 400 = era) as ->
      by (clear - Hyoe; Z.div_mod_to_equations; lia).
    replace (yoe + era * 400 - era * 400) with yoe by (clear; lia).
    rewrite <- Hddef, Hz. clear - Hdef.
    set (q4 := yoe / 4) in *. set (q100 := yoe / 100) in *. clearbody q4 q100. lia.
  - intros Hrange. specialize (Hera Hrange).
    destruct (Z.lt_ge_cases doe 146037) as [He|Hl].
    + specialize (Hearly He).
      assert (carry = 1 -> 306 <= doy) as Hcarry by (intros ?; apply Hjan, Hc1; done).
      assert (era <> -1) by (clear - Hdoe Hz Hrange He; lia).
      clear - Hearly Hcarry Hc01 Hera Hyoe H. lia.
    + destruct (Hlate Hl) as [Hy399 Hdl].
      assert (carry = 1) as Hcarry by (apply Hc1, Hjan; done).
      assert (era <> 24) by (clear - Hdoe Hz Hrange Hl; lia).
      clear - Hy399 Hcarry Hera H. lia.
Qed.


Lemma digit_val_char (d : Z) : 0 <= d <= 9 -> time.digit_val (time.digit_char d) = Some d.
Proof.
  intros Hd. unfold time.digit_val, time.digit_char.
  rewrite byte_val_of by lia.
  destruct (Z.leb_spec 48 (48 + d)); [|lia]. destruct (Z.leb_spec (48 + d) 57); [|lia].
  cbn [andb]. f_equal. lia.
Qed.

Lemma appendInt_2 (x : Z) :
  0 <= x <= 99 -> time.appendInt x 2 = [time.digit_char (x / 10); time.digit_char (x mod 10)].
Proof.
  intros Hx. unfold time.appendInt.
  destruct (Z.ltb_spec x 0); [lia|]. rewrite Z.abs_eq by lia. cbn [app].
  cbn [time.decimal_rev]. destruct (Z.ltb_spec x 10).
  - rewrite Z.div_small, Z.mod_small by lia. reflexivity.
  - destruct (Z.ltb_spec (x / 10) 10); [|Z.div_mod_to_equations; lia]. reflexivity.
Qed.

Lemma appendInt_4 (x : Z) :
  0 <= x <= 9999 ->
  time.appendInt x 4
  = [time.digit_char (x / 1000); time.digit_char (x / 100 mod 10);
     time.digit_char (x / 10 mod 10); time.digit_char (x mod 10)].
Proof.
  intros Hx. unfold time.appendInt.
  destruct (Z.ltb_spec x 0); [lia|]. rewrite Z.abs_eq by lia. cbn [app].
  cbn [time.decimal_rev].
  assert (x / 10 / 10 = x / 100) as E2 by (Z.div_mod_to_equations; lia).
  assert (x / 10 / 10 / 10 = x / 1000) as E3 by (Z.div_mod_to_equations; lia).
  destruct (Z.ltb_spec x 10).
  { replace (x / 1000) with 0 by (Z.div_mod_to_equations; lia).
    replace (x / 100) with 0 by (Z.div_mod_to_equations; lia).
    replace (x / 10) with 0 by (Z.div_mod_to_equations; lia).
    rewrite (Z.mod_small x) by lia. reflexivity. }
  destruct (Z.ltb_spec (x / 10) 10).
  { replace (x / 1000) with 0 by (Z.div_mod_to_equations; lia).
    replace (x / 100) with 0 by (Z.div_mod_to_equations; lia).
    rewrite (Z.mod_small (x / 10)) by (Z.div_mod_to_equations; lia). reflexivity. }
  rewrite E2. destruct (Z.ltb_spec (x / 100) 10).
  { replace (x / 1000) with 0 by (Z.div_mod_to_equations; lia).
    rewrite (Z.mod_small (x / 100)) by (Z.div_mod_to_equations; lia). reflexivity. }
  replace (x / 100 / 10) with (x / 1000) by (Z.div_mod_to_equations; lia).
  destruct (Z.ltb_spec (x / 1000) 10); [|Z.div_mod_to_equations; lia]. reflexivity.
Qed.

Lemma getnum_2 (a b acc : Z) (rest : list byte) :
  0 <= a <= 9 -> 0 <= b <= 9 ->
  time.getnum 2 acc (time.digit_char a :: time.digit_char b :: rest)
  = Some (10 * (10 * acc + a) + b, rest).
Proof. intros Ha Hb. cbn [time.getnum]. by rewrite !digit_val_char by done. Qed.

Lemma getnum_4 (a b c d acc : Z) (rest : list byte) :
  0 <= a <= 9 -> 0 <= b <= 9 -> 0 <= c <= 9 -> 0 <= d <= 9 ->
  time.getnum 4 acc
    (time.digit_char a :: time.digit_char b :: time.digit_char c :: time.digit_char d :: rest)
  = Some (10 * (10 * (10 * (10 * acc + a) + b) + c) + d, rest).
Proof. intros Ha Hb Hc Hd. cbn [time.getnum]. by rewrite !digit_val_char by done. Qed.

Lemma getnum_appendInt_2 (x : Z) (rest : list byte) :
  0 <= x <= 99 -> time.getnum 2 0 (time.appendInt x 2 ++ rest) = Some (x, rest).
Proof.
  intros Hx. rewrite appendInt_2 by done. cbn [app].
  rewrite getnum_2 by (Z.div_mod_to_equations; lia).
  do 2 f_equal. Z.div_mod_to_equations; lia.
Qed.

Lemma getnum_appendInt_4 (x : Z) (rest : list byte) :
  0 <= x <= 9999 -> time.getnum 4 0 (time.appendInt x 4 ++ rest) = Some (x, rest).
Proof.
  intros Hx. rewrite appendInt_4 by done. cbn [app].
  rewrite getnum_4 by (Z.div_mod_to_equations; lia).
  do 2 f_equal. Z.div_mod_to_equations; lia.
Qed.

Lemma zone_round_trip (off : Z) :
  off mod 60 = 0 -> -86400 < off < 86400 ->
  time.parseZone (time.formatZone off) = Some off.
Proof.
  intros Hmin Hrange. unfold time.formatZone.
  destruct (Z.eqb_spec off 0) as [->|Hne]; [reflexivity|].
  assert (exists zone, off = 60 * zone /\ -1440 < zone < 1440 /\ zone <> 0)
    as (zone & -> & Hzone & Hz0).
  { exists (off / 60). Z.div_mod_to_equations. lia. }
  assert (Z.quot (60 * zone) 60 = zone) as ->.
  { rewrite Z.mul_comm. apply Z.quot_mul. lia. }
  set (hh := Z.abs zone / 60). set (mm := Z.abs zone mod 60).
  assert (0 <= hh <= 23 /\ 0 <= mm <= 59 /\ Z.abs zone = hh * 60 + mm) as (Hhh & Hmm & Habs)
    by (subst hh mm; Z.div_mod_to_equations; lia).
  clearbody hh mm.
  assert (10 * (10 * 0 + hh / 10) + hh mod 10 = hh) as Ehh by (Z.div_mod_to_equations; lia).
  assert (10 * (10 * 0 + mm / 10) + mm mod 10 = mm) as Emm by (Z.div_mod_to_equations; lia).
  rewrite !appendInt_2 by lia.
  destruct (Z.ltb_spec zone 0); cbn [app time.parseZone].
  - change (Ascii.eqb "-" "+") with false. change (Ascii.eqb "-" "-") with true.
    cbn [orb]. rewrite getnum_2 by (Z.div_mod_to_equations; lia).
    cbn [mbind option_bind time.expect].
    change (Ascii.eqb ":" ":") with true. cbn [mbind option_bind].
    rewrite getnum_2 by (Z.div_mod_to_equations; lia).
    cbn [mbind option_bind]. rewrite Ehh, Emm.
    destruct (Z.ltb_spec 24 hh); [lia|]. destruct (Z.ltb_spec 60 mm); [lia|].
    cbn [orb]. f_equal. lia.
  - change (Ascii.eqb "+" "+") with true. change (Ascii.eqb "+" "-") with false.
    cbn [orb]. rewrite getnum_2 by (Z.div_mod_to_equations; lia).
    cbn [mbind option_bind time.expect].
    change (Ascii.eqb ":" ":") with true. cbn [mbind option_bind].
    rewrite getnum_2 by (Z.div_mod_to_equations; lia).
    cbn [mbind option_bind]. rewrite Ehh, Emm.
    destruct (Z.ltb_spec 24 hh); [lia|]. destruct (Z.ltb_spec 60 mm); [lia|].
    cbn [orb]. f_equal. lia.
Qed.


Lemma expect_head (c : byte) (rest : list byte) : time.expect c (c :: rest) = Some rest.
Proof. unfold time.expect. by rewrite Ascii.eqb_refl. Qed.

Lemma bytes_of_string_of_bytes (l : list byte) : bytes_of_string (string_of_bytes l) = l.
Proof. apply list_ascii_of_string_of_list_ascii. Qed.

Lemma Parse_Format (t : time.Time) :
  Spec.representable t -> time.Parse_RFC3339 (time.Format_RFC3339 t) = Some t.
Proof.
  destruct t as [u ns off]. unfold Spec.representable. cbn [time.nsec time.zoneOffset time.unixSec].
  intros (-> & Hmin & Hoff & Hrange).
  unfold time.Format_RFC3339, time.Parse_RFC3339. cbn [time.zoneOffset time.unixSec].
  set (days := (u + off) / 86400). set (secs := (u + off) mod 86400).
  assert (0 <= secs < 86400 /\ u + off = days * 86400 + secs /\ -719528 <= days < 2932897)
    as (Hsecs & Habs & Hdays) by (subst days secs; Z.div_mod_to_equations; lia).
  clearbody days secs.
  pose proof (civil_round_trip days) as Hcivil.
  destruct (time.civilFromDays days) as [[y m] d].
  destruct Hcivil as (Hm & Hd & Hback & Hy). specialize (Hy Hdays).
  set (hour := secs / 3600). set (min := secs mod 3600 / 60). set (sec := secs mod 60).
  assert (0 <= hour <= 23 /\ 0 <= min <= 59 /\ 0 <= sec <= 59
          /\ secs = hour * 3600 + min * 60 + sec) as (Hhour & Hminute & Hsec & Hclock)
    by (subst hour min sec; Z.div_mod_to_equations; lia).
  clearbody hour min sec.
  assert (1 <= d <= 31) as Hd31.
  { split; [lia|]. destruct Hd as [_ Hd]. etrans; [exact Hd|].
    unfold time.daysIn. repeat case_match; lia. }
  rewrite bytes_of_string_of_bytes.
  rewrite getnum_appendInt_4 by lia. cbn [mbind option_bind app].
  rewrite expect_head. cbn [mbind option_bind].
  rewrite getnum_appendInt_2 by lia. cbn [mbind option_bind app].
  rewrite expect_head. cbn [mbind option_bind].
  rewrite getnum_appendInt_2 by lia. cbn [mbind option_bind app].
  rewrite expect_head. cbn [mbind option_bind].
  rewrite getnum_appendInt_2 by lia. cbn [mbind option_bind app].
  rewrite expect_head. cbn [mbind option_bind].
  rewrite getnum_appendInt_2 by lia. cbn [mbind option_bind app].
  rewrite expect_head. cbn [mbind option_bind].
  rewrite getnum_appendInt_2 by lia. cbn [mbind option_bind].
  rewrite zone_round_trip by done. cbn [mbind option_bind].
  destruct (Z.ltb_spec m 1); [lia|]. destruct (Z.ltb_spec 12 m); [lia|].
  destruct (Z.ltb_spec d 1); [lia|]. destruct (Z.ltb_spec (time.daysIn m y) d); [lia|].
  destruct (Z.leb_spec 24 hour); [lia|]. destruct (Z.leb_spec 60 min); [lia|].
  destruct (Z.leb_spec 60 sec); [lia|].
  cbn [orb]. rewrite Hback. do 2 f_equal. lia.
Qed.

End TimeProperties.

(** ** The index file *)

Section PersistenceProperties.


Lemma ToValidUTF8_encodeAll (s : string) : json.ToValidUTF8 s = Spec.encodeAll (utf8.range s).
Proof. reflexivity. Qed.

Lemma canonRune_scalar r : Spec.scalarValue r = true -> Spec.canonRune r = r.
Proof. unfold Spec.canonRune. by intros ->. Qed.

Lemma ToValidUTF8_valid (s : string) : Spec.validUTF8 s -> json.ToValidUTF8 s = s.
Proof.
  intros (runes & Hrunes & ->). rewrite ToValidUTF8_encodeAll.
  rewrite range_encodeAll.
  - f_equal. induction Hrunes as [|r runes Hr _ IH]; [done|].
    by rewrite fmap_cons, canonRune_scalar, IH.
  - eapply Forall_impl; [exact Hrunes|]. intros r Hr. unfold Spec.scalarValue in Hr.
    apply andb_true_iff in Hr as [Hr _]. apply andb_true_iff in Hr as [Hr _]. lia.
Qed.

Lemma ascii_validUTF8 (s : string) : strings.isASCII s = true -> Spec.validUTF8 s.
Proof.
  intros Hs. exists (byte_val <$> bytes_of_string s). unfold strings.isASCII in Hs.
  unfold bytes_of_string in *.
  induction s as [|c t IH]; [split; [constructor|done]|].
  cbn [list_ascii_of_string forallb] in *. apply andb_true_iff in Hs as [Hc Ht].
  destruct (IH Ht) as [IH1 IH2]. rewrite fmap_cons. split.
  - constructor; [|done]. pose proof (byte_val_bounds c). apply Z.ltb_lt in Hc.
    unfold Spec.scalarValue, utf8.RuneSelf, utf8.MaxRune, utf8.surrogateMin in *.
    split_comparisons; first [done|lia].
  - unfold Spec.encodeAll in *. cbn [foldr]. rewrite <- IH2.
    unfold utf8.EncodeRune. pose proof (byte_val_bounds c). apply Z.ltb_lt in Hc.
    unfold utf8.RuneSelf in Hc.
    destruct (Z.leb_spec 0 (byte_val c)); [|lia].
    destruct (Z.leb_spec (byte_val c) 127); [|lia]. cbn [andb].
    by rewrite byte_of_val.
Qed.

Lemma foldl_insert_coerced {A B C} (f : A -> B) (g : B -> C) (l : list (string * A)) :
  forall acc : gmap string C,
  Forall (fun kv => json.ToValidUTF8 kv.1 = kv.1) l ->
  foldl (fun m kv => <[json.ToValidUTF8 kv.1 := g kv.2]> m) acc
        ((fun kv => (json.ToValidUTF8 kv.1, f kv.2)) <$> l)
  = foldl (fun m kv => <[kv.1 := g (f kv.2)]> m) acc l.
Proof.
  induction l as [|[k v] l IH]; intros acc Hl; [done|].
  apply Forall_cons in Hl as [Hk Hl]. rewrite fmap_cons. cbn [foldl fst snd] in *.
  rewrite !Hk. by apply IH.
Qed.

Lemma foldl_insert_list_to_map {C} (l : list (string * C)) :
  forall acc : gmap string C,
  NoDup l.*1 ->
  foldl (fun m kv => <[kv.1 := kv.2]> m) acc l = list_to_map l ∪ acc.
Proof.
  induction l as [|[k v] l IH]; intros acc Hnd.
  - simpl. by rewrite (left_id_L ∅ (∪)).
  - rewrite fmap_cons in Hnd. apply NoDup_cons in Hnd as [Hk Hnd].
    cbn [foldl fst snd list_to_map foldr uncurry]. rewrite IH by done.
    assert ((list_to_map l : gmap string C) !! k = None) as Hnone
      by (by apply not_elem_of_list_to_map_1).
    rewrite <- insert_union_r by done. by rewrite insert_union_l.
Qed.

Lemma unmarshal_marshal_object {A B C} (f : A -> B) (g : B -> C) (m : gmap string A) :
  (forall k, is_Some (m !! k) -> json.ToValidUTF8 k = k) ->
  json.unmarshal_object g (json.marshal_object f m) = (fun v => g (f v)) <$> m.
Proof.
  intros Hkeys. unfold json.unmarshal_object, json.marshal_object.
  rewrite foldl_insert_coerced.
  2:{ apply Forall_forall. intros [k v] Hkv. apply Hkeys.
      apply elem_of_map_to_list in Hkv. by eexists. }
  rewrite <- (foldl_fmap (fun (m : gmap string C) (kv : string * C) => <[kv.1 := kv.2]> m)
                         ∅ (map_to_list m) (prod_map id (fun v => g (f v)))).
  rewrite foldl_insert_list_to_map.
  - rewrite (right_id_L ∅ (∪)). rewrite list_to_map_fmap. by rewrite list_to_map_to_list.
  - rewrite <- list_fmap_compose.
    rewrite (list_fmap_ext _ fst); [apply NoDup_fst_map_to_list|]. by intros ? [].
Qed.



Lemma digit_char_plain d : 0 <= d < 10 -> Spec.plain (time.digit_char d).
Proof.
  intros Hd. unfold Spec.plain, time.digit_char, utf8.RuneSelf.
  rewrite byte_val_of by lia. apply Z.ltb_lt. lia.
Qed.

Lemma decimal_rev_plain fuel : forall u, 0 <= u -> Forall Spec.plain (time.decimal_rev fuel u).
Proof.
  induction fuel as [|fuel IH]; intros u Hu; cbn [time.decimal_rev]; [constructor|].
  destruct (Z.ltb_spec u 10).
  - repeat constructor. apply digit_char_plain. lia.
  - constructor.
    + apply digit_char_plain. apply Z.mod_pos_bound. lia.
    + apply IH. apply Z.div_pos; lia.
Qed.

Lemma appendInt_plain x width : Forall Spec.plain (time.appendInt x width).
Proof.
  unfold time.appendInt. rewrite !Forall_app. split_and!.
  - destruct (x <? 0); by repeat constructor.
  - apply Forall_replicate. by vm_compute.
  - apply Forall_rev, decimal_rev_plain, Z.abs_nonneg.
Qed.

Lemma formatZone_plain offset : Forall Spec.plain (time.formatZone offset).
Proof.
  unfold time.formatZone. destruct (offset =? 0); [by repeat constructor|].
  rewrite !Forall_app. split_and!; try apply appendInt_plain.
  - destruct (_ <? 0); by repeat constructor.
  - by repeat constructor.
Qed.

Lemma Format_ascii (t : time.Time) : strings.isASCII (time.Format_RFC3339 t) = true.
Proof.
  unfold strings.isASCII, time.Format_RFC3339.
  destruct (time.civilFromDays _) as [[year month] day].
  rewrite bytes_of_string_of_bytes. apply Is_true_true, forallb_True.
  apply (Forall_impl Spec.plain); [|intros c Hc; by apply Is_true_true].
  rewrite !Forall_app.
  split_and!; first [apply appendInt_plain | apply formatZone_plain | by repeat constructor].
Qed.

Lemma photoMap_keys (p : PhotoInfo.t) (k : string) :
  is_Some (storage.photoMap p !! k) -> json.ToValidUTF8 k = k.
Proof.
  unfold storage.photoMap. intros [v Hv].
  destruct (String.eqb _ _);
    repeat (apply lookup_insert_Some in Hv as [[<- _]|[_ Hv]]; [by vm_compute|]);
    by rewrite lookup_empty in Hv.
Qed.

Ltac lookup_photoMap :=
  unfold storage.photoMap;
  repeat match goal with
  | |- context [if ?b then _ else _] => destruct b
  | |- context [<[?k := _]> _ !! ?k] => rewrite lookup_insert
  | |- context [<[_ := _]> _ !! _] => rewrite lookup_insert_ne by discriminate
  | |- context [∅ !! _] => rewrite lookup_empty
  end.

Lemma photoMap_path p :
  storage.photoMap p !! "path"%string = Some (json.Str (PhotoInfo.Path p)).
Proof. by lookup_photoMap. Qed.

Lemma photoMap_fullPath p :
  storage.photoMap p !! "fullPath"%string = Some (json.Str (PhotoInfo.FullPath p)).
Proof. by lookup_photoMap. Qed.

Lemma photoMap_date p :
  storage.photoMap p !! "date"%string
  = Some (json.Str (time.Format_RFC3339 (PhotoInfo.Date p))).
Proof. by lookup_photoMap. Qed.

Lemma photoMap_size p :
  storage.photoMap p !! "size"%string = Some (json.Int64 (PhotoInfo.Size p)).
Proof. by lookup_photoMap. Qed.

Lemma photoMap_hash p :
  storage.photoMap p !! "hash"%string = Some (json.Str (PhotoInfo.Hash p)).
Proof. by lookup_photoMap. Qed.

Lemma photoMap_userComment p :
  storage.photoMap p !! "userComment"%string
  = if String.eqb (PhotoInfo.UserComment p) EmptyString then None
    else Some (json.Str (PhotoInfo.UserComment p)).
Proof. by lookup_photoMap. Qed.

Lemma photo_round_trip (now : time.Time) (p : PhotoInfo.t) :
  Spec.photoPersistable p ->
  storage.photoOfData now
    (json.unmarshal_object json.unmarshal_value
       (json.marshal_object json.marshal_value (storage.photoMap p))) = p.
Proof.
  intros (Hpath & Hfull & Hhash & Hcomment & Hsize & Hdate).
  rewrite unmarshal_marshal_object by apply photoMap_keys.
  unfold storage.photoOfData, storage.getString, storage.getInt64.
  rewrite !lookup_fmap, photoMap_path, photoMap_fullPath, photoMap_date, photoMap_size,
    photoMap_hash, photoMap_userComment.
  assert (json.ToValidUTF8 (time.Format_RFC3339 (PhotoInfo.Date p))
          = time.Format_RFC3339 (PhotoInfo.Date p)) as Hfmt
    by apply ToValidUTF8_valid, ascii_validUTF8, Format_ascii.
  cbn [fmap option_fmap option_map json.marshal_value json.unmarshal_value].
  rewrite !Hfmt, (Parse_Format _ Hdate), (int_of_float64_of_int _ Hsize).
  rewrite !(ToValidUTF8_valid _ Hpath), !(ToValidUTF8_valid _ Hfull),
    !(ToValidUTF8_valid _ Hhash).
  destruct p as [path full date size hash comment].
  cbn [PhotoInfo.Path PhotoInfo.FullPath PhotoInfo.Hash PhotoInfo.UserComment
       PhotoInfo.Size PhotoInfo.Date] in *.
  destruct (String.eqb_spec comment EmptyString) as [->|Hne]; [done|].
  cbn [fmap option_fmap option_map json.marshal_value json.unmarshal_value].
  by rewrite !(ToValidUTF8_valid _ Hcomment).
Qed.


Lemma bucket_round_trip (now : time.Time) (bucket : list PhotoInfo.t) :
  Forall Spec.photoPersistable bucket ->
  storage.photoOfData now <$>
    (json.unmarshal_object json.unmarshal_value <$>
       (json.marshal_object json.marshal_value <$> (storage.photoMap <$> bucket)))
  = bucket.
Proof.
  induction 1 as [|p bucket Hp _ IH]; [done|].
  rewrite !fmap_cons, IH. f_equal. by apply photo_round_trip.
Qed.

(** C5 (as amended): an index whose strings are valid UTF-8, whose sizes a
    [float64] holds exactly and whose dates are representable is written
    without error and read back as it was. *)
Theorem index_round_trip (idx : storage.Indexer) (now : time.Time)
    (dir : string) (disk : option storage.IndexFile) :
  Spec.indexPersistable idx ->
  (storage.saveIndex storage.WriteOk idx disk).1 = None
  /\ storage.index
       (storage.NewIndexer now (storage.saveIndex storage.WriteOk idx disk).2 dir)
     = storage.index idx.
Proof.
  intros Hidx. split; [done|].
  unfold storage.NewIndexer, storage.saveIndex, storage.loadIndex.
  cbn [snd storage.index]. rewrite (right_id_L ∅ (∪)).
  unfold storage.Unmarshal, storage.Marshal, storage.indexData_of.
  rewrite unmarshal_marshal_object.
  2:{ intros k [photos Hk]. rewrite lookup_fmap in Hk.
      destruct (storage.index idx !! k) as [bucket|] eqn:Hb; [|done].
      apply ToValidUTF8_valid. by destruct (Hidx k bucket Hb). }
  apply map_eq. intros k. rewrite !lookup_fmap.
  destruct (storage.index idx !! k) as [bucket|] eqn:Hb; [|done].
  cbn [fmap option_fmap option_map]. f_equal. apply bucket_round_trip.
  by destruct (Hidx k bucket Hb).
Qed.

End PersistenceProperties.


(** The dates of the fixtures are representable. *)
Lemma representable_t0 : Spec.representable Fixtures.t0.
Proof. by vm_compute. Qed.

(** The bucket of the scenario can be persisted. *)
Lemma scenarioIndex_persistable : Spec.indexPersistable Fixtures.scenarioIndex.
Proof.
  intros k bucket Hk. unfold Fixtures.scenarioIndex in Hk. cbn [storage.index] in Hk.
  apply lookup_singleton_Some in Hk as [<- <-]. split.
  - by apply ascii_validUTF8.
  - repeat constructor; try (by apply ascii_validUTF8); by vm_compute.
Defined.

(** The scenario: the bucket [abc123] with the one photo [p1.jpg] of
    2024-01-01T00:00:00Z, size 100 and hash [h1] is read back as written. *)
Lemma index_round_trip_example :
  Spec.indexPersistable Fixtures.scenarioIndex
  /\ storage.index
       (storage.NewIndexer Fixtures.t1
          (storage.saveIndex storage.WriteOk
             Fixtures.scenarioIndex None).2 ".index")
     = storage.index Fixtures.scenarioIndex.
Proof.
  split; [exact scenarioIndex_persistable|].
  apply (index_round_trip Fixtures.scenarioIndex Fixtures.t1
           ".index" None scenarioIndex_persistable).
Defined.

(** Representable dates are not enough: a path with a byte that is not
    UTF-8 is written without error and read back with U+FFFD in its place. *)
Lemma index_round_trip_stray_byte :
  Spec.datesRepresentable Fixtures.strayByteIndex
  /\ (storage.saveIndex storage.WriteOk
        Fixtures.strayByteIndex None).1 = None
  /\ storage.index
       (storage.NewIndexer Fixtures.t1
          (storage.saveIndex storage.WriteOk
             Fixtures.strayByteIndex None).2 ".index")
     <> storage.index Fixtures.strayByteIndex.
Proof.
  split_and!.
  - intros k bucket Hk. unfold Fixtures.strayByteIndex in Hk. cbn [storage.index] in Hk.
    apply lookup_singleton_Some in Hk as [<- <-].
    repeat constructor; by vm_compute.
  - done.
  - intros Heq. apply (f_equal (fun m => PhotoInfo.Path <$> (m !! "abc123"%string ≫= head))) in Heq.
    vm_compute in Heq. discriminate.
Qed.

(** Nor is a size beyond 2^53 read back: the reader takes the number
    through a [float64]. *)
Lemma index_round_trip_huge_size :
  Spec.datesRepresentable Fixtures.hugeSizeIndex
  /\ storage.index
       (storage.NewIndexer Fixtures.t1
          (storage.saveIndex storage.WriteOk Fixtures.hugeSizeIndex None).2 ".index")
     <> storage.index Fixtures.hugeSizeIndex.
Proof.
  split.
  - intros k bucket Hk. unfold Fixtures.hugeSizeIndex in Hk. cbn [storage.index] in Hk.
    apply lookup_singleton_Some in Hk as [<- <-].
    repeat constructor; by vm_compute.
  - intros Heq. apply (f_equal (fun m => PhotoInfo.Size <$> (m !! "abc123"%string ≫= head))) in Heq.
    vm_compute in Heq. discriminate.
Qed.

(** ** The claims on the fixtures *)

(** The three calls of the fixture leave every bucket ordered and without
    a repeated path, the bucket of the meter named under two spellings
    included. *)
Lemma buckets_sorted_example :
  Spec.bucketInvariant
    (storage.GetPhotosByCounter (U := Fixtures.cyrillicLower)
       (Spec.afterAdds (U := Fixtures.cyrillicLower) ".index" None Fixtures.threeAdds)
       "SN 12345 АБ").
Proof.
  apply (proj1 (buckets_sorted_without_duplicate_paths (U := Fixtures.cyrillicLower))).
Defined.

(** A first photo of a meter whose write fails is in the bucket
    nevertheless. *)
Lemma AddPhoto_failed_write_example :
  let '(err, idx', disk') :=
    storage.AddPhoto (U := Fixtures.cyrillicLower) (storage.WriteFails None)
      "SN-12345" "a_1.jpg" "meter/a_1.jpg" Fixtures.t0 100 "h1" ""
      {| storage.indexDir := ".index"; storage.index := ∅ |} None in
  is_Some err
  /\ PhotoInfo.mk "a_1.jpg" "meter/a_1.jpg" Fixtures.t0 100 "h1" ""
       ∈ storage.GetPhotosByCounter (U := Fixtures.cyrillicLower) idx' "SN-12345"
  /\ disk' = None.
Proof.
  apply (AddPhoto_failed_write_keeps_record (U := Fixtures.cyrillicLower) None
           "SN-12345" "a_1.jpg" "meter/a_1.jpg" Fixtures.t0 100 "h1" ""
           {| storage.indexDir := ".index"; storage.index := ∅ |} None).
  intros p Hp. vm_compute in Hp. by apply elem_of_nil in Hp.
Defined.

(** An ingest request under a token that no session has is refused and
    changes nothing. *)
Lemma refused_request_example :
  Spec.isClientError
    (handlers.SyncHandler (U := Fixtures.cyrillicLower) (P := Fixtures.plainPlatform)
       Fixtures.calmEnv Fixtures.strangerPhoto Fixtures.stateOneKnown).1
  /\ (handlers.SyncHandler (U := Fixtures.cyrillicLower) (P := Fixtures.plainPlatform)
        Fixtures.calmEnv Fixtures.strangerPhoto Fixtures.stateOneKnown).2
     = Fixtures.stateOneKnown.
Proof.
  apply (proj2 (refused_requests_change_nothing (U := Fixtures.cyrillicLower)
                  (P := Fixtures.plainPlatform) Fixtures.stateOneKnown)
               Fixtures.calmEnv Fixtures.strangerPhoto).
  right. left. by vm_compute.
Defined.

(** * Further properties of the code *)

Section SessionStoreProperties.

Implicit Types (s : storage.SessionStore) (token : string) (now : time.Time).

(** X1. A session just started.  After [StartHandler] has filed a session
    under a token, [StatusHandler] reports it as waiting, with a total, an
    uploaded and a skipped count of zero, a progress of zero, no current
    file, the start time of the clock and zero seconds remaining -- also
    when the token had a session before, which is replaced.  The answers
    for the other tokens, the index, its file and the hash table are as
    before. *)
Theorem StartHandler_then_Status (now later : time.Time) (token : string)
    (st : handlers.State) :
  token <> EmptyString ->
  handlers.StatusHandler later token (handlers.StartHandler now token st)
  = handlers.StatusOK models.StatusWaiting 0 0 0 Go.f64_zero EmptyString
                      (time.Format_RFC3339 now) 0
  /\ (forall other, other <> token ->
        handlers.StatusHandler later other (handlers.StartHandler now token st)
        = handlers.StatusHandler later other st)
  /\ handlers.indexer (handlers.StartHandler now token st) = handlers.indexer st
  /\ handlers.duplicateCheck (handlers.StartHandler now token st)
     = handlers.duplicateCheck st
  /\ handlers.disk (handlers.StartHandler now token st) = handlers.disk st.
Proof.
  intros Htok. apply String.eqb_neq in Htok.
  unfold handlers.StatusHandler, handlers.StartHandler, handlers.withSessions,
    storage.Create, storage.Get.
  cbn [snd handlers.sessionStore storage.sessions handlers.indexer
       handlers.duplicateCheck handlers.disk].
  split_and!; try done.
  - by rewrite Htok, lookup_insert_eq.
  - intros other Hne. by rewrite lookup_insert_ne.
Qed.

Lemma Sub_le_Hour now (t : time.Time) :
  negb (time.Hour <? time.Sub now t) = true
  <-> time.unixNano now - time.unixNano t <= 3600000000000.
Proof.
  unfold time.Sub, time.Hour, time.Minute, time.Second, Go.minInt64, Go.maxInt64.
  rewrite negb_true_iff, Z.ltb_ge.
  destruct (Z.ltb_spec (time.unixNano now - time.unixNano t) (- 2 ^ 63)); [lia|].
  destruct (Z.ltb_spec (2 ^ 63 - 1) (time.unixNano now - time.unixNano t)); lia.
Qed.

(** X2. One tick of [cleanup] keeps exactly the sessions last updated
    no more than an hour before the clock, each as it was. *)
Theorem cleanupTick_keeps_recent now s token session :
  storage.Get token (storage.cleanupTick now s) = Some session
  <-> storage.Get token s = Some session
      /\ time.unixNano now - time.unixNano (models.LastUpdate session) <= 3600000000000.
Proof.
  unfold storage.cleanupTick, storage.Get. cbn [storage.sessions].
  rewrite map_lookup_filter_Some. cbn [snd]. by rewrite Sub_le_Hour.
Qed.

End SessionStoreProperties.

Section ProgressProperties.

Lemma float64_of_int_finite (n : Z) :
  n <> 0 -> - 2 ^ 53 < n < 2 ^ 53 ->
  exists s m e, Go.float64_of_int n = S754_finite s m e.
Proof.
  intros Hn0 Hn. unfold Go.float64_of_int, binary_normalize.
  destruct n as [|m|m]; [done| |].
  - destruct (binary_round_exact false m ltac:(lia)) as (mz & ez & -> & _). eauto.
  - destruct (binary_round_exact true m ltac:(lia)) as (mz & ez & -> & _). eauto.
Qed.

Lemma f64_div_self s m e :
  Go.f64_div (S754_finite s m e) (S754_finite s m e) = Go.float64_of_int 1.
Proof.
  unfold Go.f64_div, SFdiv, SFdiv_core_binary.
  rewrite !Z.sub_diag, xorb_nilpotent.
  change (fexp Go.f64_prec Go.f64_emax 0) with (-53).
  change (Z.min (-53) 0) with (-53). change (0 - -53) with 53.
  cbv beta iota zeta.
  rewrite Z.shiftl_mul_pow2 by lia.
  assert (Z.div_eucl (Z.pos m * 2 ^ 53) (Z.pos m) = (2 ^ 53, 0)) as ->.
  { pose proof (Z.div_mul (2 ^ 53) (Z.pos m) ltac:(lia)) as Hq.
    pose proof (Z.mod_mul (2 ^ 53) (Z.pos m) ltac:(lia)) as Hr.
    rewrite (Z.mul_comm (2 ^ 53)) in Hq, Hr. unfold Z.div, Z.modulo in Hq, Hr.
    destruct (Z.div_eucl (Z.pos m * 2 ^ 53) (Z.pos m)) as [q r]. by subst. }
  assert (new_location (Z.pos m) 0 = loc_Exact) as ->.
  { unfold new_location, new_location_even, new_location_odd.
    by destruct (Z.even (Z.pos m)). }
  by vm_compute.
Qed.

(** X3. A session whose uploaded and skipped photos add up to its total
    reports a progress of exactly 100. *)
Theorem GetProgress_complete (s : models.Session) :
  models.Total s <> 0 ->
  - 2 ^ 53 < models.Total s < 2 ^ 53 ->
  Go.add64 (models.Uploaded s) (models.Skipped s) = models.Total s ->
  models.GetProgress s = Go.float64_of_int 100.
Proof.
  intros Hne Hrange Hsum. unfold models.GetProgress.
  destruct (Z.eqb_spec (models.Total s) 0); [done|]. rewrite Hsum.
  destruct (float64_of_int_finite _ Hne Hrange) as (sg & m & e & ->).
  rewrite f64_div_self. by vm_compute.
Qed.

Lemma GetProgress_complete_example :
  models.GetProgress
    (handlers.uploadUpdater "a.jpg" (handlers.initUpdater 1 Fixtures.t0
                                       (models.NewSession Fixtures.t0 "t1")))
  = Go.float64_of_int 100.
Proof. apply GetProgress_complete; vm_compute; first [done | split; done]. Defined.

End ProgressProperties.

Section IndexerProperties.
Context `{U : Unicode}.

Implicit Types (idx : storage.Indexer) (disk : option storage.IndexFile).

Lemma existsb_path_true (l : list PhotoInfo.t) (relPath : string) p :
  p ∈ l -> PhotoInfo.Path p = relPath ->
  existsb (fun photo => String.eqb (PhotoInfo.Path photo) relPath) l = true.
Proof.
  intros Hp Hpath. apply existsb_exists. exists p. split.
  - by apply list_elem_of_In.
  - by apply String.eqb_eq.
Qed.

(** X4. [AddPhoto] of a relative path that a record of the bucket already
    has returns nil without writing the index file, whatever the write would
    have done, and leaves every bucket as it was. *)
Theorem AddPhoto_existing_path_is_noop
    w counterNumber relPath fullPath date size hash userComment idx disk p :
  p ∈ storage.GetPhotosByCounter idx counterNumber ->
  PhotoInfo.Path p = relPath ->
  let '(err, idx', disk') :=
    storage.AddPhoto w counterNumber relPath fullPath date size hash userComment idx disk in
  err = None /\ storage.index idx' = storage.index idx /\ disk' = disk.
Proof.
  intros Hp Hpath. unfold storage.AddPhoto, storage.GetPhotosByCounter in *.
  rewrite (existsb_path_true _ _ _ Hp Hpath). split_and!; [done| |done].
  cbn [storage.index].
  destruct (storage.index idx !! storage.NormalizeCounterNumber counterNumber) as [bucket|] eqn:Hb.
  - by apply insert_id.
  - cbn [default] in Hp. by apply elem_of_nil in Hp.
Qed.

(** X5. [AddPhoto] of a new relative path loses no record: the bucket of
    the identifier afterwards holds the records it held and the new one, and
    every other bucket is as it was, whatever the outcome of the write. *)
Theorem AddPhoto_adds_one_record
    w counterNumber relPath fullPath date size hash userComment idx disk :
  (forall p, p ∈ storage.GetPhotosByCounter idx counterNumber ->
             PhotoInfo.Path p <> relPath) ->
  let idx' :=
    (storage.AddPhoto w counterNumber relPath fullPath date size hash userComment
                      idx disk).1.2 in
  storage.GetPhotosByCounter idx' counterNumber
    ≡ₚ storage.GetPhotosByCounter idx counterNumber
       ++ [PhotoInfo.mk relPath fullPath date size hash userComment]
  /\ forall k, k <> storage.NormalizeCounterNumber counterNumber ->
       storage.index idx' !! k = storage.index idx !! k.
Proof.
  intros Hfresh idx'.
  pose proof (AddPhoto_index w counterNumber relPath fullPath date size hash userComment
                idx disk) as Hidx.
  cbv zeta in Hidx. fold idx' in Hidx.
  unfold storage.GetPhotosByCounter in *.
  set (nc := storage.NormalizeCounterNumber counterNumber) in *.
  set (bucket := default [] (storage.index idx !! nc)) in *.
  assert (existsb (fun p => String.eqb (PhotoInfo.Path p) relPath) bucket = false) as Hnew.
  { apply not_true_is_false. intros Hex. apply existsb_exists in Hex as (p & Hp & Heq).
    apply String.eqb_eq in Heq. apply list_elem_of_In in Hp. by apply (Hfresh p). }
  rewrite Hnew in Hidx. rewrite Hidx. split.
  - rewrite lookup_insert_eq. cbn [default]. apply sortByDate_sorts.
  - intros k Hk. by rewrite lookup_insert_ne.
Qed.

End IndexerProperties.

Section NormalFormProperties.
Context `{U : Unicode}.

Lemma keptRune_scalar r : Spec.keptRune r -> Spec.scalarValue r = true.
Proof.
  intros Hr. apply keptRune_spec in Hr.
  unfold Spec.scalarValue, utf8.MaxRune, utf8.surrogateMin, utf8.surrogateMax.
  split_comparisons; first [done|lia].
Qed.

Lemma keptRunes_kept (s : string) : Forall Spec.keptRune (Spec.keptRunes s).
Proof.
  apply Forall_forall. intros r Hr. unfold Spec.keptRunes in Hr.
  by apply list_elem_of_filter in Hr as [? _].
Qed.

Lemma Normalize_validUTF8 (s : string) :
  Spec.validUTF8 (storage.NormalizeCounterNumber s).
Proof.
  exists (Spec.keptRunes s). split; [|apply Normalize_encodeAll].
  eapply Forall_impl; [apply keptRunes_kept|]. apply keptRune_scalar.
Qed.

Lemma range_Normalize (s : string) :
  utf8.range (storage.NormalizeCounterNumber s) = Spec.keptRunes s.
Proof.
  rewrite Normalize_encodeAll, range_encodeAll.
  - pose proof (keptRunes_kept s) as Hk.
    induction Hk as [|r l Hr _ IH]; [done|].
    rewrite fmap_cons, IH. f_equal. unfold Spec.canonRune.
    by rewrite (keptRune_scalar r Hr).
  - eapply Forall_impl; [apply keptRunes_kept|]. intros r Hr.
    apply keptRune_spec in Hr. lia.
Qed.

(** X6. Whatever the identifier, its normal form is valid UTF-8 and holds
    only the small Latin letters, the digits, the small Cyrillic letters
    а-я and ё. *)
Theorem Normalize_keeps_only_key_runes (s : string) :
  Spec.validUTF8 (storage.NormalizeCounterNumber s)
  /\ Forall (fun r => 0x61 <= r <= 0x7A \/ 0x30 <= r <= 0x39
                      \/ 0x430 <= r <= 0x44F \/ r = 0x451)
            (utf8.range (storage.NormalizeCounterNumber s)).
Proof.
  split; [apply Normalize_validUTF8|]. rewrite range_Normalize.
  eapply Forall_impl; [apply keptRunes_kept|]. intros r. apply keptRune_spec.
Qed.


Lemma saved_index_loads (idx : storage.Indexer) (now : time.Time) (dir : string) :
  Spec.indexPersistable idx ->
  storage.index
    (storage.NewIndexer now
       (Some (storage.Document (storage.Marshal (storage.indexData_of (storage.index idx)))))
       dir)
  = storage.index idx.
Proof.
  intros Hidx. unfold storage.NewIndexer, storage.loadIndex.
  cbn [storage.index]. rewrite (right_id_L ∅ (∪)).
  unfold storage.Unmarshal, storage.Marshal, storage.indexData_of.
  rewrite unmarshal_marshal_object.
  - apply map_eq. intros k. rewrite !lookup_fmap.
    destruct (storage.index idx !! k) as [bucket|] eqn:Hb; [|done].
    cbn [fmap option_fmap option_map]. f_equal. apply bucket_round_trip.
    by destruct (Hidx k bucket Hb).
  - intros k [photos Hk]. rewrite lookup_fmap in Hk.
    destruct (storage.index idx !! k) as [bucket|] eqn:Hb; [|done].
    apply ToValidUTF8_valid. by destruct (Hidx k bucket Hb).
Qed.

(** X7. What [AddPhoto] acknowledges is durable.  When the index and the
    new record can be persisted and the write succeeds, [AddPhoto] returns
    nil and a restart, [NewIndexer] on the file it left, restores the index
    in memory record for record. *)
Theorem AddPhoto_survives_restart
    counterNumber relPath fullPath date size hash userComment idx disk now dir :
  Spec.indexPersistable idx ->
  Spec.photoPersistable (PhotoInfo.mk relPath fullPath date size hash userComment) ->
  (forall p, p ∈ storage.GetPhotosByCounter idx counterNumber ->
             PhotoInfo.Path p <> relPath) ->
  let '(err, idx', disk') :=
    storage.AddPhoto storage.WriteOk counterNumber relPath fullPath date size hash
                     userComment idx disk in
  err = None
  /\ storage.index (storage.NewIndexer now disk' dir) = storage.index idx'.
Proof.
  intros Hidx Hphoto Hfresh. unfold storage.AddPhoto, storage.GetPhotosByCounter in *.
  set (nc := storage.NormalizeCounterNumber counterNumber) in *.
  set (bucket := default [] (storage.index idx !! nc)) in *.
  assert (existsb (fun p => String.eqb (PhotoInfo.Path p) relPath) bucket = false) as ->.
  { apply not_true_is_false. intros Hex. apply existsb_exists in Hex as (p & Hp & Heq).
    apply String.eqb_eq in Heq. apply list_elem_of_In in Hp. by apply (Hfresh p). }
  unfold storage.saveIndex. split; [done|].
  apply saved_index_loads. intros k l Hk. cbn [storage.index] in Hk.
  destruct (decide (k = nc)) as [->|Hne].
  - rewrite lookup_insert_eq in Hk. injection Hk as <-. split.
    + apply Normalize_validUTF8.
    + destruct (sortByDate_sorts
                  (bucket ++ [PhotoInfo.mk relPath fullPath date size hash userComment]))
        as [Hperm _].
      rewrite Hperm. apply Forall_app. split; [|by apply Forall_singleton].
      subst bucket. destruct (storage.index idx !! nc) as [b|] eqn:Hb; [|by apply Forall_nil].
      by destruct (Hidx nc b Hb).
  - rewrite lookup_insert_ne in Hk by done. by apply (Hidx k l).
Qed.

End NormalFormProperties.

Lemma empty_index_persistable dir :
  Spec.indexPersistable {| storage.indexDir := dir; storage.index := ∅ |}.
Proof. intros k bucket Hk. cbn in Hk. by rewrite lookup_empty in Hk. Defined.

Lemma AddPhoto_survives_restart_example :
  let '(err, idx', disk') :=
    storage.AddPhoto (U := Fixtures.cyrillicLower) storage.WriteOk
      "SN-12345" "p1.jpg" "meter/p1.jpg" Fixtures.t0 100 "h1" ""
      {| storage.indexDir := ".index"; storage.index := ∅ |} None in
  err = None
  /\ storage.index (storage.NewIndexer Fixtures.t1 disk' ".index") = storage.index idx'.
Proof.
  apply (AddPhoto_survives_restart (U := Fixtures.cyrillicLower)
           "SN-12345" "p1.jpg" "meter/p1.jpg" Fixtures.t0 100 "h1" ""
           {| storage.indexDir := ".index"; storage.index := ∅ |} None Fixtures.t1 ".index").
  - apply empty_index_persistable.
  - repeat split; try (by apply ascii_validUTF8); by vm_compute.
  - intros p Hp. vm_compute in Hp. by apply elem_of_nil in Hp.
Defined.

Section NormalFormAscii.
Context `{U : Unicode}.

Lemma lowerASCII_plain (c : byte) :
  byte_val c < 128 -> byte_val (strings.lowerASCII c) < 128.
Proof.
  intros Hc. unfold strings.lowerASCII.
  destruct (Z.leb_spec 0x41 (byte_val c)); [|done].
  destruct (Z.leb_spec (byte_val c) 0x5A); [|done]. cbn [andb].
  rewrite byte_val_of; lia.
Qed.

Lemma Map_keepRune_plain (l : list byte) :
  Forall (fun c => byte_val c < 128) l ->
  strings.Map storage.keepRune (string_of_bytes l)
  = string_of_bytes (List.filter Spec.keyByte l).
Proof.
  induction 1 as [|c l Hc _ IH]; [done|].
  unfold strings.Map in *. cbn [string_of_bytes string_of_list_ascii].
  rewrite range_ascii by (unfold utf8.RuneSelf; lia).
  cbn [foldr List.filter]. fold (string_of_bytes l). rewrite IH.
  pose proof (byte_val_bounds c) as Hb.
  unfold Spec.keyByte. destruct (keepRune_cases (byte_val c)) as [[Hk ->]|[Hk ->]].
  - destruct (Z.leb_spec 0 (byte_val c)); [|lia].
    assert (((0x61 <=? byte_val c) && (byte_val c <=? 0x7A)
             || (0x30 <=? byte_val c) && (byte_val c <=? 0x39)) = true) as ->.
    { split_comparisons; first [done|lia]. }
    unfold utf8.EncodeRune.
    destruct (Z.leb_spec 0 (byte_val c)); [|lia].
    destruct (Z.leb_spec (byte_val c) 0x7F); [|lia]. cbn [andb].
    by rewrite byte_of_val.
  - change (0 <=? -1) with false.
    assert (((0x61 <=? byte_val c) && (byte_val c <=? 0x7A)
             || (0x30 <=? byte_val c) && (byte_val c <=? 0x39)) = false) as ->; [|done].
    split_comparisons; first [done|lia].
Qed.

(** X8. On an identifier of ASCII bytes normalisation is byte-wise,
    whatever the case tables: capital letters are lowered, small letters and
    digits kept, every other byte dropped. *)
Theorem Normalize_ascii (s : string) :
  strings.isASCII s = true ->
  storage.NormalizeCounterNumber s
  = string_of_bytes
      (List.filter Spec.keyByte (strings.lowerASCII <$> bytes_of_string s)).
Proof.
  intros Hs. unfold storage.NormalizeCounterNumber, strings.ToLower. rewrite Hs.
  apply Map_keepRune_plain. unfold strings.isASCII in Hs.
  apply Forall_fmap, Forall_forall. intros c Hc. cbn.
  apply lowerASCII_plain. rewrite forallb_forall in Hs.
  apply list_elem_of_In, Hs in Hc. apply Z.ltb_lt in Hc. exact Hc.
Qed.

End NormalFormAscii.

Lemma Normalize_ascii_example :
  storage.NormalizeCounterNumber (U := Fixtures.cyrillicLower) "SN-12345/ab"
  = "sn12345ab"%string.
Proof.
  rewrite (Normalize_ascii (U := Fixtures.cyrillicLower)); by vm_compute.
Defined.

Section DuplicateTiers.
Context `{U : Unicode}.

Implicit Types (dc : storage.DuplicateCheck) (idx : storage.Indexer).

(** X9. [absTimeDiff] is the distance of the two instants in nanoseconds,
    cut at the largest [int64] -- except when the first instant lies 2^63
    nanoseconds or more before the second: the difference saturates at the
    least [int64], whose negation is itself, and the result is negative. *)
Theorem absTimeDiff_distance (t1 t2 : time.Time) :
  let d := time.unixNano t1 - time.unixNano t2 in
  (- 2 ^ 63 < d -> storage.absTimeDiff t1 t2 = Z.min (Z.abs d) (2 ^ 63 - 1))
  /\ (d <= - 2 ^ 63 -> storage.absTimeDiff t1 t2 = - 2 ^ 63).
Proof.
  intros d. unfold storage.absTimeDiff, time.Sub, Go.neg64, Go.wrap64, Go.minInt64,
    Go.maxInt64. fold d. clearbody d.
  split; intros Hd.
  - destruct (Z.ltb_spec d (- 2 ^ 63)); [lia|].
    destruct (Z.ltb_spec (2 ^ 63 - 1) d).
    + destruct (Z.ltb_spec (2 ^ 63 - 1) 0); lia.
    + destruct (Z.ltb_spec d 0); [|lia].
      rewrite Z.mod_small by lia. lia.
  - destruct (Z.ltb_spec d (- 2 ^ 63)).
    + by vm_compute.
    + assert (d = - 2 ^ 63) as -> by lia. by vm_compute.
Qed.

(** X10. Without an identifier (empty, or the stand-in [unknown]) the index
    is not consulted: a hash the table does not hold is answered with no
    duplicate, whatever the index holds. *)
Theorem CheckDuplicate_without_counter dc (fileHash : string) size
    (counterNumber : string) dateTaken idx :
  storage.hashDB dc !! fileHash = None ->
  counterNumber = EmptyString \/ counterNumber = "unknown"%string ->
  storage.CheckDuplicate dc fileHash size counterNumber dateTaken idx = (None, EmptyString).
Proof.
  intros Hmiss Hc. unfold storage.CheckDuplicate. rewrite Hmiss.
  by destruct Hc as [-> | ->].
Qed.

Lemma findByDate_Some fileHash dateTaken (photos : list PhotoInfo.t) info :
  storage.findByDate fileHash dateTaken photos = Some info ->
  exists pre photo post,
    photos = pre ++ photo :: post
    /\ Forall (fun p => ~ (storage.absTimeDiff (PhotoInfo.Date p) dateTaken < time.Second
                           /\ PhotoInfo.Hash p = fileHash)) pre
    /\ storage.absTimeDiff (PhotoInfo.Date photo) dateTaken < time.Second
    /\ PhotoInfo.Hash photo = fileHash
    /\ info = {| FileHashInfo.Hash := PhotoInfo.Hash photo;
                 FileHashInfo.Size := PhotoInfo.Size photo;
                 FileHashInfo.Date := PhotoInfo.Date photo;
                 FileHashInfo.Path := PhotoInfo.Path photo |}.
Proof.
  induction photos as [|p photos IH]; [done|]. cbn [storage.findByDate].
  destruct (Z.ltb_spec (storage.absTimeDiff (PhotoInfo.Date p) dateTaken) time.Second) as [Hlt|Hge];
    destruct (String.eqb_spec (PhotoInfo.Hash p) fileHash) as [Heq|Hne]; cbn [andb].
  - intros [= <-]. exists [], p, photos. by repeat split.
  - intros (pre & photo & post & -> & Hpre & ?)%IH. exists (p :: pre), photo, post.
    split; [done|]. split; [|done]. constructor; [|done]. by intros [_ ?].
  - intros (pre & photo & post & -> & Hpre & ?)%IH. exists (p :: pre), photo, post.
    split; [done|]. split; [|done]. constructor; [|done]. intros [? _]. lia.
  - intros (pre & photo & post & -> & Hpre & ?)%IH. exists (p :: pre), photo, post.
    split; [done|]. split; [|done]. constructor; [|done]. by intros [_ ?].
Qed.

Lemma findByDate_None fileHash dateTaken (photos : list PhotoInfo.t) :
  storage.findByDate fileHash dateTaken photos = None ->
  Forall (fun p => ~ (storage.absTimeDiff (PhotoInfo.Date p) dateTaken < time.Second
                      /\ PhotoInfo.Hash p = fileHash)) photos.
Proof.
  induction photos as [|p photos IH]; [constructor|]. cbn [storage.findByDate].
  destruct (Z.ltb_spec (storage.absTimeDiff (PhotoInfo.Date p) dateTaken) time.Second) as [Hlt|Hge];
    destruct (String.eqb_spec (PhotoInfo.Hash p) fileHash) as [Heq|Hne]; cbn [andb];
    [done| | |]; intros Hnone%IH; constructor; try done.
  - by intros [_ ?].
  - intros [? _]. lia.
  - by intros [_ ?].
Qed.

Lemma AddHash_keyed (calls : list Spec.AddHashCall) dc :
  (forall k v, storage.hashDB dc !! k = Some v -> FileHashInfo.Hash v = k) ->
  forall k v, storage.hashDB (foldl Spec.applyAddHash dc calls) !! k = Some v ->
              FileHashInfo.Hash v = k.
Proof.
  revert dc. induction calls as [|c calls IH]; intros dc Hdc; [done|].
  cbn [foldl]. apply IH. intros k v. unfold Spec.applyAddHash, storage.AddHash.
  cbn [storage.hashDB]. intros [[<- <-]|[_ Hk]]%lookup_insert_Some; [done|].
  by apply Hdc.
Qed.

(** X11. A duplicate is only ever reported for an equal hash.  With a table
    filled by [AddHash], whatever [CheckDuplicate] returns as the existing
    file has the hash asked for, under the reason [hash] or
    [counter_and_date]; and when it returns none the reason is empty. *)
Theorem CheckDuplicate_reports_equal_hash (calls : list Spec.AddHashCall)
    (fileHash : string) size (counterNumber : string) dateTaken idx :
  let dc := foldl Spec.applyAddHash storage.NewDuplicateCheck calls in
  match storage.CheckDuplicate dc fileHash size counterNumber dateTaken idx with
  | (Some info, reason) =>
    FileHashInfo.Hash info = fileHash
    /\ (reason = "hash"%string \/ reason = "counter_and_date"%string)
  | (None, reason) => reason = EmptyString
  end.
Proof.
  intros dc. unfold storage.CheckDuplicate.
  destruct (storage.hashDB dc !! fileHash) as [info|] eqn:Hdb.
  - split; [|by left]. eapply AddHash_keyed; [|exact Hdb].
    intros k v. unfold storage.NewDuplicateCheck. cbn. by rewrite lookup_empty.
  - destruct (negb _ && negb _); [|done].
    destruct (storage.findByDate _ _ _) as [info|] eqn:Hfind; [|done].
    apply findByDate_Some in Hfind as (pre & photo & post & _ & _ & _ & Hhash & ->).
    split; [done|by right].
Qed.

End DuplicateTiers.

Section DuplicateTierTwo.
Context `{UL : Spec.UnicodeLaws}.

Implicit Types (dc : storage.DuplicateCheck) (idx : storage.Indexer).

(** X12. For a hash the table does not hold and an identifier that is
    neither empty nor [unknown], [CheckDuplicate] answers with the first
    record of the identifier's bucket that has the hash and whose date
    [absTimeDiff] puts less than a second from the date taken, under the
    reason [counter_and_date]; with no such record it answers no duplicate. *)
Theorem CheckDuplicate_by_counter_and_date dc (fileHash : string) size
    (counterNumber : string) dateTaken idx :
  storage.hashDB dc !! fileHash = None ->
  counterNumber <> EmptyString -> counterNumber <> "unknown"%string ->
  let near p := storage.absTimeDiff (PhotoInfo.Date p) dateTaken < time.Second
                /\ PhotoInfo.Hash p = fileHash in
  (exists pre photo post,
      storage.GetPhotosByCounter idx counterNumber = pre ++ photo :: post
      /\ Forall (fun p => ~ near p) pre /\ near photo
      /\ storage.CheckDuplicate dc fileHash size counterNumber dateTaken idx
         = (Some {| FileHashInfo.Hash := fileHash;
                    FileHashInfo.Size := PhotoInfo.Size photo;
                    FileHashInfo.Date := PhotoInfo.Date photo;
                    FileHashInfo.Path := PhotoInfo.Path photo |},
            "counter_and_date"%string))
  \/ (Forall (fun p => ~ near p) (storage.GetPhotosByCounter idx counterNumber)
      /\ storage.CheckDuplicate dc fileHash size counterNumber dateTaken idx
         = (None, EmptyString)).
Proof.
  intros Hmiss Hne1 Hne2 near. unfold storage.CheckDuplicate. rewrite Hmiss.
  apply String.eqb_neq in Hne1, Hne2. rewrite Hne1, Hne2. cbn [negb andb].
  assert (storage.GetPhotosByCounter idx (storage.NormalizeCounterNumber counterNumber)
          = storage.GetPhotosByCounter idx counterNumber) as ->.
  { unfold storage.GetPhotosByCounter. by rewrite Normalize_idempotent. }
  destruct (storage.findByDate _ _ _) as [info|] eqn:Hfind.
  - left. apply findByDate_Some in Hfind
      as (pre & photo & post & Hsplit & Hpre & Hnear & Hhash & ->).
    exists pre, photo, post. rewrite Hhash. by repeat split.
  - right. split; [|done]. by apply findByDate_None.
Qed.

End DuplicateTierTwo.

Section SyncProperties.
Context `{U : Unicode} `{P : Platform}.

Implicit Types (st : handlers.State) (env : handlers.Env) (req : handlers.SyncRequest).

(** The ways [SyncHandler] ends. *)
Lemma SyncHandler_cases env req st :
  let token := handlers.sync_token req in
  let out := handlers.SyncHandler env req st in
  (out.2 = st
   /\ match out.1 with
      | handlers.BadRequest _ | handlers.NotFound _ | handlers.Panicked => True
      | handlers.InternalServerError err => err <> "failed to save file"%string
      | _ => False
      end)
  \/ (exists data existing reason uploaded total,
         handlers.sync_photo req = Some data
         /\ storage.CheckDuplicate (handlers.duplicateCheck st) (CalculateHash data)
              (Z.of_nat (length data)) (handlers.sync_counterNumber req)
              (Spec.dateTakenOf env req) (handlers.indexer st) = (Some existing, reason)
         /\ out.1 = handlers.SyncDuplicate uploaded total (FileHashInfo.Path existing) reason
         /\ out.2 = handlers.withSessions st
                      (storage.Update (handlers.updateNow env) token
                         (handlers.duplicateUpdater (handlers.sync_originalName req))
                         (handlers.sessionStore st)).2)
  \/ (exists data comment err,
         handlers.sync_photo req = Some data
         /\ storage.hashDB (handlers.duplicateCheck st) !! CalculateHash data = None
         /\ handlers.extractUserCommentFromEXIF data = Some comment
         /\ handlers.SaveFile env = inr err
         /\ out.1 = handlers.InternalServerError "failed to save file"
         /\ out.2 = handlers.withSessions st
                      (storage.Update (handlers.updateNow env) token
                         (handlers.errorUpdater err) (handlers.sessionStore st)).2)
  \/ (exists data comment relPath uploaded total,
         handlers.sync_photo req = Some data
         /\ storage.hashDB (handlers.duplicateCheck st) !! CalculateHash data = None
         /\ handlers.extractUserCommentFromEXIF data = Some comment
         /\ handlers.SaveFile env = inl relPath
         /\ out.1 = handlers.SyncSaved uploaded total relPath
         /\ handlers.sessionStore out.2
            = (storage.Update (handlers.updateNow env) token
                 (handlers.uploadUpdater (handlers.sync_originalName req))
                 (handlers.sessionStore st)).2
         /\ handlers.duplicateCheck out.2
            = storage.AddHash (CalculateHash data) (Z.of_nat (length data))
                (Spec.dateTakenOf env req) relPath (handlers.duplicateCheck st)
         /\ (handlers.indexer out.2, handlers.disk out.2)
            = (let r := storage.AddPhoto (handlers.write env) (Spec.counterOf req comment)
                          relPath (filepath_Join (handlers.BaseDir env) relPath)
                          (Spec.dateTakenOf env req) (Z.of_nat (length data))
                          (CalculateHash data) comment
                          (handlers.indexer st) (handlers.disk st) in
               (r.1.2, r.2))).
Proof.
  intros token out. subst out token. unfold handlers.SyncHandler.
  fold (Spec.dateTakenOf env req).
  destruct (String.eqb (handlers.sync_token req) EmptyString); [by left|].
  destruct (storage.Get _ _) as [session|]; [|by left].
  destruct (handlers.sync_photo req) as [data|]; [|by left].
  destruct (handlers.open_fails env); [by left|].
  destruct (handlers.read_fails env); [by left|].
  destruct (storage.CheckDuplicate _ _ _ _ _ _) as [[existing|] reason] eqn:Hcheck.
  - right. left. destruct (handlers.sessionCounts _ _) as [uploaded total] eqn:Hcounts.
    by exists data, existing, reason, uploaded, total.
  - assert (storage.hashDB (handlers.duplicateCheck st) !! CalculateHash data = None) as Hmiss.
    { unfold storage.CheckDuplicate in Hcheck.
      by destruct (storage.hashDB _ !! _). }
    assert (handlers.extractCounterNumberFromEXIF data
            = handlers.extractUserCommentFromEXIF data) as Hsame by done.
    destruct (handlers.extractUserCommentFromEXIF data) as [comment|] eqn:Hcomment.
    2:{ left. rewrite Hsame. by destruct (String.eqb _ _). }
    assert ((if String.eqb (handlers.sync_counterNumber req) EmptyString
             then handlers.extractCounterNumberFromEXIF data
             else Some (handlers.sync_counterNumber req))
            = Some (if String.eqb (handlers.sync_counterNumber req) EmptyString
                    then comment else handlers.sync_counterNumber req)) as ->.
    { rewrite Hsame. by destruct (String.eqb _ _). }
    assert ((if String.eqb (if String.eqb (handlers.sync_counterNumber req) EmptyString
                            then comment else handlers.sync_counterNumber req) EmptyString
             then "unknown"%string
             else (if String.eqb (handlers.sync_counterNumber req) EmptyString
                   then comment else handlers.sync_counterNumber req))
            = Spec.counterOf req comment) as ->.
    { unfold Spec.counterOf.
      destruct (String.eqb (handlers.sync_counterNumber req) EmptyString) eqn:Hc; [done|].
      by rewrite Hc. }
    destruct (handlers.SaveFile env) as [relPath|err] eqn:Hsave.
    + right. right. right.
      destruct (storage.AddPhoto _ _ _ _ _ _ _ _ _ _) as [[err idx] dsk] eqn:Hadd.
      destruct (handlers.sessionCounts _ _) as [uploaded total] eqn:Hcounts.
      exists data, comment, relPath, uploaded, total. split_and!; try done. by rewrite Hadd.
    + right. right. left. by exists data, comment, err.
Qed.


(** X13. The index, the hash table and the index file change only when
    [SyncHandler] answers that the photo was saved; a request that is
    refused, fails, panics or is a duplicate leaves all three as they were. *)
Theorem SyncHandler_stores_change_only_on_save env req st :
  match (handlers.SyncHandler env req st).1 with
  | handlers.SyncSaved _ _ _ => True
  | _ =>
    handlers.indexer (handlers.SyncHandler env req st).2 = handlers.indexer st
    /\ handlers.duplicateCheck (handlers.SyncHandler env req st).2
       = handlers.duplicateCheck st
    /\ handlers.disk (handlers.SyncHandler env req st).2 = handlers.disk st
  end.
Proof.
  destruct (SyncHandler_cases env req st)
    as [[-> Hresp]
       |[(data & existing & reason & uploaded & total & _ & _ & -> & ->)
        |[(data & comment & err & _ & _ & _ & _ & -> & ->)
         |(data & comment & relPath & uploaded & total & _ & _ & _ & _ & -> & _)]]];
    try done.
  by destruct (handlers.SyncHandler env req st).1.
Qed.

Lemma Update_other now token updater (s : storage.SessionStore) other :
  other <> token ->
  storage.Get other (storage.Update now token updater s).2 = storage.Get other s.
Proof.
  intros Hne. unfold storage.Update, storage.Get.
  destruct (storage.sessions s !! token); [|done].
  cbn [snd storage.sessions]. by rewrite lookup_insert_ne.
Qed.

Lemma Update_same now token updater (s : storage.SessionStore) :
  storage.Get token (storage.Update now token updater s).2
  = (fun session => models.Update now (updater session)) <$> storage.Get token s.
Proof.
  unfold storage.Update, storage.Get.
  destruct (storage.sessions s !! token) eqn:Hs; cbn [snd storage.sessions].
  - by rewrite lookup_insert_eq.
  - by rewrite Hs.
Qed.

(** X14. [SyncHandler] touches the session of its token only; it neither
    creates nor removes a session, and of the session it updates it keeps
    the token, the total and the start time. *)
Theorem SyncHandler_touches_one_session env req st :
  (forall other, other <> handlers.sync_token req ->
     storage.Get other (handlers.sessionStore (handlers.SyncHandler env req st).2)
     = storage.Get other (handlers.sessionStore st))
  /\ match storage.Get (handlers.sync_token req) (handlers.sessionStore st),
           storage.Get (handlers.sync_token req)
                       (handlers.sessionStore (handlers.SyncHandler env req st).2) with
     | Some s, Some s' =>
       models.Token s' = models.Token s /\ models.Total s' = models.Total s
       /\ models.StartTime s' = models.StartTime s
     | None, None => True
     | _, _ => False
     end.
Proof.
  destruct (SyncHandler_cases env req st)
    as [[-> Hresp]
       |[(data & existing & reason & uploaded & total & _ & _ & _ & ->)
        |[(data & comment & err & _ & _ & _ & _ & _ & ->)
         |(data & comment & relPath & uploaded & total & _ & _ & _ & _ & _ & -> & _)]]];
    cbn [handlers.withSessions handlers.sessionStore].
  - split; [done|]. by destruct (storage.Get _ _).
  - split; [intros; by apply Update_other|]. rewrite Update_same.
    by destruct (storage.Get _ _).
  - split; [intros; by apply Update_other|]. rewrite Update_same.
    by destruct (storage.Get _ _).
  - split; [intros; by apply Update_other|]. rewrite Update_same.
    by destruct (storage.Get _ _).
Qed.

(** X15. When the file cannot be saved, [SyncHandler] appends the error to
    the error list of the session, stamps the session, and changes nothing
    else: the counters and the status of the session stay. *)
Theorem SyncHandler_save_failure_recorded env req st :
  (handlers.SyncHandler env req st).1 = handlers.InternalServerError "failed to save file" ->
  exists err session,
    handlers.SaveFile env = inr err
    /\ storage.Get (handlers.sync_token req) (handlers.sessionStore st) = Some session
    /\ storage.Get (handlers.sync_token req)
         (handlers.sessionStore (handlers.SyncHandler env req st).2)
       = Some (models.Update (handlers.updateNow env) (handlers.errorUpdater err session))
    /\ models.Errors (handlers.errorUpdater err session) = models.Errors session ++ [err]
    /\ models.Uploaded (handlers.errorUpdater err session) = models.Uploaded session
    /\ models.Skipped (handlers.errorUpdater err session) = models.Skipped session
    /\ models.Status (handlers.errorUpdater err session) = models.Status session.
Proof.
  intros Hresp.
  assert (exists session, storage.Get (handlers.sync_token req) (handlers.sessionStore st)
                          = Some session) as [session Hget].
  { unfold handlers.SyncHandler in Hresp.
    destruct (String.eqb _ _); [done|].
    destruct (storage.Get _ _) as [session|]; [by eexists|done]. }
  destruct (SyncHandler_cases env req st)
    as [[_ Hr]
       |[(data & existing & reason & uploaded & total & _ & _ & Hr & _)
        |[(data & comment & err & _ & _ & _ & Hsave & _ & Hst)
         |(data & comment & relPath & uploaded & total & _ & _ & _ & _ & Hr & _)]]];
    try (rewrite Hresp in Hr; done).
  exists err, session. rewrite Hst. cbn [handlers.withSessions handlers.sessionStore].
  rewrite Update_same, Hget. by repeat split.
Qed.




(** X17. What [SyncHandler] records in the session.  For a photo it saved
    it adds one to the uploaded count and makes the session completed when
    uploaded and skipped together reach the total, syncing otherwise; for a
    duplicate it adds one to the skipped count and makes the session
    syncing, whatever the counts.  Either way the current file is the
    original name and the session is stamped with the clock. *)
Theorem SyncHandler_records_upload env req st session :
  storage.Get (handlers.sync_token req) (handlers.sessionStore st) = Some session ->
  match (handlers.SyncHandler env req st).1 with
  | handlers.SyncSaved _ _ _ =>
    exists session',
      storage.Get (handlers.sync_token req)
                  (handlers.sessionStore (handlers.SyncHandler env req st).2)
      = Some session'
      /\ models.Uploaded session' = Go.add64 (models.Uploaded session) 1
      /\ models.Skipped session' = models.Skipped session
      /\ models.Status session'
         = (if models.Total session
               <=? Go.add64 (Go.add64 (models.Uploaded session) 1) (models.Skipped session)
            then models.StatusCompleted else models.StatusSyncing)
      /\ models.CurrentFile session' = handlers.sync_originalName req
      /\ models.LastUpdate session' = handlers.updateNow env
      /\ models.Errors session' = models.Errors session
  | handlers.SyncDuplicate _ _ _ _ =>
    exists session',
      storage.Get (handlers.sync_token req)
                  (handlers.sessionStore (handlers.SyncHandler env req st).2)
      = Some session'
      /\ models.Uploaded session' = models.Uploaded session
      /\ models.Skipped session' = Go.add64 (models.Skipped session) 1
      /\ models.Status session' = models.StatusSyncing
      /\ models.CurrentFile session' = handlers.sync_originalName req
      /\ models.LastUpdate session' = handlers.updateNow env
      /\ models.Errors session' = models.Errors session
  | _ => True
  end.
Proof.
  intros Hget.
  destruct (SyncHandler_cases env req st)
    as [[_ Hr]
       |[(data & existing & reason & u & t & _ & _ & -> & ->)
        |[(data & comment & err & _ & _ & _ & _ & -> & _)
         |(data & comment & rel & u & t & _ & _ & _ & _ & -> & -> & _)]]].
  - by destruct (handlers.SyncHandler env req st).1.
  - cbn [handlers.withSessions handlers.sessionStore]. rewrite Update_same, Hget.
    eexists. split; [reflexivity|]. by repeat split.
  - done.
  - rewrite Update_same, Hget. eexists. split; [reflexivity|]. by repeat split.
Qed.

Lemma serve_keeps_hash st (r : Spec.Request) (h : string) info :
  storage.hashDB (handlers.duplicateCheck st) !! h = Some info ->
  storage.hashDB (handlers.duplicateCheck (Spec.serve st r)) !! h = Some info.
Proof.
  intros Hh. destruct r as [now token|now req|env req|token|now]; cbn [Spec.serve].
  - done.
  - unfold handlers.InitHandler. destruct (String.eqb _ _); [done|].
    destruct (handlers.init_body req) as [[total filter]|]; [|done].
    destruct (storage.Update _ _ _ _) as [[] store]; done.
  - destruct (SyncHandler_cases env req st)
      as [[-> _]
         |[(data & existing & reason & u & t & _ & _ & _ & ->)
          |[(data & comment & err & _ & _ & _ & _ & _ & ->)
           |(data & comment & rel & u & t & _ & Hmiss & _ & _ & _ & _ & -> & _)]]];
      try done.
    unfold storage.AddHash. cbn [storage.hashDB].
    rewrite lookup_insert_ne; [done|]. intros Heq. rewrite Heq in Hmiss. by rewrite Hmiss in Hh.
  - unfold handlers.DeleteSessionHandler. by destruct (String.eqb _ _).
  - done.
Qed.

(** X18. Once [SyncHandler] has saved a photo, every later upload of the
    same bytes that reaches the duplicate check is answered as a duplicate
    by hash with the path of the saved file, whatever requests were served
    in between and whatever identifier, name and date it carries. *)
Theorem saved_photo_stays_duplicate env req st uploaded total relPath
    (later : list Spec.Request) env2 req2 :
  (handlers.SyncHandler env req st).1 = handlers.SyncSaved uploaded total relPath ->
  handlers.sync_photo req2 = handlers.sync_photo req ->
  handlers.sync_token req2 <> EmptyString ->
  is_Some (storage.Get (handlers.sync_token req2)
             (handlers.sessionStore
                (foldl Spec.serve (handlers.SyncHandler env req st).2 later))) ->
  handlers.open_fails env2 = false -> handlers.read_fails env2 = false ->
  exists uploaded2 total2,
    (handlers.SyncHandler env2 req2
       (foldl Spec.serve (handlers.SyncHandler env req st).2 later)).1
    = handlers.SyncDuplicate uploaded2 total2 relPath "hash".
Proof.
  intros Hresp Hphoto Htok [session Hget] Hopen Hread.
  destruct (SyncHandler_cases env req st)
    as [[_ Hr]
       |[(data & existing & reason & u & t & _ & _ & Hr & _)
        |[(data & comment & err & _ & _ & _ & _ & Hr & _)
         |(data & comment & rel & u & t & Hdata & _ & _ & _ & Hr & _ & Hdc & _)]]];
    try (rewrite Hresp in Hr; done).
  rewrite Hresp in Hr. injection Hr as <- <- <-.
  set (st1 := (handlers.SyncHandler env req st).2) in *.
  assert (exists info,
            storage.hashDB (handlers.duplicateCheck (foldl Spec.serve st1 later))
              !! CalculateHash data = Some info
            /\ FileHashInfo.Path info = relPath) as (info & Hinfo & Hpath).
  { exists {| FileHashInfo.Hash := CalculateHash data;
              FileHashInfo.Size := Z.of_nat (length data);
              FileHashInfo.Date := Spec.dateTakenOf env req;
              FileHashInfo.Path := relPath |}. split; [|reflexivity].
    assert (storage.hashDB (handlers.duplicateCheck st1) !! CalculateHash data
            = Some {| FileHashInfo.Hash := CalculateHash data;
                      FileHashInfo.Size := Z.of_nat (length data);
                      FileHashInfo.Date := Spec.dateTakenOf env req;
                      FileHashInfo.Path := relPath |}) as Hnow.
    { rewrite Hdc. unfold storage.AddHash. cbn [storage.hashDB]. apply lookup_insert_eq. }
    clear Hget Hdc. clearbody st1. revert st1 Hnow.
    induction later as [|r later IH]; intros st1 Hnow; [done|].
    cbn [foldl]. apply IH. by apply serve_keeps_hash. }
  set (st2 := foldl Spec.serve st1 later) in *.
  unfold handlers.SyncHandler. apply String.eqb_neq in Htok. rewrite Htok, Hget.
  rewrite Hphoto, Hdata, Hopen, Hread.
  unfold storage.CheckDuplicate. rewrite Hinfo.
  destruct (handlers.sessionCounts _ _) as [u2 t2]. exists u2, t2. by rewrite Hpath.
Qed.

Lemma AddPhoto_index_any_write w w' counterNumber relPath fullPath date size hash
    userComment (idx : storage.Indexer) disk :
  (storage.AddPhoto w counterNumber relPath fullPath date size hash userComment idx disk).1.2
  = (storage.AddPhoto w' counterNumber relPath fullPath date size hash userComment
                      idx disk).1.2.
Proof.
  unfold storage.AddPhoto, storage.saveIndex.
  destruct (existsb _ _); [done|]. by destruct w, w'.
Qed.

(** X19. The outcome of the index write never reaches the client.  With
    another outcome of the write, [SyncHandler] gives the same answer and
    leaves the same sessions, the same index in memory and the same hash
    table; only the index file can differ. *)
Theorem SyncHandler_ignores_index_write env (w : storage.WriteOutcome) req st :
  (handlers.SyncHandler (Spec.withWrite env w) req st).1
  = (handlers.SyncHandler env req st).1
  /\ handlers.sessionStore (handlers.SyncHandler (Spec.withWrite env w) req st).2
     = handlers.sessionStore (handlers.SyncHandler env req st).2
  /\ handlers.indexer (handlers.SyncHandler (Spec.withWrite env w) req st).2
     = handlers.indexer (handlers.SyncHandler env req st).2
  /\ handlers.duplicateCheck (handlers.SyncHandler (Spec.withWrite env w) req st).2
     = handlers.duplicateCheck (handlers.SyncHandler env req st).2.
Proof.
  unfold handlers.SyncHandler, Spec.withWrite.
  cbn [handlers.now handlers.updateNow handlers.open_fails handlers.read_fails
       handlers.SaveFile handlers.BaseDir handlers.write].
  destruct (String.eqb _ _); [done|].
  destruct (storage.Get _ _) as [session|]; [|done].
  destruct (handlers.sync_photo req) as [data|]; [|done].
  destruct (handlers.open_fails env); [done|].
  destruct (handlers.read_fails env); [done|].
  destruct (storage.CheckDuplicate _ _ _ _ _ _) as [[existing|] reason]; [done|].
  destruct (if String.eqb _ _ then _ else _) as [extracted|]; [|done].
  destruct (handlers.extractUserCommentFromEXIF data) as [comment|]; [|done].
  destruct (handlers.SaveFile env) as [relPath|err]; [|done].
  match goal with
  | |- context [storage.AddPhoto w ?c ?r ?f ?d ?s ?h ?u ?i ?k] =>
    pose proof (AddPhoto_index_any_write w (handlers.write env) c r f d s h u i k) as Hsame;
    destruct (storage.AddPhoto w c r f d s h u i k) as [[e1 idx1] d1];
    destruct (storage.AddPhoto (handlers.write env) c r f d s h u i k) as [[e2 idx2] d2]
  end.
  cbn [fst snd] in Hsame. subst idx2.
  by destruct (handlers.sessionCounts _ _).
Qed.

End SyncProperties.

Section OtherHandlers.
Context `{U : Unicode} `{P : Platform}.

Implicit Types (st : handlers.State).


(** X21. [DeleteSessionHandler] answers success for every token that is not
    empty, also one without session; afterwards [StatusHandler] and
    [SyncHandler] answer that token with 404, the other sessions answer as
    before, and the index, its file and the hash table are untouched. *)
Theorem DeleteSessionHandler_forgets (token : string) st :
  token <> EmptyString ->
  (handlers.DeleteSessionHandler token st).1 = handlers.DeleteOK
  /\ (forall now,
        handlers.StatusHandler now token (handlers.DeleteSessionHandler token st).2
        = handlers.StatusNotFound "session not found")
  /\ (forall env req,
        handlers.sync_token req = token ->
        handlers.SyncHandler env req (handlers.DeleteSessionHandler token st).2
        = (handlers.NotFound "session not found",
           (handlers.DeleteSessionHandler token st).2))
  /\ (forall now other,
        other <> token ->
        handlers.StatusHandler now other (handlers.DeleteSessionHandler token st).2
        = handlers.StatusHandler now other st)
  /\ handlers.indexer (handlers.DeleteSessionHandler token st).2 = handlers.indexer st
  /\ handlers.duplicateCheck (handlers.DeleteSessionHandler token st).2
     = handlers.duplicateCheck st
  /\ handlers.disk (handlers.DeleteSessionHandler token st).2 = handlers.disk st.
Proof.
  intros Htok. unfold handlers.DeleteSessionHandler.
  apply String.eqb_neq in Htok. rewrite Htok. unfold handlers.withSessions.
  cbn [fst snd handlers.indexer handlers.duplicateCheck handlers.disk].
  split_and!; try done.
  - intros now. unfold handlers.StatusHandler, storage.Get, storage.Delete.
    cbn [handlers.sessionStore storage.sessions]. by rewrite Htok, lookup_delete_eq.
  - intros env req Hreq. unfold handlers.SyncHandler, storage.Get, storage.Delete.
    cbn [handlers.sessionStore storage.sessions]. by rewrite Hreq, Htok, lookup_delete_eq.
  - intros now other Hne. unfold handlers.StatusHandler, storage.Get, storage.Delete.
    cbn [handlers.sessionStore storage.sessions]. by rewrite lookup_delete_ne.
Qed.


Lemma foldl_insert_keys {A} (f : string -> A) (keys : list string) :
  forall (acc : gmap string A) k,
    foldl (fun result counter => <[counter := f counter]> result) acc keys !! k
    = if decide (k ∈ keys) then Some (f k) else acc !! k.
Proof.
  induction keys as [|c keys IH]; intros acc k; cbn [foldl].
  - rewrite decide_False; [done|]. apply not_elem_of_nil.
  - rewrite IH. destruct (decide (k ∈ keys)) as [Hin|Hnin].
    + rewrite decide_True; [done|]. by apply elem_of_cons; right.
    + destruct (decide (k = c)) as [->|Hne].
      * rewrite decide_True; [by rewrite lookup_insert_eq|]. by apply elem_of_cons; left.
      * rewrite decide_False; [by rewrite lookup_insert_ne|].
        intros [?|?]%elem_of_cons; done.
Qed.

Lemma GetAllCounters_elem (idx : storage.Indexer) k :
  k ∈ storage.GetAllCounters idx <-> is_Some (storage.index idx !! k).
Proof.
  unfold storage.GetAllCounters. rewrite list_elem_of_fmap. split.
  - intros ([k' v] & -> & Hkv). apply elem_of_map_to_list in Hkv. by eexists.
  - intros [v Hv]. exists (k, v). split; [done|]. by apply elem_of_map_to_list.
Qed.

End OtherHandlers.

Section IndexListing.
Context `{UL : Spec.UnicodeLaws}.

Lemma adds_keys_normal (calls : list Spec.AddPhotoCall) :
  forall start : storage.Indexer * option storage.IndexFile,
    (forall k, is_Some (storage.index start.1 !! k) ->
               storage.NormalizeCounterNumber k = k) ->
    forall k, is_Some (storage.index (foldl Spec.applyAddPhoto start calls).1 !! k) ->
              storage.NormalizeCounterNumber k = k.
Proof.
  induction calls as [|c calls IH]; intros start Hstart; [done|].
  cbn [foldl]. apply IH. intros k.
  unfold Spec.applyAddPhoto.
  pose proof (AddPhoto_index (Spec.call_write c) (Spec.call_counterNumber c)
                (Spec.call_relPath c) (Spec.call_fullPath c) (Spec.call_date c)
                (Spec.call_size c) (Spec.call_hash c) (Spec.call_userComment c)
                start.1 start.2) as Hidx.
  cbv zeta in Hidx.
  destruct (storage.AddPhoto _ _ _ _ _ _ _ _ _ _) as [[err idx'] disk'].
  cbn [fst snd] in *. rewrite Hidx. intros Hk.
  apply lookup_insert_is_Some in Hk as [<-|[_ Hk]].
  - apply Normalize_idempotent.
  - by apply Hstart.
Qed.

(** X22. What [IndexHandler] lists without an identifier: one entry per
    key of the index, the entry of a key being what [GetPhotosByCounter]
    returns for it, the bucket of the key's normal form.  For an index
    filled by [AddPhoto] alone that is the index itself, every bucket under
    its key. *)
Theorem IndexHandler_lists_buckets :
  (forall st : handlers.State,
      exists result,
        handlers.IndexHandler EmptyString st = handlers.IndexAll result
        /\ forall k,
             result !! k
             = match storage.index (handlers.indexer st) !! k with
               | Some _ => Some (storage.GetPhotosByCounter (handlers.indexer st) k)
               | None => None
               end)
  /\ (forall dir disk (calls : list Spec.AddPhotoCall) (st : handlers.State),
        handlers.indexer st = Spec.afterAdds dir disk calls ->
        handlers.IndexHandler EmptyString st
        = handlers.IndexAll (storage.index (handlers.indexer st))).
Proof.
  split.
  - intros st. unfold handlers.IndexHandler. cbn [String.eqb].
    eexists. split; [reflexivity|].
    intros k. rewrite foldl_insert_keys, lookup_empty.
    destruct (storage.index (handlers.indexer st) !! k) as [bucket|] eqn:Hk.
    + rewrite decide_True; [done|]. apply GetAllCounters_elem. by rewrite Hk.
    + rewrite decide_False; [done|]. rewrite GetAllCounters_elem, Hk. by intros [? ?].
  - intros dir disk calls st Hst. unfold handlers.IndexHandler. cbn [String.eqb]. f_equal.
    apply map_eq. intros k. rewrite foldl_insert_keys, lookup_empty.
    destruct (storage.index (handlers.indexer st) !! k) as [bucket|] eqn:Hk.
    + rewrite decide_True by (apply GetAllCounters_elem; by rewrite Hk).
      unfold storage.GetPhotosByCounter.
      rewrite (adds_keys_normal calls
                 ({| storage.indexDir := dir; storage.index := ∅ |}, disk)).
      * by rewrite Hk.
      * intros k' [? Hk']. cbn in Hk'. by rewrite lookup_empty in Hk'.
      * fold (Spec.afterAdds dir disk calls). rewrite <- Hst. by rewrite Hk.
    + rewrite decide_False; [done|]. rewrite GetAllCounters_elem, Hk. by intros [? ?].
Qed.

End IndexListing.

Section ScannerResults.

Lemma startsAlphanumeric_app run (b : byte) :
  Spec.startsAlphanumeric run -> Spec.startsAlphanumeric (run ++ [b]).
Proof. by destruct run. Qed.

Lemma candidatesFrom_slices (s : list byte) : forall cur pos (pre : list byte) c,
  length pre = pos ->
  match cur with
  | Some (start, run) =>
    exists pre0, pre = pre0 ++ run /\ length pre0 = start /\ Spec.startsAlphanumeric run
  | None => True
  end ->
  c ∈ Spec.candidatesFrom cur pos s ->
  exists p q, pre ++ s = p ++ c.2 ++ q /\ length p = c.1 /\ Spec.startsAlphanumeric c.2.
Proof.
  induction s as [|b t IH]; intros cur pos pre c Hpos Hcur Hc; cbn [Spec.candidatesFrom] in Hc.
  - destruct cur as [[start run]|]; [|by apply elem_of_nil in Hc].
    apply list_elem_of_singleton in Hc as ->. destruct Hcur as (pre0 & -> & Hlen & Hrun).
    exists pre0, []. by rewrite !app_nil_r.
  - destruct cur as [[start run]|].
    + destruct Hcur as (pre0 & -> & Hlen & Hrun).
      destruct (Spec.runByte b).
      * edestruct (IH (Some (start, run ++ [b])) (S pos) ((pre0 ++ run) ++ [b]) c)
          as (p & q & Heq & ? & ?); [| |exact Hc|].
        { rewrite length_app. cbn. lia. }
        { exists pre0. split; [by rewrite <- app_assoc|].
          split; [done|by apply startsAlphanumeric_app]. }
        exists p, q. rewrite <- Heq. by rewrite <- !app_assoc.
      * apply elem_of_cons in Hc as [->|Hc].
        { exists pre0, (b :: t). by rewrite <- app_assoc. }
        edestruct (IH None (S pos) ((pre0 ++ run) ++ [b]) c)
          as (p & q & Heq & ? & ?); [| |exact Hc|].
        { rewrite length_app. cbn. lia. }
        { done. }
        exists p, q. rewrite <- Heq. by rewrite <- !app_assoc.
    + destruct (handlers.isAlphanumeric b) eqn:Hb.
      * edestruct (IH (Some (pos, [b])) (S pos) (pre ++ [b]) c)
          as (p & q & Heq & ? & ?); [| |exact Hc|].
        { rewrite length_app. cbn. lia. }
        { exists pre. by repeat split. }
        exists p, q. rewrite <- Heq. by rewrite <- !app_assoc.
      * edestruct (IH None (S pos) (pre ++ [b]) c)
          as (p & q & Heq & ? & ?); [| |exact Hc|].
        { rewrite length_app. cbn. lia. }
        { done. }
        exists p, q. rewrite <- Heq. by rewrite <- !app_assoc.
Qed.

Lemma scanLoop_result bound accept (data : list byte) res :
  0 <= bound ->
  handlers.scanLoop bound accept (S (length data)) data 0 = Some res ->
  exists pre run post,
    data = pre ++ run ++ post /\ res = string_of_bytes run
    /\ accept run = true /\ forallb Spec.runByte run = true
    /\ Spec.startsAlphanumeric run.
Proof.
  intros Hbound Hloop.
  pose proof (scanLoop_candidates bound accept data Hbound (S (length data)) [] data
                eq_refl ltac:(lia)) as Hsc.
  change (length (@nil byte)) with 0%nat in Hsc. rewrite Hsc in Hloop. clear Hsc.
  destruct (Spec.firstAccepted _ _ _ _) as [c|] eqn:Hfind; [|done].
  injection Hloop as <-. unfold Spec.firstAccepted in Hfind.
  apply find_some in Hfind as [Hin Hacc]. apply list_elem_of_In in Hin.
  apply andb_true_iff in Hacc as [_ Hacc].
  destruct (candidatesFrom_slices data None 0%nat [] c eq_refl I Hin)
    as (p & q & Heq & _ & Hstart).
  exists p, c.2, q. split_and!; try done.
  by apply (candidatesFrom_runBytes data None 0%nat c).
Qed.

(** X23. Whatever the bytes, [findUserComment] returns the empty string or
    a slice of them that begins with an ASCII letter or digit, consists of
    ASCII letters, digits and bytes 0xD0-0xEF, is 8 bytes long or longer and
    holds an ASCII digit; a slice of 8 or 9 bytes is ASCII letters and digits
    throughout. *)
Theorem findUserComment_result_shape (exifData : list byte) :
  handlers.findUserComment exifData = EmptyString
  \/ exists pre run post,
       exifData = pre ++ run ++ post
       /\ handlers.findUserComment exifData = string_of_bytes run
       /\ Spec.startsAlphanumeric run
       /\ forallb Spec.runByte run = true
       /\ (8 <= length run)%nat
       /\ existsb Spec.isDigit run = true
       /\ ((length run < 10)%nat -> forallb handlers.isAlphanumeric run = true).
Proof.
  unfold handlers.findUserComment.
  destruct (handlers.scanLoop 10 _ _ _ _) as [res|] eqn:Hlong.
  - right. apply scanLoop_result in Hlong as (pre & run & post & -> & -> & Hacc & Hrun & Hst);
      [|lia].
    exists pre, run, post. rewrite (proj1 (accept_qualifies run Hrun)) in Hacc.
    unfold Spec.qualifiesLong in Hacc. apply andb_true_iff in Hacc as [Hlen Hdigit].
    apply Nat.leb_le in Hlen. split_and!; try done; lia.
  - destruct (handlers.scanLoop 8 _ _ _ _) as [res|] eqn:Hshort; [|by left].
    right. apply scanLoop_result in Hshort as (pre & run & post & -> & -> & Hacc & Hrun & Hst);
      [|lia].
    exists pre, run, post. rewrite (proj2 (accept_qualifies run Hrun)) in Hacc.
    unfold Spec.qualifiesShort in Hacc.
    apply andb_true_iff in Hacc as [Hacc Halnum].
    apply andb_true_iff in Hacc as [Hacc Hdigit].
    apply andb_true_iff in Hacc as [Hlen _].
    apply Nat.leb_le in Hlen. by split_and!.
Qed.


Lemma byte_FF : byte_val (byte_of 0xFF) = 0xFF.
Proof. reflexivity. Qed.

Lemma segments_length (skipped : list (Z * list byte)) :
  (length skipped <= length (concat ((fun seg => Spec.segment seg.1 seg.2) <$> skipped)))%nat.
Proof.
  induction skipped as [|seg skipped IH]; [done|].
  rewrite fmap_cons. cbn [concat length]. rewrite length_app, segment_length. lia.
Qed.

Lemma walk_stops fuel (data pre rest : list byte) :
  data = pre ++ rest ->
  match rest with
  | b :: _ :: _ => byte_val b <> 0xFF
  | _ => True
  end ->
  handlers.walkSegments fuel data (length pre) = Some EmptyString.
Proof.
  intros -> Hrest. destruct fuel as [|fuel]; [done|]. cbn [handlers.walkSegments].
  rewrite length_app.
  destruct rest as [|b [|b' rest]].
  - cbn [length]. destruct (Z.ltb_spec (Z.of_nat (length pre)) (Z.of_nat (length pre + 0) - 1));
      [lia|done].
  - cbn [length]. destruct (Z.ltb_spec (Z.of_nat (length pre)) (Z.of_nat (length pre + 1) - 1));
      [lia|done].
  - destruct (Z.ltb (Z.of_nat (length pre)) _); [|done].
    rewrite lookup_app_r by lia. rewrite Nat.sub_diag. cbn [lookup list_lookup].
    rewrite lookup_app_r by lia.
    replace (length pre + 1 - length pre)%nat with 1%nat by lia. cbn [lookup list_lookup].
    destruct (Z.eqb_spec (byte_val b) 0xFF); done.
Qed.

(** X24. A buffer that is not a JPEG, and a JPEG whose segments up to the
    first byte that is no marker are none of them APP1, have no comment:
    [extractUserCommentFromEXIF] returns the empty string. *)
Theorem extract_without_APP1 :
  (forall data : list byte,
      match data with
      | b0 :: b1 :: _ => byte_val b0 <> 0xFF \/ byte_val b1 <> 0xD8
      | _ => True
      end ->
      handlers.extractUserCommentFromEXIF data = Some EmptyString)
  /\ (forall (skipped : list (Z * list byte)) (rest : list byte),
        Forall Spec.skippable skipped ->
        match rest with
        | b :: _ :: _ => byte_val b <> 0xFF
        | _ => True
        end ->
        handlers.extractUserCommentFromEXIF
          ([byte_of 0xFF; byte_of 0xD8]
           ++ concat ((fun seg => Spec.segment seg.1 seg.2) <$> skipped) ++ rest)
        = Some EmptyString).
Proof.
  split.
  - intros [|b0 [|b1 data]] Hdata; try done. cbn [handlers.extractUserCommentFromEXIF].
    destruct (Z.eqb_spec (byte_val b0) 0xFF); [|done].
    destruct (Z.eqb_spec (byte_val b1) 0xD8); [|done]. by destruct Hdata.
  - intros skipped rest Hskipped Hrest.
    set (data := [byte_of 0xFF; byte_of 0xD8] ++ _).
    assert (handlers.extractUserCommentFromEXIF data
            = handlers.walkSegments (length data) data 2) as -> by done.
    assert (length skipped + 2 <= length data)%nat as Hlen.
    { subst data. rewrite !length_app. cbn [length].
      pose proof (segments_length skipped). lia. }
    replace (length data) with (length skipped + (length data - length skipped))%nat at 1
      by lia.
    rewrite (walk_skipped skipped _ data [byte_of 0xFF; byte_of 0xD8] rest Hskipped eq_refl).
    apply (walk_stops _ data _ rest); [|done]. subst data. by rewrite <- app_assoc.
Qed.

(** X25. A JPEG whose APP1 segment is cut short makes the scanner panic.
    When, after segments that are passed over, an APP1 marker and its length
    are followed by four or five more bytes only and the length does not
    reach beyond them, the slice [data[offset+2:offset+8]] of the signature
    test is out of range. *)
Theorem extract_truncated_APP1_panics (skipped : list (Z * list byte)) (n : Z)
    (body : list byte) :
  Forall Spec.skippable skipped ->
  (4 <= length body < 6)%nat ->
  2 <= n <= 2 + Z.of_nat (length body) ->
  handlers.extractUserCommentFromEXIF
    ([byte_of 0xFF; byte_of 0xD8]
     ++ concat ((fun seg => Spec.segment seg.1 seg.2) <$> skipped)
     ++ [byte_of 0xFF; byte_of 0xE1] ++ Spec.be16 n ++ body)
  = None.
Proof.
  intros Hskipped Hbody Hn.
  set (segs := concat ((fun seg => Spec.segment seg.1 seg.2) <$> skipped)).
  set (data := [byte_of 0xFF; byte_of 0xD8] ++ _).
  assert (handlers.extractUserCommentFromEXIF data
          = handlers.walkSegments (length data) data 2) as -> by done.
  assert (length data = (2 + length segs + 4 + length body)%nat) as Hlen.
  { subst data. rewrite !length_app. cbn [length Spec.be16]. lia. }
  assert (length skipped <= length segs)%nat as Hsegs.
  { apply segments_length. }
  replace (length data) with (length skipped + S (length data - length skipped - 1))%nat
    at 1 by lia.
  rewrite (walk_skipped skipped _ data [byte_of 0xFF; byte_of 0xD8]
             ([byte_of 0xFF; byte_of 0xE1] ++ Spec.be16 n ++ body) Hskipped eq_refl).
  fold segs. set (pre := [byte_of 0xFF; byte_of 0xD8] ++ segs).
  assert (data = pre ++ [byte_of 0xFF; byte_of 0xE1] ++ Spec.be16 n ++ body) as Hdata.
  { subst data pre. by rewrite <- app_assoc. }
  assert (length pre = (2 + length segs)%nat) as Hpre by (subst pre; by rewrite length_app).
  cbn [handlers.walkSegments].
  destruct (Z.ltb_spec (Z.of_nat (length pre)) (Z.of_nat (length data) - 1)); [|lia].
  assert (data !! length pre = Some (byte_of 0xFF)) as ->.
  { rewrite Hdata, lookup_app_r by lia. by rewrite Nat.sub_diag. }
  assert (data !! (length pre + 1)%nat = Some (byte_of 0xE1)) as ->.
  { rewrite Hdata, lookup_app_r by lia.
    by replace (length pre + 1 - length pre)%nat with 1%nat by lia. }
  change (byte_val (byte_of 0xFF) =? 0xFF) with true.
  change (byte_val (byte_of 0xE1) =? 0xFF) with false.
  change (byte_val (byte_of 0xE1) =? 0xE1) with true. cbn [negb].
  assert (handlers.uint16At data (length pre + 2) = Some n) as ->.
  { rewrite Hdata.
    replace (pre ++ [byte_of 0xFF; byte_of 0xE1] ++ Spec.be16 n ++ body)
      with ((pre ++ [byte_of 0xFF; byte_of 0xE1]) ++ Spec.be16 n ++ body)
      by (by rewrite <- app_assoc).
    replace (length pre + 2)%nat with (length (pre ++ [byte_of 0xFF; byte_of 0xE1]))
      by (rewrite length_app; cbn; lia).
    apply uint16At_be16. lia. }
  destruct (Z.ltb_spec n 2); [lia|].
  destruct (Nat.ltb_spec (length data) (length pre + 2 + Z.to_nat n)); [lia|].
  cbn [orb].
  destruct (Nat.leb_spec (length pre + 2 + 6) (length data)); [|lia].
  destruct (Nat.ltb_spec (length data) (length pre + 2 + 8)); [done|lia].
Qed.

End ScannerResults.

Section UtilsProperties.

Lemma utils_extractFromAPP1_empty (data : list byte) offset :
  utils.extractFromAPP1 data offset = EmptyString.
Proof.
  unfold utils.extractFromAPP1. destruct (_ <? _)%nat; [done|]. by destruct (negb _).
Qed.

Lemma utils_walk_empty (data : list byte) : forall fuel offset,
  2 <= 2 * Z.of_nat fuel ->
  Z.of_nat (length data) - Z.of_nat offset + 2 <= 2 * Z.of_nat fuel ->
  utils.walkSegments fuel data offset = Some EmptyString.
Proof.
  induction fuel as [|fuel IH]; intros offset Hone Hfuel; [lia|].
  cbn [utils.walkSegments].
  destruct (Z.ltb_spec (Z.of_nat offset) (Z.of_nat (length data) - 1)); [|done].
  destruct (data !! offset) as [b0|]; [|done].
  destruct (data !! (offset + 1)%nat) as [marker|]; [|done].
  destruct (negb _); [done|].
  destruct (byte_val marker =? 0xFF); [apply IH; lia|].
  rewrite utils_extractFromAPP1_empty.
  assert ((if byte_val marker =? 0xE1 then EmptyString else EmptyString) = EmptyString)
    as -> by (by destruct (_ =? _)).
  cbn [String.eqb negb]. rewrite andb_false_r.
  destruct (data !! (offset + 2)%nat) as [hi|]; [|done].
  destruct (data !! (offset + 2 + 1)%nat) as [lo|]; [|done].
  destruct (Z.ltb_spec (Z.lor (Z.shiftl (byte_val hi) 8) (byte_val lo)) 2); [done|].
  apply IH; lia.
Qed.

(** X26. [utils.ExtractCounterNumberFromEXIF] finds nothing: for every
    buffer its walk over the segments ends and returns the empty string. *)
Theorem utils_ExtractCounterNumberFromEXIF_empty (data : list byte) :
  utils.ExtractCounterNumberFromEXIF data = Some EmptyString.
Proof.
  unfold utils.ExtractCounterNumberFromEXIF.
  destruct data as [|b0 [|b1 data]]; [done|done|].
  destruct (negb _ || negb _); [done|]. apply utils_walk_empty; cbn [length]; lia.
Qed.

End UtilsProperties.

Section FileNames.
Context `{OS : PathOS}.

Lemma splitLoop_fields (rest : list byte) : forall (pre cur : list byte) start parts,
  length pre = start ->
  forallb (fun c => negb (Spec.isUnderscore c)) cur = true ->
  storage.splitLoop (pre ++ cur ++ rest) rest (length (pre ++ cur)) start parts
  = parts ++ (string_of_bytes <$> Spec.fieldsFrom cur rest).
Proof.
  induction rest as [|c t IH]; intros pre cur start parts Hstart Hcur;
    cbn [storage.splitLoop Spec.fieldsFrom].
  - rewrite app_nil_r, length_app.
    destruct cur as [|b cur].
    + cbn [length]. destruct (Nat.ltb_spec start (length pre + 0)); [lia|].
      by rewrite app_nil_r.
    + cbn [length]. destruct (Nat.ltb_spec start (length pre + S (length cur))); [|lia].
      rewrite <- Hstart, drop_app_length. done.
  - fold (Spec.isUnderscore c). destruct (Spec.isUnderscore c) eqn:Hc.
    + replace (pre ++ cur ++ c :: t) with (((pre ++ cur) ++ [c]) ++ [] ++ t)
        by (by rewrite <- !app_assoc).
      replace (S (length (pre ++ cur))) with (length (((pre ++ cur) ++ [c]) ++ []))
        by (rewrite app_nil_r, !length_app; cbn; lia).
      rewrite IH by (done || (rewrite app_nil_r, !length_app; cbn; lia)).
      rewrite !length_app.
      destruct cur as [|b cur].
      * cbn [length]. destruct (Nat.ltb_spec start (length pre + 0)); [lia|]. done.
      * cbn [length]. destruct (Nat.ltb_spec start (length pre + S (length cur))); [|lia].
        rewrite <- app_assoc. cbn [fmap list_fmap]. do 3 f_equal.
        rewrite <- Hstart.
        replace (((pre ++ b :: cur) ++ [c]) ++ [] ++ t) with (pre ++ (b :: cur) ++ c :: t)
          by (by rewrite <- !app_assoc).
        rewrite drop_app_length.
        replace (length pre + S (length cur) - length pre)%nat with (length (b :: cur))
          by (cbn; lia).
        by rewrite take_app_length.
    + replace (pre ++ cur ++ c :: t) with (pre ++ (cur ++ [c]) ++ t)
        by (by rewrite <- !app_assoc).
      replace (S (length (pre ++ cur))) with (length (pre ++ cur ++ [c]))
        by (rewrite !length_app; cbn; lia).
      apply IH; [done|]. rewrite forallb_app, Hcur. cbn. by rewrite Hc.
Qed.

Lemma splitByUnderscore_fields (s : string) :
  storage.splitByUnderscore s
  = string_of_bytes <$> Spec.fieldsFrom [] (bytes_of_string s).
Proof.
  unfold storage.splitByUnderscore.
  apply (splitLoop_fields (bytes_of_string s) [] [] 0%nat []); done.
Qed.


Lemma fieldsFrom_parts (s : list byte) : forall cur,
  forallb (fun c => negb (Spec.isUnderscore c)) cur = true ->
  Forall (fun f => f <> [] /\ forallb (fun c => negb (Spec.isUnderscore c)) f = true)
         (Spec.fieldsFrom cur s)
  /\ concat (Spec.fieldsFrom cur s)
     = cur ++ List.filter (fun c => negb (Spec.isUnderscore c)) s.
Proof.
  induction s as [|c t IH]; intros cur Hcur; cbn [Spec.fieldsFrom List.filter].
  - destruct cur as [|b cur]; [by split|]. split; [by repeat constructor|].
    cbn [concat]. by rewrite !app_nil_r.
  - destruct (Spec.isUnderscore c) eqn:Hc; cbn [negb].
    + destruct (IH [] eq_refl) as [Hall Hcat]. destruct cur as [|b cur]; [done|].
      split; [by constructor|]. cbn [concat]. by rewrite Hcat.
    + destruct (IH (cur ++ [c])) as [Hall Hcat].
      { rewrite forallb_app, Hcur. cbn. by rewrite Hc. }
      split; [done|]. rewrite Hcat. by rewrite <- app_assoc.
Qed.

Lemma fieldsFrom_underscores (u s : list byte) :
  forallb Spec.isUnderscore u = true ->
  Spec.fieldsFrom [] (u ++ s) = Spec.fieldsFrom [] s.
Proof.
  induction u as [|c u IH]; [done|]. cbn [forallb]. intros [Hc Hu]%andb_true_iff.
  cbn [app Spec.fieldsFrom]. rewrite Hc. by apply IH.
Qed.

Lemma fieldsFrom_field (part : list byte) : forall cur rest,
  forallb (fun c => negb (Spec.isUnderscore c)) part = true ->
  match rest with [] => True | c :: _ => Spec.isUnderscore c = true end ->
  cur ++ part <> [] ->
  Spec.fieldsFrom cur (part ++ rest) = (cur ++ part) :: Spec.fieldsFrom [] rest.
Proof.
  induction part as [|c part IH]; intros cur rest Hpart Hrest Hne.
  - rewrite app_nil_r in *. cbn [app]. destruct rest as [|c rest].
    + cbn. by destruct cur.
    + cbn [Spec.fieldsFrom]. rewrite Hrest. by destruct cur.
  - cbn [forallb] in Hpart. apply andb_true_iff in Hpart as [Hc Hpart].
    cbn [app Spec.fieldsFrom]. apply negb_true_iff in Hc. rewrite Hc.
    rewrite IH; [|done|done|by destruct cur]. by rewrite <- app_assoc.
Qed.

(** X27. [splitByUnderscore] cuts a string at its underscores and leaves
    the empty pieces out: no part is empty or holds an underscore, the parts
    put together are the string without its underscores, and the first part
    is the first stretch without underscore. *)
Theorem splitByUnderscore_parts (s : string) :
  Forall (fun part => part <> EmptyString
                      /\ forallb (fun c => negb (Spec.isUnderscore c))
                                 (bytes_of_string part) = true)
         (storage.splitByUnderscore s)
  /\ concat (bytes_of_string <$> storage.splitByUnderscore s)
     = List.filter (fun c => negb (Spec.isUnderscore c)) (bytes_of_string s)
  /\ (forall u part rest : list byte,
        bytes_of_string s = u ++ part ++ rest ->
        forallb Spec.isUnderscore u = true ->
        part <> [] ->
        forallb (fun c => negb (Spec.isUnderscore c)) part = true ->
        match rest with [] => True | c :: _ => Spec.isUnderscore c = true end ->
        head (storage.splitByUnderscore s) = Some (string_of_bytes part)).
Proof.
  rewrite splitByUnderscore_fields.
  destruct (fieldsFrom_parts (bytes_of_string s) [] eq_refl) as [Hall Hcat].
  split_and!.
  - apply Forall_fmap. eapply Forall_impl; [exact Hall|]. intros f [Hne Hf]. cbn. split.
    + intros Heq. apply Hne. destruct f; [done|discriminate Heq].
    + by rewrite bytes_of_string_of_bytes.
  - cbn [app] in Hcat. rewrite <- list_fmap_compose, <- Hcat. f_equal.
    rewrite <- (list_fmap_id (Spec.fieldsFrom [] (bytes_of_string s))) at 2.
    apply list_fmap_ext. intros i f _. cbn. apply bytes_of_string_of_bytes.
  - intros u part rest -> Hu Hne Hpart Hrest.
    rewrite fieldsFrom_underscores by done.
    rewrite (fieldsFrom_field part [] rest) by done. done.
Qed.


Lemma extLoop_suffix (visit : list byte) : forall tail,
  exists stem, rev visit ++ tail = stem ++ filepath.extLoop visit tail.
Proof.
  induction visit as [|c before IH]; intros tail; cbn [filepath.extLoop].
  - exists tail. by rewrite app_nil_r.
  - destruct (IsPathSeparator c).
    + eexists. by rewrite app_nil_r.
    + destruct (Ascii.eqb c "."%char).
      * exists (rev before). cbn [rev]. by rewrite <- app_assoc.
      * destruct (IH (c :: tail)) as [stem Hstem]. exists stem.
        cbn [rev]. by rewrite <- app_assoc.
Qed.

Lemma Ext_suffix (path : string) :
  exists stem, bytes_of_string path = stem ++ bytes_of_string (filepath.Ext path).
Proof.
  unfold filepath.Ext. rewrite bytes_of_string_of_bytes.
  destruct (extLoop_suffix (rev (bytes_of_string path)) []) as [stem Hstem].
  exists stem. by rewrite rev_involutive, app_nil_r in Hstem.
Qed.

Lemma length_bytes (s : string) : String.length s = length (bytes_of_string s).
Proof. induction s as [|c s IH]; [done|]. cbn. by rewrite IH. Qed.

Lemma substring_take (s : string) : forall n,
  String.substring 0 n s = string_of_bytes (take n (bytes_of_string s)).
Proof.
  induction s as [|c s IH]; intros [|n]; try done. cbn. by rewrite IH.
Qed.

Lemma string_of_bytes_of_string (s : string) : string_of_bytes (bytes_of_string s) = s.
Proof. apply string_of_list_ascii_of_string. Qed.

Lemma string_of_bytes_app (a b : list byte) :
  string_of_bytes (a ++ b) = String.append (string_of_bytes a) (string_of_bytes b).
Proof.
  unfold string_of_bytes. induction a as [|c a IH]; [done|].
  cbn [app string_of_list_ascii String.append]. by rewrite IH.
Qed.

Lemma stem_of_Ext (path : string) (stem : list byte) :
  bytes_of_string path = stem ++ bytes_of_string (filepath.Ext path) ->
  (String.length path <? String.length (filepath.Ext path))%nat = false
  /\ String.substring 0 (String.length path - String.length (filepath.Ext path)) path
     = string_of_bytes stem.
Proof.
  intros Hstem. rewrite substring_take, !length_bytes, Hstem, length_app.
  split; [apply Nat.ltb_ge; lia|].
  replace (length stem + length (bytes_of_string (filepath.Ext path))
           - length (bytes_of_string (filepath.Ext path)))%nat with (length stem) by lia.
  by rewrite take_app_length.
Qed.

(** X28. [extractCounterNumber] never fails on the slice of the extension;
    it returns the first stretch without underscore of the file's base name
    without its extension, and [unknown] when there is none. *)
Theorem extractCounterNumber_first_field (filename : string) :
  exists stem : list byte,
    bytes_of_string (filepath_Base filename)
    = stem ++ bytes_of_string (filepath.Ext (filepath_Base filename))
    /\ (forallb Spec.isUnderscore stem = true ->
        storage.extractCounterNumber filename = Some "unknown"%string)
    /\ (forall u part rest : list byte,
          stem = u ++ part ++ rest ->
          forallb Spec.isUnderscore u = true ->
          part <> [] ->
          forallb (fun c => negb (Spec.isUnderscore c)) part = true ->
          match rest with [] => True | c :: _ => Spec.isUnderscore c = true end ->
          storage.extractCounterNumber filename = Some (string_of_bytes part)).
Proof.
  destruct (Ext_suffix (filepath_Base filename)) as [stem Hstem].
  exists stem. split; [done|].
  destruct (stem_of_Ext _ _ Hstem) as [Hlen Hsub].
  unfold storage.extractCounterNumber. rewrite Hlen, Hsub, splitByUnderscore_fields.
  rewrite bytes_of_string_of_bytes. split.
  - intros Hu. rewrite <- (app_nil_r stem), fieldsFrom_underscores by done. done.
  - intros u part rest -> Hu Hne Hpart Hrest.
    rewrite fieldsFrom_underscores by done.
    by rewrite (fieldsFrom_field part [] rest) by done.
Qed.

(** X29. The name [SaveFile] writes to.  A name with an extension keeps it,
    with an underscore and the clock, in nanoseconds, put before it.  A name
    without extension gets [.jpg] and loses its last four bytes, and when it
    is shorter than four bytes -- the empty name of a request without
    [originalName] among them -- the slice of the base name is out of range. *)
Theorem newFilename_cases (filename : string) (timestamp : Z) :
  (filepath.Ext filename <> EmptyString ->
   exists stem : list byte,
     bytes_of_string filename = stem ++ bytes_of_string (filepath.Ext filename)
     /\ storage.newFilename filename timestamp
        = Some (string_of_bytes
                  (stem ++ ["_"%char] ++ time.appendInt timestamp 0
                   ++ bytes_of_string (filepath.Ext filename))))
  /\ (filepath.Ext filename = EmptyString ->
      (String.length filename < 4)%nat ->
      storage.newFilename filename timestamp = None)
  /\ (filepath.Ext filename = EmptyString ->
      (4 <= String.length filename)%nat ->
      storage.newFilename filename timestamp
      = Some (string_of_bytes
                (take (String.length filename - 4) (bytes_of_string filename)
                 ++ ["_"%char] ++ time.appendInt timestamp 0
                 ++ bytes_of_string ".jpg"))).
Proof.
  unfold storage.newFilename. split_and!.
  - intros Hext. destruct (Ext_suffix filename) as [stem Hstem]. exists stem.
    split; [done|]. apply String.eqb_neq in Hext. rewrite Hext.
    destruct (stem_of_Ext _ _ Hstem) as [-> ->]. f_equal.
    rewrite !string_of_bytes_app. by rewrite string_of_bytes_of_string.
  - intros -> Hlen. cbn [String.eqb String.length].
    by destruct (Nat.ltb_spec (String.length filename) 4); [|lia].
  - intros -> Hlen. cbn [String.eqb String.length].
    destruct (Nat.ltb_spec (String.length filename) 4); [lia|]. f_equal.
    rewrite substring_take, !string_of_bytes_app. done.
Qed.


Lemma decimal_rev_digits (fuel : nat) : forall u,
  0 <= u < 10 ^ Z.of_nat fuel ->
  Forall (fun c => 0x30 <= byte_val c <= 0x39) (time.decimal_rev fuel u)
  /\ foldr (fun c acc => byte_val c - 0x30 + 10 * acc) 0 (time.decimal_rev fuel u) = u.
Proof.
  induction fuel as [|fuel IH]; intros u Hu.
  - cbn in *. split; [constructor|lia].
  - cbn [time.decimal_rev]. destruct (Z.ltb_spec u 10).
    + unfold time.digit_char. split.
      * repeat constructor; rewrite byte_val_of; lia.
      * cbn [foldr]. rewrite byte_val_of; lia.
    + rewrite Nat2Z.inj_succ, Z.pow_succ_r in Hu by lia.
      destruct (IH (u / 10)) as [Hall Hval].
      { split; [apply Z.div_pos; lia|]. apply Z.div_lt_upper_bound; lia. }
      pose proof (Z.mod_pos_bound u 10 ltac:(lia)) as Hmod.
      unfold time.digit_char. split.
      * constructor; [rewrite byte_val_of; lia|done].
      * cbn [foldr]. rewrite Hval, byte_val_of by lia.
        pose proof (Z.div_mod u 10 ltac:(lia)). lia.
Qed.

Lemma appendInt_injective (x y : Z) :
  - 10 ^ 20 < x < 10 ^ 20 -> - 10 ^ 20 < y < 10 ^ 20 ->
  time.appendInt x 0 = time.appendInt y 0 -> x = y.
Proof.
  intros Hx Hy. unfold time.appendInt.
  assert (0 <= Z.abs x < 10 ^ Z.of_nat 20) as Hax by (change (Z.of_nat 20) with 20; lia).
  assert (0 <= Z.abs y < 10 ^ Z.of_nat 20) as Hay by (change (Z.of_nat 20) with 20; lia).
  destruct (decimal_rev_digits 20 (Z.abs x) Hax) as [Hdx Hvx].
  destruct (decimal_rev_digits 20 (Z.abs y) Hay) as [Hdy Hvy].
  set (dx := time.decimal_rev 20 (Z.abs x)) in *.
  set (dy := time.decimal_rev 20 (Z.abs y)) in *. clearbody dx dy.
  change (0 - length (rev dx))%nat with 0%nat.
  change (0 - length (rev dy))%nat with 0%nat. cbn [replicate app].
  assert (forall l : list byte,
            Forall (fun c => 0x30 <= byte_val c <= 0x39) l ->
            forall t, rev l <> "-"%char :: t) as Hminus.
  { intros l Hl t Heq. apply Forall_rev in Hl. rewrite Heq in Hl.
    apply Forall_cons in Hl as [Hc _]. vm_compute in Hc. destruct Hc as [Hc _].
    by apply Hc. }
  destruct (Z.ltb_spec x 0), (Z.ltb_spec y 0); cbn [app]; intros Heq.
  - injection Heq as Heq. apply (f_equal (@rev byte)) in Heq.
    rewrite !rev_involutive in Heq. rewrite Heq in Hvx. lia.
  - symmetry in Heq. by apply Hminus in Heq.
  - by apply Hminus in Heq.
  - apply (f_equal (@rev byte)) in Heq. rewrite !rev_involutive in Heq.
    rewrite Heq in Hvx. lia.
Qed.

Lemma bytes_of_string_append (a b : string) :
  bytes_of_string (String.append a b) = bytes_of_string a ++ bytes_of_string b.
Proof.
  unfold bytes_of_string. induction a as [|c a IH]; [done|].
  simpl. f_equal. exact IH.
Qed.

(** X30. The clock makes the names differ.  For one file name, [SaveFile]
    writes to different names at different clock readings. *)
Theorem newFilename_distinct (filename : string) (t1 t2 : Z) (name1 name2 : string) :
  - 2 ^ 63 <= t1 < 2 ^ 63 -> - 2 ^ 63 <= t2 < 2 ^ 63 -> t1 <> t2 ->
  storage.newFilename filename t1 = Some name1 ->
  storage.newFilename filename t2 = Some name2 ->
  name1 <> name2.
Proof.
  intros Ht1 Ht2 Hne. unfold storage.newFilename.
  destruct (_ <? _)%nat; [done|]. intros [= <-] [= <-] Heq. apply Hne.
  apply (f_equal bytes_of_string) in Heq.
  rewrite !bytes_of_string_append, !bytes_of_string_of_bytes in Heq.
  apply app_inv_head, app_inv_head, app_inv_tail in Heq.
  apply appendInt_injective; [lia|lia|done].
Qed.

End FileNames.

(** ** The further properties on the fixtures *)

(** A session started under [t9] at the beginning of 2024. *)
Lemma StartHandler_then_Status_example :
  handlers.StatusHandler Fixtures.t1 "t9"
    (handlers.StartHandler Fixtures.t0 "t9" Fixtures.stateOneKnown)
  = handlers.StatusOK models.StatusWaiting 0 0 0 Go.f64_zero EmptyString
                      "2024-01-01T00:00:00Z" 0.
Proof.
  apply (proj1 (StartHandler_then_Status Fixtures.t0 Fixtures.t1 "t9"
                  Fixtures.stateOneKnown ltac:(discriminate))).
Defined.

(** The path [p1.jpg] is in the bucket already: a second [AddPhoto] of it,
    under another spelling of the identifier, does nothing. *)
Lemma AddPhoto_existing_path_example :
  let '(err, idx', disk') :=
    storage.AddPhoto (U := Fixtures.cyrillicLower) (storage.WriteFails None)
      "ABC-123" "p1.jpg" "meter/other.jpg" Fixtures.t1 7 "h9" ""
      Fixtures.scenarioIndex None in
  err = None /\ storage.index idx' = storage.index Fixtures.scenarioIndex /\ disk' = None.
Proof.
  apply (AddPhoto_existing_path_is_noop (U := Fixtures.cyrillicLower)
           (storage.WriteFails None) "ABC-123" "p1.jpg" "meter/other.jpg" Fixtures.t1 7
           "h9" "" Fixtures.scenarioIndex None Fixtures.scenarioPhoto).
  - vm_compute. constructor.
  - reflexivity.
Defined.

Lemma AddPhoto_adds_one_record_example :
  storage.GetPhotosByCounter (U := Fixtures.cyrillicLower)
    (storage.AddPhoto (U := Fixtures.cyrillicLower) storage.WriteOk
       "ABC-123" "p2.jpg" "meter/p2.jpg" Fixtures.t1 7 "h2" ""
       Fixtures.scenarioIndex None).1.2 "ABC-123"
  ≡ₚ storage.GetPhotosByCounter (U := Fixtures.cyrillicLower) Fixtures.scenarioIndex "ABC-123"
     ++ [PhotoInfo.mk "p2.jpg" "meter/p2.jpg" Fixtures.t1 7 "h2" ""].
Proof.
  apply (AddPhoto_adds_one_record (U := Fixtures.cyrillicLower) storage.WriteOk
           "ABC-123" "p2.jpg" "meter/p2.jpg" Fixtures.t1 7 "h2" ""
           Fixtures.scenarioIndex None).
  intros p Hp. vm_compute in Hp. apply list_elem_of_singleton in Hp as ->. discriminate.
Defined.

(** After a restart the hash table is empty; without an identifier the
    index is not asked. *)
Lemma CheckDuplicate_without_counter_example :
  storage.CheckDuplicate (U := Fixtures.cyrillicLower) storage.NewDuplicateCheck
    "h1" 100 "unknown" Fixtures.t0 Fixtures.scenarioIndex
  = (None, EmptyString).
Proof.
  apply (CheckDuplicate_without_counter (U := Fixtures.cyrillicLower)); [reflexivity|by right].
Defined.

(** With the identifier the record of the index is found. *)
Lemma CheckDuplicate_by_counter_and_date_example :
  storage.CheckDuplicate (U := Fixtures.cyrillicLower) storage.NewDuplicateCheck
    "h1" 100 "ABC-123" Fixtures.t0 Fixtures.scenarioIndex
  = (Some {| FileHashInfo.Hash := "h1"; FileHashInfo.Size := 100;
             FileHashInfo.Date := Fixtures.t0; FileHashInfo.Path := "p1.jpg" |},
     "counter_and_date"%string).
Proof.
  destruct (@CheckDuplicate_by_counter_and_date _ cyrillicLower_laws
              storage.NewDuplicateCheck "h1" 100 "ABC-123" Fixtures.t0
              Fixtures.scenarioIndex eq_refl ltac:(discriminate) ltac:(discriminate))
    as [(pre & photo & post & Hbucket & _ & _ & ->)|[Hnone _]].
  - destruct pre as [|p pre]; [|destruct pre; discriminate Hbucket].
    injection Hbucket as <- _. reflexivity.
  - apply Forall_cons in Hnone as [Hnear _]. exfalso. apply Hnear. by vm_compute.
Defined.

(** The disk is full: the error is in the list of the session, the counts
    are as they were. *)
Lemma SyncHandler_save_failure_example :
  (fun session => (models.Errors session, models.Uploaded session, models.Skipped session))
    <$> storage.Get "t1"
          (handlers.sessionStore
             (handlers.SyncHandler (U := Fixtures.cyrillicLower) (P := Fixtures.plainPlatform)
                Fixtures.fullDiskEnv Fixtures.freshPhoto Fixtures.stateOneKnown).2)
  = Some (["failed to write file"%string], 0, 0).
Proof.
  destruct (SyncHandler_save_failure_recorded (U := Fixtures.cyrillicLower)
              (P := Fixtures.plainPlatform) Fixtures.fullDiskEnv Fixtures.freshPhoto
              Fixtures.stateOneKnown eq_refl)
    as (err & session & Hsave & Hget & Hget' & Herrors & Huploaded & Hskipped & _).
  change (handlers.sync_token Fixtures.freshPhoto) with "t1"%string in Hget'.
  rewrite Hget'. injection Hsave as <-. injection Hget as <-. reflexivity.
Defined.


(** The one photo the session expects arrives: the session is completed. *)
Lemma SyncHandler_records_upload_example :
  (fun session => (models.Uploaded session, models.Status session))
    <$> storage.Get "t1"
          (handlers.sessionStore
             (handlers.SyncHandler (U := Fixtures.cyrillicLower) (P := Fixtures.plainPlatform)
                Fixtures.calmEnv Fixtures.freshPhoto Fixtures.stateOneKnown).2)
  = Some (1, models.StatusCompleted).
Proof.
  pose proof (SyncHandler_records_upload (U := Fixtures.cyrillicLower)
                (P := Fixtures.plainPlatform) Fixtures.calmEnv Fixtures.freshPhoto
                Fixtures.stateOneKnown Fixtures.readyOne eq_refl) as Hrec.
  change ((handlers.SyncHandler Fixtures.calmEnv Fixtures.freshPhoto Fixtures.stateOneKnown).1)
    with (handlers.SyncSaved 1 1 "p1_2.jpg") in Hrec.
  destruct Hrec as (session' & Hget & Hup & _ & Hstatus & _).
  change (handlers.sync_token Fixtures.freshPhoto) with "t1"%string in Hget.
  rewrite Hget. cbn [fmap option_fmap option_map]. by rewrite Hup, Hstatus.
Defined.

(** The photo saved under [t1] is sent again, after the session [t1] was
    deleted, under a new session [t9] and another name: a duplicate by hash
    of the file first saved. *)
Lemma saved_photo_stays_duplicate_example :
  exists uploaded2 total2,
    (handlers.SyncHandler (U := Fixtures.cyrillicLower) (P := Fixtures.plainPlatform)
       Fixtures.calmEnv
       {| handlers.sync_token := "t9";
          handlers.sync_photo := Some (bytes_of_string "raw-bytes-of-p2");
          handlers.sync_counterNumber := ""; handlers.sync_originalName := "again.jpg";
          handlers.sync_dateTaken := "" |}
       (foldl (Spec.serve (U := Fixtures.cyrillicLower) (P := Fixtures.plainPlatform))
          (handlers.SyncHandler (U := Fixtures.cyrillicLower) (P := Fixtures.plainPlatform)
             Fixtures.calmEnv Fixtures.freshPhoto Fixtures.stateOneKnown).2
          [Spec.DeleteSession "t1"; Spec.GetStart Fixtures.t1 "t9"])).1
    = handlers.SyncDuplicate uploaded2 total2 "p1_2.jpg" "hash".
Proof.
  apply (saved_photo_stays_duplicate (U := Fixtures.cyrillicLower)
           (P := Fixtures.plainPlatform) Fixtures.calmEnv Fixtures.freshPhoto
           Fixtures.stateOneKnown 1 1 "p1_2.jpg").
  - reflexivity.
  - reflexivity.
  - discriminate.
  - vm_compute. by eexists.
  - reflexivity.
  - reflexivity.
Defined.


Lemma DeleteSessionHandler_example :
  handlers.StatusHandler Fixtures.t1 "t1"
    (handlers.DeleteSessionHandler "t1" Fixtures.stateOneKnown).2
  = handlers.StatusNotFound "session not found".
Proof.
  apply (proj1 (proj2 (DeleteSessionHandler_forgets (U := Fixtures.cyrillicLower)
                         (P := Fixtures.plainPlatform) "t1" Fixtures.stateOneKnown
                         ltac:(discriminate)))).
Defined.

(** The three calls of the fixture made two buckets; the listing is the
    index. *)
Lemma IndexHandler_example :
  handlers.IndexHandler (U := Fixtures.cyrillicLower) EmptyString
    {| handlers.sessionStore := storage.NewSessionStore;
       handlers.indexer :=
         Spec.afterAdds (U := Fixtures.cyrillicLower) ".index" None Fixtures.threeAdds;
       handlers.duplicateCheck := storage.NewDuplicateCheck;
       handlers.disk := None |}
  = handlers.IndexAll
      (storage.index
         (Spec.afterAdds (U := Fixtures.cyrillicLower) ".index" None Fixtures.threeAdds)).
Proof.
  apply (proj2 (@IndexHandler_lists_buckets _ cyrillicLower_laws)
           ".index" None Fixtures.threeAdds).
  reflexivity.
Defined.

(** Ten bytes: the marker, an APP1 marker, the length 6 and four bytes. *)
Lemma extract_truncated_APP1_example :
  handlers.extractUserCommentFromEXIF
    ((byte_of <$> [0xFF; 0xD8; 0xFF; 0xE1; 0x00; 0x06]) ++ bytes_of_string "Exif")
  = None.
Proof.
  apply (extract_truncated_APP1_panics [] 6 (bytes_of_string "Exif")).
  - constructor.
  - cbn. lia.
  - cbn. lia.
Defined.

Lemma newFilename_distinct_example :
  storage.newFilename (OS := Fixtures.unixPaths) "IMG_0001.jpg" 1704067260000000000
  = Some "IMG_0001_1704067260000000000.jpg"%string
  /\ storage.newFilename (OS := Fixtures.unixPaths) "IMG_0001.jpg" 1704067260000000001
     = Some "IMG_0001_1704067260000000001.jpg"%string
  /\ "IMG_0001_1704067260000000000.jpg"%string <> "IMG_0001_1704067260000000001.jpg"%string.
Proof.
  split_and!; [reflexivity|reflexivity|].
  apply (newFilename_distinct (OS := Fixtures.unixPaths) "IMG_0001.jpg"
           1704067260000000000 1704067260000000001); first [lia|reflexivity].
Defined.
